(** * DogMatch: the hybrid inference pipeline of [backend/dogmatch_predictor.py]

    A shallow embedding of [DogMatchPredictor.predict] and of the helpers it
    calls, of the ranking [_generate_predictions] it no longer calls, and of
    [backend/app.py]: the handler [recommend_breeds], the caches
    [get_predictor] and [load_breed_metadata], and the routes [/api/health]
    and [/api/breeds].

    Conventions.
    - A pandas [DataFrame] holding one row is an association list from column
      names to cells, in column order.
    - Python exceptions are values of [pyexn]; a computation that may raise and
      that calls pre-trained artifacts returns its outcome together with the
      list of artifact calls it made ([M]).
    - The pickled artifacts (classifier, similarity index, scaler, encoders,
      schema, catalog) are not part of the repository: they are the fields of
      the record [Artifacts].
    - Numbers: the code computes with binary64 floats.  All definitions are
      generic in an arithmetic [Arith F]; [binary64] instantiates it with
      the primitive floats (bit-exact evaluation), [exact] with the canonical
      rationals [Qc] (the arithmetic the formulas denote, used for the
      order-theoretic properties). *)

From Stdlib Require Import ZArith QArith Qcanon List String Ascii Bool Lia Lra.
From Stdlib Require Import Permutation Sorted.
From Stdlib Require Import PrimFloat FloatOps SpecFloat Uint63.
Import ListNotations.

Set Implicit Arguments.
Set Warnings "-inexact-float".

Local Open Scope string_scope.
Local Open Scope list_scope.

(** ** Python strings *)

Module PyStr.

(** Whitespace as [str.strip] sees it on ASCII text. *)
Definition is_space (c : ascii) : bool :=
  let n := nat_of_ascii c in
  ((9 <=? n)%nat && (n <=? 13)%nat) || ((28 <=? n)%nat && (n <=? 32)%nat).

Fixpoint lstrip_chars (l : list ascii) : list ascii :=
  match l with
  | c :: t => if is_space c then lstrip_chars t else l
  | [] => []
  end.

Definition strip (s : string) : string :=
  string_of_list_ascii
    (rev (lstrip_chars (rev (lstrip_chars (list_ascii_of_string s))))).

Definition lower_char (c : ascii) : ascii :=
  let n := nat_of_ascii c in
  if ((65 <=? n)%nat && (n <=? 90)%nat)%bool then ascii_of_nat (n + 32) else c.

Fixpoint lower (s : string) : string :=
  match s with
  | EmptyString => EmptyString
  | String c t => String (lower_char c) (lower t)
  end.

Definition mem (s : string) (l : list string) : bool :=
  existsb (String.eqb s) l.

(** [list.index]: position of the first occurrence. *)
Fixpoint index_of (s : string) (l : list string) : option nat :=
  match l with
  | [] => None
  | x :: t => if String.eqb s x then Some O
              else option_map S (index_of s t)
  end.

End PyStr.

(** ** Arithmetic *)

(** The operations the pipeline performs on float64 values. *)
Class Arith (F : Type) := {
  of_Z : Z -> F;
  add : F -> F -> F;
  sub : F -> F -> F;
  mul : F -> F -> F;
  div : F -> F -> F;
  ltb : F -> F -> bool;
  leb : F -> F -> bool;
  (** the integer a float is equal to, if any (hashing [1.0] like [1]) *)
  to_int : F -> option Z
}.

(** [round(x, ndigits)] of a Python float and of a NumPy float64 scalar. *)
Class Rounding (F : Type) := {
  py_round : F -> nat -> F;
  np_round : F -> nat -> F
}.

(** A decimal literal [m * 10^-e] such as [0.4]: the float nearest to it, which
    is also what the correctly rounded quotient of two exact integers gives. *)
Definition dec {F} `{Arith F} (m : Z) (e : nat) : F :=
  div (of_Z m) (of_Z (10 ^ Z.of_nat e)).

(** *** binary64 *)

Module F64.

(** The float nearest to an integer of the int64 range. *)

Definition of_Z (z : Z) : float :=
  if (z <? 0)%Z
  then PrimFloat.opp (PrimFloat.of_uint63 (Uint63.of_Z (- z)))
  else PrimFloat.of_uint63 (Uint63.of_Z z).

Definition to_int (x : float) : option Z :=
  match Prim2SF x with
  | S754_zero _ => Some 0%Z
  | S754_finite s m e =>
      let v := if (0 <=? e)%Z
               then Some (Z.pos m * 2 ^ e)%Z
               else if (Z.pos m mod 2 ^ (- e) =? 0)%Z
                    then Some (Z.pos m / 2 ^ (- e))%Z
                    else None in
      if s then option_map Z.opp v else v
  | _ => None
  end.

End F64.

#[export] Instance binary64 : Arith float := {
  of_Z := F64.of_Z;
  add := PrimFloat.add;
  sub := PrimFloat.sub;
  mul := PrimFloat.mul;
  div := PrimFloat.div;
  ltb := PrimFloat.ltb;
  leb := PrimFloat.leb;
  to_int := F64.to_int
}.

(** *** exact rationals *)

Module Exact.

Definition of_Z (z : Z) : Qc := Q2Qc (inject_Z z).

Definition ltb (x y : Qc) : bool := negb (Qle_bool y x).
Definition leb (x y : Qc) : bool := Qle_bool x y.

Definition to_int (x : Qc) : option Z :=
  match Qden x with
  | xH => Some (Qnum x)
  | _ => None
  end.

(** Round to the nearest integer, ties to even. *)
Definition round_half_even (q : Q) : Z :=
  let n := Qnum q in
  let d := Z.pos (Qden q) in
  let f := (n / d)%Z in
  let r2 := (2 * (n mod d))%Z in
  if (r2 <? d)%Z then f
  else if (d <? r2)%Z then (f + 1)%Z
  else if Z.even f then f else (f + 1)%Z.

(** Round to [n] decimals, ties to even. *)
Definition round (x : Qc) (n : nat) : Qc :=
  let p := (10 ^ Z.of_nat n)%Z in
  Q2Qc (inject_Z (round_half_even (x * inject_Z p)) / inject_Z p).

End Exact.

(** Division by zero gives [inf] or [nan] in binary64 and [0] here; the
    properties below that depend on a quotient establish that its denominator
    is not zero. *)
#[export] Instance exact : Arith Qc := {
  of_Z := Exact.of_Z;
  add := Qcplus;
  sub := Qcminus;
  mul := Qcmult;
  div := Qcdiv;
  ltb := Exact.ltb;
  leb := Exact.leb;
  to_int := Exact.to_int
}.

#[export] Instance exact_rounding : Rounding Qc := {
  py_round := Exact.round;
  np_round := Exact.round
}.

(** *** rounding in binary64 *)

Module Round64.

(** The value of a finite float with mantissa [m] and exponent [e]. *)
Definition exact (m : positive) (e : Z) : Q :=
  if (0 <=? e)%Z then inject_Z (Z.pos m * 2 ^ e)
  else Qmake (Z.pos m) (Z.to_pos (2 ^ (- e))).

(** The float nearest to [z / d], which is a zero of sign [s] when [z] is. *)
Definition nearest_quotient (s : bool) (z : Z) (d : positive) : float :=
  match z with
  | Z0 => SF2Prim (S754_zero s)
  | Zpos m =>
      SF2Prim (SFdiv prec emax (S754_finite false m 0) (S754_finite false d 0))
  | Zneg m =>
      SF2Prim (SFdiv prec emax (S754_finite true m 0) (S754_finite false d 0))
  end.

(** [round(x, n)] of a Python float, [n >= 0]: the exact value of [x] rounded
    to [n] decimals, ties to even, and the float nearest to the result
    (CPython rounds through the shortest-string conversion, which is
    correctly rounded both ways). *)
Definition py_round (x : float) (n : nat) : float :=
  match Prim2SF x with
  | S754_finite s m e =>
      let p := (10 ^ Z.of_nat n)%Z in
      let r := Exact.round_half_even (exact m e * inject_Z p) in
      nearest_quotient s (if s then (- r)%Z else r) (Z.to_pos p)
  | _ => x
  end.

(** [np.rint] *)
Definition rint (x : float) : float :=
  match Prim2SF x with
  | S754_finite s m e =>
      if (0 <=? e)%Z then x
      else let r := Exact.round_half_even (exact m e) in
           nearest_quotient s (if s then (- r)%Z else r) 1
  | _ => x
  end.

(** [round(x, n)] of a NumPy float64, [n >= 0]: [rint(x * 10**n) / 10**n]. *)
Definition np_round (x : float) (n : nat) : float :=
  let p := nearest_quotient false (10 ^ Z.of_nat n) 1 in
  PrimFloat.div (rint (PrimFloat.mul x p)) p.

End Round64.

#[export] Instance binary64_rounding : Rounding float := {
  py_round := Round64.py_round;
  np_round := Round64.np_round
}.

(** ** Dictionaries, cells and one-row data frames *)

Module Dict.
Section Dict.
Context {K V : Type} (eqb : K -> K -> bool).

Fixpoint get (k : K) (d : list (K * V)) : option V :=
  match d with
  | [] => None
  | (k', v) :: t => if eqb k k' then Some v else get k t
  end.

(** [d[k] = v]: overwrite in place, or append a new key. *)
Fixpoint set (k : K) (v : V) (d : list (K * V)) : list (K * V) :=
  match d with
  | [] => [(k, v)]
  | (k', v') :: t => if eqb k k' then (k, v) :: t else (k', v') :: set k v t
  end.

Definition has (k : K) (d : list (K * V)) : bool :=
  match get k d with Some _ => true | None => false end.
End Dict.
End Dict.

(** What a cell of the frame (or a value of the request) can hold: a string, an
    integer, a float, or the missing-value marker [NaN] that [Series.map]
    leaves for a key its dictionary lacks.  Integers are unbounded, as Python's
    are; JSON booleans, [null] and nested values are left out. *)
Inductive cell (F : Type) : Type :=
| CStr (s : string)
| CInt (z : Z)
| CFloat (x : F)
| CNaN.
Arguments CStr {F} s.
Arguments CInt {F} z.
Arguments CFloat {F} x.
Arguments CNaN {F}.

Definition row (F : Type) : Type := list (string * cell F).

Definition columns {F} (df : row F) : list string := map fst df.
Definition get_col {F} (c : string) (df : row F) : option (cell F) :=
  Dict.get String.eqb c df.
Definition set_col {F} (c : string) (v : cell F) (df : row F) : row F :=
  Dict.set String.eqb c v df.
Definition has_col {F} (c : string) (df : row F) : bool :=
  Dict.has String.eqb c df.

(** ** Exceptions and artifact calls *)

Inductive pyexn (F : Type) : Type :=
| MissingFeatures (missing : list string)
    (** [ValueError(f"Features ausentes: {missing_features}")] *)
| NotANumber (col : string) (received : cell F)
    (** [ValueError(f"'{col}' deve ser um número. Recebido: {user_input[col]}")] *)
| InvalidCategory (col : string) (received : cell F) (allowed : list string)
    (** [ValueError(f"Valor inválido para '{col}': ... Valores aceitos: {list(classes_)}")] *)
| KeyError (key : string)
| IndexError
| TypeError
| OverflowError
    (** [float] of an integer that rounds to no finite float *)
| ShapeMismatch
| ArtifactError (msg : string)
    (** raised inside a pre-trained artifact *)
| PredictionFailed (cause : pyexn F).
    (** [Exception(f"Erro ao fazer predição: {e}")] *)
Arguments MissingFeatures {F} missing.
Arguments NotANumber {F} col received.
Arguments InvalidCategory {F} col received allowed.
Arguments KeyError {F} key.
Arguments IndexError {F}.
Arguments TypeError {F}.
Arguments OverflowError {F}.
Arguments ShapeMismatch {F}.
Arguments ArtifactError {F} msg.
Arguments PredictionFailed {F} cause.

(** Calls into the pre-trained artifacts, in the order they happen. *)
Inductive event : Type :=
| EncoderTransform (col : string)
| ScalerTransform
| PredictProba
| Kneighbors (n_neighbors : nat).

(** A model capability is the classifier or the similarity index. *)
Definition is_model_call (e : event) : bool :=
  match e with
  | PredictProba | Kneighbors _ => true
  | _ => false
  end.

Definition is_kneighbors (e : event) : bool :=
  match e with Kneighbors _ => true | _ => false end.

(** Outcome of a computation and the artifact calls it made. *)
Definition M (F A : Type) : Type := (pyexn F + A) * list event.

Definition ret {F A} (a : A) : M F A := (inr a, []).
Definition raise {F A} (e : pyexn F) : M F A := (inl e, []).
Definition call {F A} (ev : event) (outcome : pyexn F + A) : M F A :=
  (outcome, [ev]).
Definition lift {F A} (r : pyexn F + A) : M F A := (r, []).

Definition bind {F A B} (m : M F A) (f : A -> M F B) : M F B :=
  match m with
  | (inl e, t) => (inl e, t)
  | (inr a, t) => let (r, t') := f a in (r, t ++ t')
  end.

(** [try: m except Exception as e: h e] *)
Definition catch {F A} (m : M F A) (h : pyexn F -> M F A) : M F A :=
  match m with
  | (inl e, t) => let (r, t') := h e in (r, t ++ t')
  | ok => ok
  end.

Declare Scope py_scope.
Delimit Scope py_scope with py.
Notation "x <- m ;; k" := (bind m (fun x => k))
  (at level 61, m at next level, right associativity) : py_scope.
Notation "' pat <- m ;; k" := (bind m (fun x => match x with pat => k end))
  (at level 61, pat pattern, m at next level, right associativity) : py_scope.

Fixpoint enumerate {A} (start : nat) (l : list A) : list (nat * A) :=
  match l with
  | [] => []
  | a :: t => (start, a) :: enumerate (S start) t
  end.

(** ** Artifacts and results *)

(** The builtins [float(s)] and [int(s)] on strings: whether the first
    succeeds, and the value of the second. *)
Class PyBuiltins := {
  float_parses : string -> bool;
  int_parse : string -> option Z
}.

(** What [DogMatchPredictor.__init__] loads from the [models] directory. *)
Record Artifacts (F : Type) : Type := {
  feature_columns : list string;
  categorical_columns : list string;
  numeric_columns : list string;
  breed_names : list string;
  group_labels : list string;
  breed_labels : list string;
  (** [label_encoders[col].classes_] *)
  label_encoders : list (string * list string);
  (** [robust_scaler.transform] on the selected columns *)
  robust_scaler : row F -> pyexn F + list F;
  (** [model.predict_proba(user_df)[0]], when the model has the attribute *)
  predict_proba : option (row F -> pyexn F + list F);
  classes_ : list string;
  (** [similarity_model.kneighbors(user_df, n_neighbors)], first row of each *)
  kneighbors : row F -> nat -> pyexn F + (list F * list nat);
  (** [len(self.X_enhanced)] *)
  X_enhanced_len : nat;
  y_processed : list string
}.

Record BreedSuggestion (F : Type) : Type := {
  breed : string;
  group : option string;
  similarity : F;
  rank : nat
}.

Record GroupPrediction (F : Type) : Type := {
  g_group : string;
  g_score : F;
  g_rank : nat
}.

Record PredictResult (F : Type) : Type := {
  predictions : list (BreedSuggestion F);
  similar_breeds : list (BreedSuggestion F);
  user_profile : list (string * cell F);
  predictions_grouped : list (GroupPrediction F)
}.

(** ** The predictor *)

Definition obind {A B} (o : option A) (f : A -> option B) : option B :=
  match o with Some a => f a | None => None end.

Definition ebind {E A B} (r : E + A) (f : A -> E + B) : E + B :=
  match r with inr a => f a | inl e => inl e end.

Declare Scope opt_scope.
Delimit Scope opt_scope with opt.
Notation "x <- m ;; k" := (obind m (fun x => k))
  (at level 61, m at next level, right associativity) : opt_scope.

Declare Scope exn_scope.
Delimit Scope exn_scope with exn.
Notation "x <- m ;; k" := (ebind m (fun x => k))
  (at level 61, m at next level, right associativity) : exn_scope.

(** *** Series arithmetic on one cell
    [None] stands for the [TypeError] pandas raises on a string operand. *)

Section Series.
Context {F : Type} {AF : Arith F}.

(** [series * k] with [k] a float literal *)
Definition mul_lit (c : cell F) (k : F) : option (cell F) :=
  match c with
  | CInt z => Some (CFloat (mul (of_Z z) k))
  | CFloat x => Some (CFloat (mul x k))
  | CNaN => Some CNaN
  | CStr _ => None
  end.

(** [n - series] with [n] an int literal *)
Definition rsub_int (n : Z) (c : cell F) : option (cell F) :=
  match c with
  | CInt z => Some (CInt (n - z))
  | CFloat x => Some (CFloat (sub (of_Z n) x))
  | CNaN => Some CNaN
  | CStr _ => None
  end.

(** [series + n] with [n] an int literal *)
Definition add_int (c : cell F) (n : Z) : option (cell F) :=
  match c with
  | CInt z => Some (CInt (z + n))
  | CFloat x => Some (CFloat (add x (of_Z n)))
  | CNaN => Some CNaN
  | CStr _ => None
  end.

(** [a + b] *)
Definition add_cells (a b : cell F) : option (cell F) :=
  match a, b with
  | CInt x, CInt y => Some (CInt (x + y))
  | CInt x, CFloat y => Some (CFloat (add (of_Z x) y))
  | CFloat x, CInt y => Some (CFloat (add x (of_Z y)))
  | CFloat x, CFloat y => Some (CFloat (add x y))
  | CStr s, CStr t => Some (CStr (s ++ t))
  | CStr _, _ | _, CStr _ => None
  | _, _ => Some CNaN
  end.

(** [a / b]: true division, always a float *)
Definition div_cells (a b : cell F) : option (cell F) :=
  match a, b with
  | CInt x, CInt y => Some (CFloat (div (of_Z x) (of_Z y)))
  | CInt x, CFloat y => Some (CFloat (div (of_Z x) y))
  | CFloat x, CInt y => Some (CFloat (div x (of_Z y)))
  | CFloat x, CFloat y => Some (CFloat (div x y))
  | CStr _, _ | _, CStr _ => None
  | _, _ => Some CNaN
  end.

(** [series.map(mapping)] for a dictionary with integer keys *)
Definition series_map (mapping : list (Z * F)) (c : cell F) : cell F :=
  let key := match c with
             | CInt z => Some z
             | CFloat x => to_int x
             | _ => None
             end in
  match obind key (fun z => Dict.get Z.eqb z mapping) with
  | Some w => CFloat w
  | None => CNaN
  end.

End Series.

Section Pipeline.
Context {F : Type} {AF : Arith F} {RF : Rounding F} {Py : PyBuiltins}.
Variable A : Artifacts F.

(** *** [_validate_input] *)

(** [float(user_input[col])] raises [OverflowError]: the value is an integer
    that rounds to no finite float, its magnitude being [2^1024 - 2^970] or
    more.  ([float] of a string too large gives [inf].) *)
Definition float_overflows (v : cell F) : bool :=
  match v with
  | CInt z => (2 ^ 1024 - 2 ^ 970 <=? Z.abs z)%Z
  | _ => false
  end.

(** [float(user_input[col])] returns a value: a string must parse, an integer
    must not overflow. *)
Definition float_ok (v : cell F) : bool :=
  match v with
  | CStr s => float_parses s
  | _ => negb (float_overflows v)
  end.

(** [set(self.feature_columns) - set(user_input.keys())], listed in schema
    order (a Python set has no order of its own). *)
Definition missing_features (user_input : row F) : list string :=
  filter (fun c => negb (has_col c user_input))
         (nodup string_dec (feature_columns A)).

(** The loop over the numeric columns.  Its [except (ValueError, TypeError)]
    turns a value that is no number into the not-a-number error and lets an
    [OverflowError] through. *)
Fixpoint check_numeric (cols : list string) (user_input : row F)
  : pyexn F + unit :=
  match cols with
  | [] => inr tt
  | col :: rest =>
      match get_col col user_input with
      | Some v => if float_ok v then check_numeric rest user_input
                  else if float_overflows v then inl OverflowError
                  else inl (NotANumber col v)
      | None => check_numeric rest user_input
      end
  end.

Definition _validate_input (user_input : row F) : pyexn F + unit :=
  match missing_features user_input with
  | [] => check_numeric (numeric_columns A) user_input
  | missing => inl (MissingFeatures missing)
  end.

(** *** Label encoding (the loop of [predict]) *)

(** [encoder.transform] of a value that is [in encoder.classes_]; a value that
    is not a string equals none of the classes. *)
Definition encode_value (classes : list string) (v : cell F) : option nat :=
  match v with
  | CStr s => PyStr.index_of s classes
  | _ => None
  end.

Fixpoint encode_categoricals (cols : list string) (user_input user_df : row F)
  : M F (row F) :=
  match cols with
  | [] => ret user_df
  | col :: rest =>
      if has_col col user_df then
        match get_col col user_input with
        | None => raise (KeyError col)
        | Some v =>
            match Dict.get String.eqb col (label_encoders A) with
            | None => raise (KeyError col)
            | Some classes =>
                match encode_value classes v with
                | None => raise (InvalidCategory col v classes)
                | Some i =>
                    (df' <- call (EncoderTransform col)
                                 (inr (set_col col (CInt (Z.of_nat i)) user_df)) ;;
                     encode_categoricals rest user_input df')%py
                end
            end
        end
      else encode_categoricals rest user_input user_df
  end.

(** *** [_create_derived_features] *)

Definition name_weight (name_to_weight : list (string * F)) (default : F)
  (cls : string) : F :=
  match Dict.get String.eqb (PyStr.lower (PyStr.strip cls)) name_to_weight with
  | Some w => w
  | None => default
  end.

Definition _encoded_weights (column : string)
  (name_to_weight : list (string * F)) (default : F) : list (Z * F) :=
  match Dict.get String.eqb column (label_encoders A) with
  | None => []
  | Some classes =>
      fold_left
        (fun mapping cls =>
           match PyStr.index_of cls classes with
           | Some encoded =>
               Dict.set Z.eqb (Z.of_nat encoded)
                        (name_weight name_to_weight default cls) mapping
           | None => mapping
           end)
        classes []
  end.

Definition children_weights : list (Z * F) :=
  _encoded_weights "Good with Children"
    [("yes", dec 10 1); ("with training", dec 5 1); ("no", dec 0 1)]
    (dec 0 1).

Definition shedding_weights : list (Z * F) :=
  _encoded_weights "Shedding Level"
    [("low", dec 0 1); ("moderate", dec 5 1); ("high", dec 10 1);
     ("very high", dec 15 1)]
    (dec 5 1).

Definition health_weights : list (Z * F) :=
  _encoded_weights "Health Issues Risk"
    [("low", dec 0 1); ("moderate", dec 5 1); ("high", dec 10 1)]
    (dec 5 1).

Definition size_weights : list (Z * F) :=
  _encoded_weights "Size"
    [("toy", dec 10 1); ("small", dec 10 1); ("small-medium", dec 15 1);
     ("medium", dec 20 1); ("large", dec 30 1); ("giant", dec 40 1)]
    (dec 20 1).

Definition family_compatibility (user_df : row F) : option (row F) :=
  if has_col "Good with Children" user_df
     && has_col "Friendly Rating (1-10)" user_df
     && has_col "Training Difficulty (1-10)" user_df
  then
    (gc <- get_col "Good with Children" user_df ;;
     let children_score := series_map children_weights gc in
     a <- mul_lit children_score (dec 4 1) ;;
     fr <- get_col "Friendly Rating (1-10)" user_df ;;
     b <- mul_lit fr (dec 1 1) ;;
     ab <- add_cells a b ;;
     td <- get_col "Training Difficulty (1-10)" user_df ;;
     c <- rsub_int 10 td ;;
     c' <- mul_lit c (dec 1 1) ;;
     v <- add_cells ab c' ;;
     Some (set_col "Family_Compatibility_Score" v user_df))%opt
  else Some user_df.

Definition maintenance (user_df : row F) : option (row F) :=
  if has_col "Shedding Level" user_df
     && has_col "Exercise Requirements (hrs/day)" user_df
     && has_col "Health Issues Risk" user_df
  then
    (sl <- get_col "Shedding Level" user_df ;;
     let shedding_score := series_map shedding_weights sl in
     hr <- get_col "Health Issues Risk" user_df ;;
     let health_score := series_map health_weights hr in
     a <- mul_lit shedding_score (dec 3 1) ;;
     ex <- get_col "Exercise Requirements (hrs/day)" user_df ;;
     b <- mul_lit ex (dec 2 1) ;;
     ab <- add_cells a b ;;
     c <- mul_lit health_score (dec 3 1) ;;
     v <- add_cells ab c ;;
     Some (set_col "Maintenance_Score" v user_df))%opt
  else Some user_df.

Definition energy (user_df : row F) : option (row F) :=
  if has_col "Exercise Requirements (hrs/day)" user_df
     && has_col "Intelligence Rating (1-10)" user_df
  then
    (ex <- get_col "Exercise Requirements (hrs/day)" user_df ;;
     a <- mul_lit ex (dec 4 1) ;;
     ir <- get_col "Intelligence Rating (1-10)" user_df ;;
     b <- mul_lit ir (dec 1 1) ;;
     v <- add_cells a b ;;
     Some (set_col "Energy_Score" v user_df))%opt
  else Some user_df.

Definition intelligence_training_ratio (user_df : row F) : option (row F) :=
  if has_col "Intelligence Rating (1-10)" user_df
     && has_col "Training Difficulty (1-10)" user_df
  then
    (ir <- get_col "Intelligence Rating (1-10)" user_df ;;
     td <- get_col "Training Difficulty (1-10)" user_df ;;
     d <- add_int td 1 ;;
     v <- div_cells ir d ;;
     Some (set_col "Intelligence_Training_Ratio" v user_df))%opt
  else Some user_df.

Definition size_score (user_df : row F) : option (row F) :=
  if has_col "Size" user_df
  then
    (sz <- get_col "Size" user_df ;;
     Some (set_col "Size_Score" (series_map size_weights sz) user_df))%opt
  else Some user_df.

(** The frame is updated in place, so an exception leaves the columns that
    were already assigned; the handler returns the frame as it is then. *)
Fixpoint run_until_exception (steps : list (row F -> option (row F)))
  (user_df : row F) : row F :=
  match steps with
  | [] => user_df
  | step :: rest =>
      match step user_df with
      | Some df' => run_until_exception rest df'
      | None => user_df
      end
  end.

Definition _create_derived_features (user_df : row F) : row F :=
  run_until_exception
    [family_compatibility; maintenance; energy; intelligence_training_ratio;
     size_score]
    user_df.

(** *** Column alignment (the [reindex] of [predict]) *)

Definition derived_cols : list string :=
  ["Family_Compatibility_Score"; "Maintenance_Score"; "Energy_Score";
   "Intelligence_Training_Ratio"; "Size_Score"].

Definition expected_columns : list string :=
  fold_left
    (fun expected col => if PyStr.mem col expected then expected
                         else expected ++ [col])
    derived_cols (feature_columns A).

(** [user_df.reindex(columns=expected, fill_value=0)] *)
Definition reindex (expected : list string) (user_df : row F) : row F :=
  map (fun c => (c, match get_col c user_df with
                    | Some v => v
                    | None => CInt 0
                    end))
      expected.

(** *** Robust scaling of the numeric columns *)

(** [user_df[cols]] *)
Fixpoint select_columns (cols : list string) (user_df : row F)
  : pyexn F + row F :=
  match cols with
  | [] => inr []
  | c :: rest =>
      match get_col c user_df with
      | None => inl (KeyError c)
      | Some v => (sub <- select_columns rest user_df ;; inr ((c, v) :: sub))%exn
      end
  end.

(** [user_df[cols] = values] *)
Fixpoint assign_columns (cols : list string) (values : list F)
  (user_df : row F) : row F :=
  match cols, values with
  | c :: cols', v :: values' =>
      assign_columns cols' values' (set_col c (CFloat v) user_df)
  | _, _ => user_df
  end.

Definition scale_numeric (user_df : row F) : M F (row F) :=
  (selected <- lift (select_columns (numeric_columns A) user_df) ;;
   scaled <- call ScalerTransform (robust_scaler A selected) ;;
   if (List.length scaled =? List.length (numeric_columns A))%nat
   then ret (assign_columns (numeric_columns A) scaled user_df)
   else raise ShapeMismatch)%py.

(** *** [_generate_group_predictions] *)

Definition value_at (values : list F) (i : nat) : F := nth i values (of_Z 0).

(** Insert index [i] after the indices whose value is at most its own. *)
Fixpoint insert_index (values : list F) (i : nat) (sorted : list nat)
  : list nat :=
  match sorted with
  | [] => [i]
  | j :: rest =>
      if leb (value_at values j) (value_at values i)
      then j :: insert_index values i rest
      else i :: sorted
  end.

(** [np.argsort(values)]: the positions in ascending order of value, by
    insertion, which keeps equal values in position order.  This is what
    NumPy's default introsort does on an array as short as the list of
    classes when no vectorised kernel is dispatched; NumPy itself promises no
    order among equal values. *)
Definition argsort (values : list F) : list nat :=
  fold_left (fun sorted i => insert_index values i sorted)
            (seq 0 (List.length values)) [].

Fixpoint group_entries (probas : list F) (ranked : list (nat * nat))
  : pyexn F + list (GroupPrediction F) :=
  match ranked with
  | [] => inr []
  | (rank, idx) :: rest =>
      match nth_error (classes_ A) idx with
      | None => inl IndexError
      | Some group_label =>
          let score := value_at probas idx in
          (preds <- group_entries probas rest ;;
           inr ({| g_group := group_label;
                   g_score := py_round score 4;
                   g_rank := rank |} :: preds))%exn
      end
  end.

Definition _generate_group_predictions (user_df : row F) (top_k : nat)
  : M F (list (GroupPrediction F)) :=
  match predict_proba A with
  | None => ret []
  | Some model_predict_proba =>
      (probas <- call PredictProba (model_predict_proba user_df) ;;
       let top_indices := firstn top_k (rev (argsort probas)) in
       lift (group_entries probas (enumerate 1 top_indices)))%py
  end.

(** *** [_find_similar_breeds] *)

Definition breed_name_at (idx : nat) : pyexn F + string :=
  let source := match breed_labels A with
                | [] => y_processed A
                | labels => labels
                end in
  match nth_error source idx with
  | Some name => inr name
  | None => inl IndexError
  end.

Definition group_label_at (idx : nat) : pyexn F + option string :=
  match group_labels A with
  | [] => inr None
  | labels => match nth_error labels idx with
              | Some g => inr (Some g)
              | None => inl IndexError
              end
  end.

Definition raw_similarity (dist : F) : F :=
  div (of_Z 1) (add (of_Z 1) dist).

(** [similarities.max()] *)
Definition maximum (x : F) (xs : list F) : F :=
  fold_left (fun m y => if leb m y then y else m) xs x.

Definition max_similarity (distances : list F) : F :=
  match map raw_similarity distances with
  | [] => of_Z 1
  | s :: rest => maximum s rest
  end.

Definition normalised (max_sim : F) (dist : F) : F :=
  if ltb (of_Z 0) max_sim then div (raw_similarity dist) max_sim else of_Z 0.

Fixpoint similar_entries (top_k : nat) (max_sim : F)
  (items : list (nat * (F * nat))) : pyexn F + list (BreedSuggestion F) :=
  match items with
  | [] => inr []
  | (i, (dist, idx)) :: rest =>
      if (i <? top_k)%nat then
        (breed_name <- breed_name_at idx ;;
         group_label <- group_label_at idx ;;
         entries <- similar_entries top_k max_sim rest ;;
         inr ({| breed := breed_name;
                 group := group_label;
                 similarity := py_round (normalised max_sim dist) 3;
                 rank := i + 1 |} :: entries))%exn
      else similar_entries top_k max_sim rest
  end.

Definition _find_similar_breeds (user_df : row F) (top_k : nat)
  : M F (list (BreedSuggestion F)) :=
  let neighbor_count := Nat.min top_k (X_enhanced_len A) in
  catch
    ('(distances, indices) <-
        call (Kneighbors neighbor_count) (kneighbors A user_df neighbor_count) ;;
     let max_sim := max_similarity distances in
     lift (similar_entries top_k max_sim
             (enumerate 0 (combine distances indices))))%py
    (fun _ => ret []).

(** *** [_calculate_user_profile] *)

(** [round(user_df[col].iloc[0], ndigits)] *)
Definition round_cell (c : cell F) (ndigits : nat) : option (cell F) :=
  match c with
  | CStr _ => None
  | CInt z => Some (CInt z)
  | CFloat x => Some (CFloat (np_round x ndigits))
  | CNaN => Some CNaN
  end.

Definition profile_field (user_df : row F) (col key : string) (ndigits : nat)
  (profile : row F) : option (row F) :=
  if has_col col user_df then
    (v <- get_col col user_df ;;
     r <- round_cell v ndigits ;;
     Some (set_col key r profile))%opt
  else Some profile.

Definition profile_fields : list (string * string * nat) :=
  [("Family_Compatibility_Score", "family_friendly", 2%nat);
   ("Energy_Score", "energy_level", 2%nat);
   ("Maintenance_Score", "maintenance_level", 2%nat);
   ("Intelligence Rating (1-10)", "intelligence_level", 1%nat);
   ("Size_Score", "size_preference", 1%nat)].

Fixpoint fill_profile (user_df : row F) (fields : list (string * string * nat))
  (profile : row F) : option (row F) :=
  match fields with
  | [] => Some profile
  | (col, key, ndigits) :: rest =>
      (profile' <- profile_field user_df col key ndigits profile ;;
       fill_profile user_df rest profile')%opt
  end.

Definition _calculate_user_profile (user_df : row F) : row F :=
  match fill_profile user_df profile_fields [] with
  | Some profile => profile
  | None => []
  end.

(** *** [predict] *)

Definition clamp_k (top_k : Z) : nat :=
  Z.to_nat (Z.max 1 (Z.min top_k (Z.of_nat (List.length (breed_names A))))).

(** The stages of [predict] that come before ranking, as a function of their
    own: validate, encode, derive, align, scale. *)
Definition prepare (user_input : row F) : M F (row F) :=
  (_ <- lift (_validate_input user_input) ;;
   user_df <- encode_categoricals (categorical_columns A) user_input user_input ;;
   scale_numeric (reindex expected_columns (_create_derived_features user_df)))%py.

Definition predict_body (user_input : row F) (top_k : Z)
  : M F (PredictResult F) :=
  (let k := clamp_k top_k in
   _ <- lift (_validate_input user_input) ;;
   let user_df := user_input in
   user_df <- encode_categoricals (categorical_columns A) user_input user_df ;;
   let user_df := _create_derived_features user_df in
   let user_df := reindex expected_columns user_df in
   user_df <- scale_numeric user_df ;;
   predictions_grouped <- _generate_group_predictions user_df k ;;
   breed_suggestions <- _find_similar_breeds user_df k ;;
   let user_profile := _calculate_user_profile user_df in
   ret {| predictions := breed_suggestions;
          similar_breeds := breed_suggestions;
          user_profile := user_profile;
          predictions_grouped := predictions_grouped |})%py.

Definition predict (user_input : row F) (top_k : Z) : M F (PredictResult F) :=
  catch (predict_body user_input top_k)
        (fun e => raise (PredictionFailed e)).

End Pipeline.

(** ** The [/api/recommend] handler of [app.py]

    The handler from the point where [request.json] has been evaluated and
    the predictor fetched ([recommend_route] below has the two steps before).
    Whatever is raised and not caught on the spot reaches the handler's
    [except Exception] and is answered with status 500: no exception of the
    body is a [ValueError].  The [api_version] and [timestamp] added to a
    result are strings and are left out. *)

(** [request.json]: a JSON object, or any other JSON value with its
    truthiness. *)
Inductive request_json (F : Type) : Type :=
| JsonDict (d : row F)
| JsonOther (truthy : bool).
Arguments JsonDict {F} d.
Arguments JsonOther {F} truthy.

Inductive api_error (F : Type) : Type :=
| JsonBodyRequired
| ExpectedJsonObject
| TopKNotPositiveInteger
| RequiredFieldsMissing (missing required : list string)
| FieldNotNumeric (col : string)
| InvalidFieldValue (col : string) (allowed : list string)
| InternalError (e : pyexn F).
Arguments JsonBodyRequired {F}.
Arguments ExpectedJsonObject {F}.
Arguments TopKNotPositiveInteger {F}.
Arguments RequiredFieldsMissing {F} missing required.
Arguments FieldNotNumeric {F} col.
Arguments InvalidFieldValue {F} col allowed.
Arguments InternalError {F} e.

(** A 64-bit integer of NumPy: what a column of integers holds when they all
    fit [int64] or [uint64]. *)
Definition numpy_integer (z : Z) : bool :=
  ((- 2 ^ 63 <=? z) && (z <? 2 ^ 64))%Z.

(** [jsonify(results)] returns.  Flask's JSON provider writes strings, Python
    integers and floats (a [numpy.float64] is one, NaN included) and [None],
    and raises [TypeError] on a NumPy integer.  Suggestions and grouped
    predictions hold strings, Python integers and Python floats; a profile
    value is what [round] returned for the cell of a column, which for a column
    of 64-bit integers (the [0] that fills an absent column included) is a
    NumPy integer. *)
Definition json_serialisable {F} (results : PredictResult F) : bool :=
  forallb (fun field => match snd field with
                        | CInt z => negb (numpy_integer z)
                        | _ => true
                        end)
          (user_profile results).

Inductive response (F : Type) : Type :=
| Error (status : nat) (error : api_error F)
| Ok (results : PredictResult F).
Arguments Error {F} status error.
Arguments Ok {F} results.

Section Handler.
Context {F : Type} {AF : Arith F} {RF : Rounding F} {Py : PyBuiltins}.
Variable A : Artifacts F.

(** [int(top_k_param)] followed by the positivity test; [None] is the
    [ValueError] both raise. *)
Definition parse_top_k (top_k_param : option string) : option Z :=
  let parsed := match top_k_param with
                | None => Some 5%Z
                | Some s => int_parse s
                end in
  match parsed with
  | Some top_k => if (top_k <=? 0)%Z then None else Some top_k
  | None => None
  end.

(** The loop over the numeric fields: no field, or the first one whose value
    is no number; the [OverflowError] of [float] is not among the exceptions
    the loop catches. *)
Fixpoint first_non_numeric (cols : list string) (user_input : row F)
  : pyexn F + option string :=
  match cols with
  | [] => inr None
  | col :: rest =>
      match get_col col user_input with
      | Some v => if float_ok v then first_non_numeric rest user_input
                  else if float_overflows v then inl OverflowError
                  else inr (Some col)
      | None => first_non_numeric rest user_input
      end
  end.

Fixpoint first_invalid_category (categorical_values : list (string * list string))
  (user_input : row F) : option (string * list string) :=
  match categorical_values with
  | [] => None
  | (col, allowed) :: rest =>
      match get_col col user_input with
      | Some v =>
          let ok := match v with
                    | CStr s => PyStr.mem s allowed
                    | _ => false
                    end in
          if ok then first_invalid_category rest user_input
          else Some (col, allowed)
      | None => first_invalid_category rest user_input
      end
  end.

Definition recommend_breeds (json : request_json F)
  (top_k_param : option string) : response F * list event :=
  match json with
  | JsonOther false | JsonDict [] => (Error 400 JsonBodyRequired, [])
  | JsonOther true => (Error 400 ExpectedJsonObject, [])
  | JsonDict user_input =>
      match parse_top_k top_k_param with
      | None => (Error 400 TopKNotPositiveInteger, [])
      | Some top_k =>
          let required_fields := feature_columns A in
          let missing_fields :=
            filter (fun field => negb (has_col field user_input))
                   required_fields in
          match missing_fields with
          | _ :: _ =>
              (Error 400 (RequiredFieldsMissing missing_fields required_fields),
               [])
          | [] =>
              match first_non_numeric (numeric_columns A) user_input with
              | inl e => (Error 500 (InternalError e), [])
              | inr (Some col) => (Error 400 (FieldNotNumeric col), [])
              | inr None =>
                  match first_invalid_category (label_encoders A) user_input with
                  | Some (col, allowed) =>
                      (Error 400 (InvalidFieldValue col allowed), [])
                  | None =>
                      match predict A user_input top_k with
                      | (inr results, calls) =>
                          if json_serialisable results
                          then (Ok results, calls)
                          else (Error 500 (InternalError TypeError), calls)
                      | (inl e, calls) => (Error 500 (InternalError e), calls)
                      end
                  end
              end
          end
      end
  end.

End Handler.

(** ** Illustrative artifacts

    The pickles are not in the repository; these stand-ins follow the schema of
    the request documented in [predict] and are used to run the pipeline on
    concrete requests. *)

Module Sample.
Section Sample.
Context {F : Type} {AF : Arith F}.

Definition features : list string :=
  ["Size"; "Exercise Requirements (hrs/day)"; "Good with Children";
   "Intelligence Rating (1-10)"; "Training Difficulty (1-10)";
   "Shedding Level"; "Health Issues Risk"; "Type"; "Friendly Rating (1-10)";
   "Life Span"; "Average Weight (kg)"].

Definition categorical : list string :=
  ["Size"; "Good with Children"; "Shedding Level"; "Health Issues Risk";
   "Type"].

Definition numeric : list string :=
  ["Exercise Requirements (hrs/day)"; "Intelligence Rating (1-10)";
   "Training Difficulty (1-10)"; "Friendly Rating (1-10)"; "Life Span";
   "Average Weight (kg)"].

Definition encoders : list (string * list string) :=
  [("Size", ["Giant"; "Large"; "Medium"; "Small"; "Small-Medium"; "Toy"]);
   ("Good with Children", ["No"; "With Training"; "Yes"]);
   ("Shedding Level", ["High"; "Low"; "Moderate"; "Very High"]);
   ("Health Issues Risk", ["High"; "Low"; "Moderate"]);
   ("Type", ["Herding"; "Hound"; "Non-Sporting"; "Sporting"; "Terrier"; "Toy";
             "Working"])].

(** A median/IQR transform [(x - center) / scale]; a cell that is not a number
    is taken at the center. *)
Definition centers_scales : list (F * F) :=
  [(dec 15 1, dec 10 1); (of_Z 7, of_Z 2); (of_Z 5, of_Z 3); (of_Z 7, of_Z 2);
   (of_Z 12, of_Z 3); (of_Z 20, of_Z 25)].

Fixpoint scale_cells (cells : row F) (params : list (F * F)) : list F :=
  match cells with
  | [] => []
  | (_, v) :: rest =>
      let '(center, scale) := match params with
                              | p :: _ => p
                              | [] => (of_Z 0, of_Z 1)
                              end in
      let x := match v with
               | CInt z => of_Z z
               | CFloat x => x
               | _ => center
               end in
      div (sub x center) scale :: scale_cells rest (tl params)
  end.

Definition scaler (selected : row F) : pyexn F + list F :=
  inr (scale_cells selected centers_scales).

Definition groups : list string := ["Companion"; "Herding"; "Sporting"].

Definition classifier (user_df : row F) : pyexn F + list F :=
  inr [dec 25 2; dec 5 1; dec 25 2].

Definition catalog : list string :=
  ["Beagle"; "Border Collie"; "Golden Retriever"; "Pug"].

Definition catalog_groups : list string :=
  ["Sporting"; "Herding"; "Sporting"; "Companion"].

(** The four catalog rows at fixed distances from every request. *)
Definition index (user_df : row F) (n_neighbors : nat)
  : pyexn F + (list F * list nat) :=
  if (n_neighbors <=? 4)%nat
  then inr (firstn n_neighbors [dec 5 1; of_Z 1; of_Z 3; of_Z 4],
            firstn n_neighbors [1; 2; 0; 3]%nat)
  else inl (ArtifactError "Expected n_neighbors <= n_samples_fit").

Definition artifacts : Artifacts F := {|
  feature_columns := features;
  categorical_columns := categorical;
  numeric_columns := numeric;
  breed_names := catalog;
  group_labels := catalog_groups;
  breed_labels := catalog;
  label_encoders := encoders;
  robust_scaler := scaler;
  predict_proba := Some classifier;
  classes_ := groups;
  kneighbors := index;
  X_enhanced_len := 4;
  y_processed := catalog
|}.

(** The request of the docstring of [predict]. *)
Definition example_input : row F :=
  [("Size", CStr "Medium");
   ("Exercise Requirements (hrs/day)", CFloat (dec 20 1));
   ("Good with Children", CStr "Yes");
   ("Intelligence Rating (1-10)", CInt 7);
   ("Training Difficulty (1-10)", CInt 3);
   ("Shedding Level", CStr "Moderate");
   ("Health Issues Risk", CStr "Low");
   ("Type", CStr "Herding");
   ("Friendly Rating (1-10)", CInt 8);
   ("Life Span", CInt 12);
   ("Average Weight (kg)", CInt 20)].

End Sample.

(** [int] and [float] on plain decimal numerals, with an optional sign. *)
Fixpoint digits_value (s : string) (acc : Z) : option Z :=
  match s with
  | EmptyString => Some acc
  | String c t =>
      let n := nat_of_ascii c in
      if ((48 <=? n)%nat && (n <=? 57)%nat)%bool
      then digits_value t (10 * acc + Z.of_nat (n - 48))%Z
      else None
  end.

Definition numeral (s : string) : option Z :=
  match s with
  | EmptyString => None
  | String "-" EmptyString => None
  | String "-" t => option_map Z.opp (digits_value t 0)
  | _ => digits_value s 0
  end.

#[global] Instance builtins : PyBuiltins := {
  float_parses := fun s => match numeral s with Some _ => true | None => false end;
  int_parse := numeral
}.

End Sample.

(** ** Vocabulary of the statements *)

Section Vocabulary.
Context {F : Type} {AF : Arith F} {RF : Rounding F} {Py : PyBuiltins}.
Variable A : Artifacts F.

(** The value of column [col] is not in the vocabulary of its encoder. *)
Definition outside_vocabulary (user_input : row F) (col : string) : Prop :=
  exists v classes,
    get_col col user_input = Some v /\
    Dict.get String.eqb col (label_encoders A) = Some classes /\
    encode_value classes v = None.

(** A request that passes validation and encoding. *)
Record valid_input (user_input : row F) : Prop := {
  required_present :
    forall c, In c (feature_columns A) -> has_col c user_input = true;
  numeric_convertible :
    forall c v, In c (numeric_columns A) ->
                get_col c user_input = Some v -> float_ok v = true;
  categories_known :
    forall c v, In c (categorical_columns A) ->
                get_col c user_input = Some v ->
                exists classes,
                  Dict.get String.eqb c (label_encoders A) = Some classes /\
                  encode_value classes v <> None
}.

(** The scaler and the classifier answer every query, with one value per
    selected column and one probability per class; the numeric columns are
    among the required ones. *)
Record responsive : Prop := {
  numeric_in_schema : incl (numeric_columns A) (feature_columns A);
  scaler_answers :
    forall selected, exists scaled,
      robust_scaler A selected = inr scaled /\
      List.length scaled = List.length selected;
  classifier_answers :
    forall model_predict_proba user_df,
      predict_proba A = Some model_predict_proba ->
      exists probas,
        model_predict_proba user_df = inr probas /\
        List.length probas = List.length (classes_ A)
}.

(** No source column of the profile holds a string. *)
Definition roundable (user_df : row F) (fields : list (string * string * nat))
  : Prop :=
  forall col key n s,
    In (col, key, n) fields -> get_col col user_df <> Some (CStr s).

(** The result [predict] assembles from the scaled frame and the two
    rankings. *)
Definition assemble (user_df : row F) (grouped : list (GroupPrediction F))
  (suggestions : list (BreedSuggestion F)) : PredictResult F :=
  {| predictions := suggestions;
     similar_breeds := suggestions;
     user_profile := _calculate_user_profile user_df;
     predictions_grouped := grouped |}.

End Vocabulary.

(** The example request with a size that is not in the vocabulary. *)
Definition request_with_unknown_size : row Qc :=
  set_col "Size" (CStr "Enormous") Sample.example_input.

(** A frame in which the family score is a number and the size score is a
    string. *)
Definition frame_with_string_size_score : row Qc :=
  [("Family_Compatibility_Score", CFloat (dec 19 1));
   ("Size_Score", CStr "large")].

(** The scenario row of the specification once its four categorical values
    have been replaced by their codes. *)
Definition scenario_encoded {F} `{Arith F}
  (size children shedding health : nat) : row F :=
  [("Size", CInt (Z.of_nat size));
   ("Exercise Requirements (hrs/day)", CFloat (dec 20 1));
   ("Good with Children", CInt (Z.of_nat children));
   ("Intelligence Rating (1-10)", CInt 7);
   ("Training Difficulty (1-10)", CInt 3);
   ("Shedding Level", CInt (Z.of_nat shedding));
   ("Health Issues Risk", CInt (Z.of_nat health));
   ("Friendly Rating (1-10)", CInt 8)].

(** The scenario row as requested. *)
Definition scenario_input {F} `{Arith F} : row F :=
  [("Size", CStr "Medium");
   ("Exercise Requirements (hrs/day)", CFloat (dec 20 1));
   ("Good with Children", CStr "Yes");
   ("Intelligence Rating (1-10)", CInt 7);
   ("Training Difficulty (1-10)", CInt 3);
   ("Shedding Level", CStr "Moderate");
   ("Health Issues Risk", CStr "Low");
   ("Friendly Rating (1-10)", CInt 8)].

(** The five derived columns, in the order they are appended. *)
Definition derived_values {F} (user_df : row F) : list (option (cell F)) :=
  map (fun c => get_col c user_df)
      ["Family_Compatibility_Score"; "Maintenance_Score"; "Energy_Score";
       "Intelligence_Training_Ratio"; "Size_Score"].

(** ** Order of the rankings, in exact arithmetic *)

(** Position [i] comes before position [j] in the ascending argsort: the
    smaller value first and, among equal values, the smaller position first. *)
Definition ascends (values : list Qc) (i j : nat) : Prop :=
  (value_at values i < value_at values j)%Qc \/
  (value_at values i = value_at values j /\ (i < j)%nat).

(** The grouped prediction made from a rank and a class position. *)
Definition group_entry_of (A : Artifacts Qc) (probas : list Qc)
  (ranked : nat * nat) (p : GroupPrediction Qc) : Prop :=
  g_rank p = fst ranked /\
  nth_error (classes_ A) (snd ranked) = Some (g_group p) /\
  g_score p = py_round (value_at probas (snd ranked)) 4.

(** What the similarity index returns is well formed: as many distances and
    positions as asked, distances ascending and not negative. *)
Definition sound_index (A : Artifacts Qc) : Prop :=
  forall user_df n distances indices,
    kneighbors A user_df n = inr (distances, indices) ->
    List.length distances = n /\ List.length indices = n /\
    StronglySorted Qcle distances /\ Forall (Qcle 0) distances.

(** The index answers every query for 1 to [len(X_enhanced)] neighbours with
    positions of catalog rows, the label arrays have one entry per row, and
    there are no more breed names than rows. *)
Record aligned_catalog (A : Artifacts Qc) : Prop := {
  index_answers :
    forall user_df n, (1 <= n <= X_enhanced_len A)%nat ->
      exists distances indices,
        kneighbors A user_df n = inr (distances, indices) /\
        Forall (fun i => (i < X_enhanced_len A)%nat) indices;
  labels_aligned :
    List.length (match breed_labels A with
                 | [] => y_processed A
                 | labels => labels
                 end) = X_enhanced_len A;
  groups_aligned :
    group_labels A = [] \/ List.length (group_labels A) = X_enhanced_len A;
  catalog_size : (List.length (breed_names A) <= X_enhanced_len A)%nat
}.

(** The suggestion made from the neighbour at position [fst item] of the
    index's answer, given the distances of the answer: its similarity is the
    raw similarity of its distance divided by the largest raw similarity of
    the answer when that is greater than zero, and zero otherwise, rounded to
    3 decimals. *)
Definition suggestion_of {F} `{Arith F} `{Rounding F} (A : Artifacts F)
  (distances : list F) (item : nat * (F * nat)) (s : BreedSuggestion F)
  : Prop :=
  rank s = (fst item + 1)%nat /\
  breed_name_at A (snd (snd item)) = inr (breed s) /\
  group_label_at A (snd (snd item)) = inr (group s) /\
  similarity s =
    py_round (normalised (max_similarity distances) (fst (snd item))) 3.

(** [m] is the largest raw similarity of the distances. *)
Definition largest_raw_similarity (distances : list Qc) (m : Qc) : Prop :=
  In m (map raw_similarity distances) /\
  Forall (fun d => (raw_similarity d <= m)%Qc) distances.

Section ScenarioVocabulary.
Context {F : Type}.
Variable A : Artifacts F.

(** The classes of the four encoders hold the scenario's values at the given
    codes. *)
Definition scenario_codes (size children shedding health : nat) : Prop :=
  (exists classes,
      Dict.get String.eqb "Size" (label_encoders A) = Some classes /\
      PyStr.index_of "Medium" classes = Some size) /\
  (exists classes,
      Dict.get String.eqb "Good with Children" (label_encoders A) =
        Some classes /\
      PyStr.index_of "Yes" classes = Some children) /\
  (exists classes,
      Dict.get String.eqb "Shedding Level" (label_encoders A) = Some classes /\
      PyStr.index_of "Moderate" classes = Some shedding) /\
  (exists classes,
      Dict.get String.eqb "Health Issues Risk" (label_encoders A) =
        Some classes /\
      PyStr.index_of "Low" classes = Some health).

End ScenarioVocabulary.

(** ** Vocabulary of the further properties *)

(** A cell that the arithmetic of a series accepts: anything but a string. *)
Definition is_number {F} (v : cell F) : bool :=
  match v with
  | CStr _ => false
  | _ => true
  end.

(** The request columns the derived features are computed from. *)
Definition derived_sources : list string :=
  ["Good with Children"; "Friendly Rating (1-10)"; "Training Difficulty (1-10)";
   "Shedding Level"; "Exercise Requirements (hrs/day)"; "Health Issues Risk";
   "Intelligence Rating (1-10)"; "Size"].

(** The example request with a life span that is not a number. *)
Definition request_with_spelled_life_span : row Qc :=
  set_col "Life Span" (CStr "twelve") Sample.example_input.

(** The same request with, in an earlier numeric column, an integer too large
    for a float. *)
Definition request_with_huge_rating : row Qc :=
  set_col "Intelligence Rating (1-10)" (CInt (10 ^ 400))
          request_with_spelled_life_span.

(** A stage of [_create_derived_features] leaves the frame as it is or
    assigns one of the derived columns. *)
Definition assigns_derived {F} (step : row F -> option (row F)) : Prop :=
  forall df df',
    step df = Some df' ->
    df' = df \/ exists c v, In c derived_cols /\ df' = set_col c v df.

(** The example request with the friendliness rating sent as text. *)
Definition request_with_quoted_rating : row Qc :=
  set_col "Friendly Rating (1-10)" (CStr "8") Sample.example_input.

(** Artifacts with another classifier, or another similarity index. *)
Definition with_classifier {F} (A : Artifacts F)
  (model_predict_proba : option (row F -> pyexn F + list F)) : Artifacts F :=
  {| feature_columns := feature_columns A;
     categorical_columns := categorical_columns A;
     numeric_columns := numeric_columns A;
     breed_names := breed_names A;
     group_labels := group_labels A;
     breed_labels := breed_labels A;
     label_encoders := label_encoders A;
     robust_scaler := robust_scaler A;
     predict_proba := model_predict_proba;
     classes_ := classes_ A;
     kneighbors := kneighbors A;
     X_enhanced_len := X_enhanced_len A;
     y_processed := y_processed A |}.

Definition with_index {F} (A : Artifacts F)
  (index : row F -> nat -> pyexn F + (list F * list nat)) : Artifacts F :=
  {| feature_columns := feature_columns A;
     categorical_columns := categorical_columns A;
     numeric_columns := numeric_columns A;
     breed_names := breed_names A;
     group_labels := group_labels A;
     breed_labels := breed_labels A;
     label_encoders := label_encoders A;
     robust_scaler := robust_scaler A;
     predict_proba := predict_proba A;
     classes_ := classes_ A;
     kneighbors := index;
     X_enhanced_len := X_enhanced_len A;
     y_processed := y_processed A |}.

(** The illustrative artifacts with a classifier that raises. *)
Definition artifacts_with_failing_classifier : Artifacts Qc :=
  with_classifier Sample.artifacts
    (Some (fun _ => inl (ArtifactError "X has 16 features, but expected 17"))).

(** The illustrative artifacts, in binary64, with an index whose distances
    are all infinite (ascending, and not negative). *)
Definition artifacts_with_infinite_distances : Artifacts float :=
  with_index Sample.artifacts
    (fun _ n => inr (firstn n [infinity; infinity; infinity; infinity],
                     firstn n [1; 2; 0; 3]%nat)).

(** The illustrative artifacts with an index fitted on more rows than the
    catalog has: its second neighbour is row 7. *)
Definition artifacts_with_stale_index : Artifacts Qc :=
  with_index Sample.artifacts
    (fun _ n => inr (firstn n [dec 5 1; of_Z 1; of_Z 3; of_Z 4],
                     firstn n [1; 7; 0; 3]%nat)).

(** ** The caches and the other routes of [app.py] *)

(** [get_predictor]: the module-level [predictor] is [None] until a
    construction succeeds.  [construct] is the outcome [DogMatchPredictor()]
    would have at this call (it reads the pickles of the [models] directory
    and raises [FileNotFoundError] or [Exception]); a failure is raised again
    and leaves the cache empty.  The result is paired with the cache after
    the call. *)
Definition get_predictor {F} (predictor : option (Artifacts F))
  (construct : pyexn F + Artifacts F)
  : (pyexn F + Artifacts F) * option (Artifacts F) :=
  match predictor with
  | Some loaded => (inr loaded, predictor)
  | None =>
      match construct with
      | inr loaded => (inr loaded, Some loaded)
      | inl e => (inl e, None)
      end
  end.

(** Successive calls of [get_predictor], each with the outcome the
    constructor would have at that moment. *)
Fixpoint get_predictor_calls {F} (predictor : option (Artifacts F))
  (constructs : list (pyexn F + Artifacts F))
  : list (pyexn F + Artifacts F) * option (Artifacts F) :=
  match constructs with
  | [] => ([], predictor)
  | construct :: rest =>
      let (result, cache) := get_predictor predictor construct in
      let (results, final) := get_predictor_calls cache rest in
      (result :: results, final)
  end.

(** The body of the answer of [/api/health]. *)
Inductive health (F : Type) : Type :=
| Healthy
| Unhealthy (error : pyexn F).
Arguments Healthy {F}.
Arguments Unhealthy {F} error.

(** [health_check]: the status code and the body. *)
Definition health_check {F} (predictor : option (Artifacts F))
  (construct : pyexn F + Artifacts F)
  : (nat * health F) * option (Artifacts F) :=
  match get_predictor predictor construct with
  | (inr _, cache) => ((200%nat, Healthy), cache)
  | (inl e, cache) => ((500%nat, Unhealthy e), cache)
  end.

(** The whole of [recommend_breeds], from the request to the response: the
    body is checked first, then the predictor is fetched, and the rest is
    the handler above.  An exception of the constructor is no [ValueError],
    so it is answered with status 500. *)
Definition recommend_endpoint {F} `{Arith F} `{Rounding F} `{PyBuiltins}
  (predictor : option (Artifacts F)) (construct : pyexn F + Artifacts F)
  (json : request_json F) (top_k_param : option string)
  : (response F * list event) * option (Artifacts F) :=
  match json with
  | JsonOther false | JsonDict [] =>
      ((Error 400 JsonBodyRequired, []), predictor)
  | JsonOther true => ((Error 400 ExpectedJsonObject, []), predictor)
  | JsonDict _ =>
      match get_predictor predictor construct with
      | (inl e, cache) => ((Error 500 (InternalError e), []), cache)
      | (inr loaded, cache) =>
          (recommend_breeds loaded json top_k_param, cache)
      end
  end.

(** [recommend_breeds] from the request, whose first step evaluates
    [request.json]: [body] is the outcome of that, a JSON value, or the
    exception Flask raises on a body it cannot read as JSON ([BadRequest] or
    [UnsupportedMediaType], neither a [ValueError]). *)
Definition recommend_route {F} `{Arith F} `{Rounding F} `{PyBuiltins}
  (predictor : option (Artifacts F)) (construct : pyexn F + Artifacts F)
  (body : pyexn F + request_json F) (top_k_param : option string)
  : (response F * list event) * option (Artifacts F) :=
  match body with
  | inl e => ((Error 500 (InternalError e), []), predictor)
  | inr json => recommend_endpoint predictor construct json top_k_param
  end.

(** *** [load_breed_metadata] and [/api/breeds] *)

Module Metadata.

(** One entry of the list [load_breed_metadata] builds.  A field copied with
    [row.get] holds the cell of the CSV row, or [None] when the file has no
    such column. *)
Record record (F : Type) : Type := {
  name : option (cell F);
  size : option (cell F);
  breed_group : option (cell F);
  shedding : option (cell F);
  exercise_needs : option (cell F);
  good_with_children : option bool;
  intelligence : option (cell F);
  training_difficulty : option (cell F);
  health_risk : option (cell F);
  friendliness : option (cell F);
  life_expectancy : option (cell F);
  average_weight : option (cell F);
  description : option (cell F);
  temperament : list string;
  care : list string;
  history : option (cell F);
  images : list string
}.

Definition image_map : list (string * string) :=
  [("Beagle", "/dog_breeds_img/beagle.jpg");
   ("Border Collie", "/dog_breeds_img/border collie.jpg");
   ("Bull Terrier", "/dog_breeds_img/bull terrier.jpg");
   ("Chihuahua", "/dog_breeds_img/chihuahua.jpg");
   ("Chow Chow", "/dog_breeds_img/chow chow.jpg");
   ("Cocker Spaniel", "/dog_breeds_img/cocker spaniel.jpg");
   ("Golden Retriever", "/dog_breeds_img/golden.jpg");
   ("Siberian Husky", "/dog_breeds_img/husky.jpg");
   ("Labrador Retriever", "/dog_breeds_img/labrador.jpg");
   ("Lhasa Apso", "/dog_breeds_img/lhasa apso.jpeg");
   ("Maltese", "/dog_breeds_img/maltese.jpg");
   ("German Shepherd", "/dog_breeds_img/german Shepherd.jpg");
   ("Miniature Pinscher", "/dog_breeds_img/pinscher.jpg");
   ("Poodle (Standard)", "/dog_breeds_img/poodle.jpg");
   ("Pug", "/dog_breeds_img/pug.jpg");
   ("Rottweiler", "/dog_breeds_img/rotweiller.jpg");
   ("Samoyed", "/dog_breeds_img/samoyed.jpg");
   ("Saint Bernard", "/dog_breeds_img/saint bernard.jpg");
   ("Standard Schnauzer", "/dog_breeds_img/schnauzer.jpg");
   ("Shih Tzu", "/dog_breeds_img/shih tzu.jpeg");
   ("Dachshund", "/dog_breeds_img/dachshund.jpg");
   ("West Highland White Terrier",
    "/dog_breeds_img/west highland white terrier.jpg");
   ("Yorkshire Terrier", "/dog_breeds_img/yorkshire.jpg");
   ("English Bulldog", "/dog_breeds_img/english bulldog.jpg");
   ("French Bulldog", "/dog_breeds_img/french bulldog.jpg")].

(** [str(value).lower()] compared with ["yes"] and ["no"]: the text of a
    number, of NaN or of [None] is neither. *)
Definition good_children_val {F} (value : option (cell F)) : option bool :=
  match value with
  | Some (CStr s) =>
      let good_children_raw := PyStr.lower s in
      if String.eqb good_children_raw "yes" then Some true
      else if String.eqb good_children_raw "no" then Some false
      else None
  | _ => None
  end.

(** [[image_map[name]] if name in image_map else []] *)
Definition images_of {F} (breed_name : option (cell F)) : list string :=
  match breed_name with
  | Some (CStr s) =>
      match Dict.get String.eqb s image_map with
      | Some path => [path]
      | None => []
      end
  | _ => []
  end.

Definition of_row {F} (csv_row : row F) : record F :=
  {| name := get_col "Name" csv_row;
     size := get_col "Size" csv_row;
     breed_group := get_col "Type" csv_row;
     shedding := get_col "Shedding Level" csv_row;
     exercise_needs := get_col "Exercise Requirements (hrs/day)" csv_row;
     good_with_children :=
       good_children_val (get_col "Good with Children" csv_row);
     intelligence := get_col "Intelligence Rating (1-10)" csv_row;
     training_difficulty := get_col "Training Difficulty (1-10)" csv_row;
     health_risk := get_col "Health Issues Risk" csv_row;
     friendliness := get_col "Friendly Rating (1-10)" csv_row;
     life_expectancy := get_col "Life Span" csv_row;
     average_weight := get_col "Average Weight (kg)" csv_row;
     description := get_col "Unique Feature" csv_row;
     temperament := [];
     care := [];
     history := get_col "Origin" csv_row;
     images := images_of (get_col "Name" csv_row) |}.

End Metadata.

(** [load_breed_metadata]: [read_csv] is the outcome [pd.read_csv] would have
    at this call, as the list of the rows of the file.  The result is paired
    with the cache after the call; a failure is cached as the empty list. *)
Definition load_breed_metadata {F}
  (breed_metadata_cache : option (list (Metadata.record F)))
  (read_csv : pyexn F + list (row F))
  : list (Metadata.record F) * option (list (Metadata.record F)) :=
  match breed_metadata_cache with
  | Some cached => (cached, breed_metadata_cache)
  | None =>
      match read_csv with
      | inr rows =>
          let records := map Metadata.of_row rows in
          (records, Some records)
      | inl _ => ([], Some [])
      end
  end.

(** The body of the answer of [/api/breeds]; the status is always 200, since
    [load_breed_metadata] raises nothing. *)
Record breeds_listing (F : Type) : Type := {
  breeds : list (Metadata.record F);
  total_breeds : nat
}.

Definition get_breeds {F}
  (breed_metadata_cache : option (list (Metadata.record F)))
  (read_csv : pyexn F + list (row F))
  : breeds_listing F * option (list (Metadata.record F)) :=
  let (metadata, cache) := load_breed_metadata breed_metadata_cache read_csv in
  ({| breeds := metadata; total_breeds := List.length metadata |}, cache).

(** Successive requests to [/api/breeds], each with the outcome reading the
    file would have at that moment. *)
Fixpoint get_breeds_calls {F}
  (breed_metadata_cache : option (list (Metadata.record F)))
  (reads : list (pyexn F + list (row F))) : list (breeds_listing F) :=
  match reads with
  | [] => []
  | read_csv :: rest =>
      let (listing, cache) := get_breeds breed_metadata_cache read_csv in
      listing :: get_breeds_calls cache rest
  end.

(** ** [_generate_predictions]

    The breed-level ranking that [predict] no longer calls.  [top_k] is not
    negative; [has_classes] is [hasattr(self.model, "classes_")]. *)

Record BreedPrediction (F : Type) : Type := {
  p_breed : string;
  p_score : F;
  p_rank : nat
}.

(** [str(breed_name_raw).strip()], when it is not empty. *)
Definition clean_name (breed_name_raw : string) : option string :=
  match PyStr.strip breed_name_raw with
  | EmptyString => None
  | breed_name => Some breed_name
  end.

Section GeneratePredictions.
Context {F : Type} {AF : Arith F} {RF : Rounding F}.
Variable A : Artifacts F.

(** The loop over the classes of highest probability. *)
Fixpoint proba_entries (has_classes : bool) (probas : list F)
  (ranked : list (nat * nat)) : pyexn F + list (BreedPrediction F) :=
  match ranked with
  | [] => inr []
  | (rank, idx) :: rest =>
      match nth_error (if has_classes then classes_ A else breed_names A)
                      idx with
      | None => inl IndexError
      | Some breed_name_raw =>
          match clean_name breed_name_raw with
          | None => proba_entries has_classes probas rest
          | Some breed_name =>
              let score := value_at probas idx in
              (preds <- proba_entries has_classes probas rest ;;
               inr ({| p_breed := breed_name;
                       p_score := py_round score 4;
                       p_rank := rank |} :: preds))%exn
          end
      end
  end.

(** The loop of the fallback over the neighbours, which stops at the first
    rank above [top_k]. *)
Fixpoint neighbour_entries (top_k : nat) (max_sim : F)
  (items : list (nat * (F * nat))) : pyexn F + list (BreedPrediction F) :=
  match items with
  | [] => inr []
  | (rank, (dist, idx)) :: rest =>
      if (top_k <? rank)%nat then inr []
      else
        match nth_error (y_processed A) idx with
        | None => inl IndexError
        | Some breed_name_raw =>
            match clean_name breed_name_raw with
            | None => neighbour_entries top_k max_sim rest
            | Some breed_name =>
                (preds <- neighbour_entries top_k max_sim rest ;;
                 inr ({| p_breed := breed_name;
                         p_score := py_round (normalised max_sim dist) 4;
                         p_rank := rank |} :: preds))%exn
            end
        end
  end.

Definition _generate_predictions (has_classes : bool) (user_df : row F)
  (top_k : nat) : M F (list (BreedPrediction F)) :=
  match predict_proba A with
  | Some model_predict_proba =>
      (probas <- call PredictProba (model_predict_proba user_df) ;;
       let top_indices := firstn top_k (rev (argsort probas)) in
       lift (proba_entries has_classes probas (enumerate 1 top_indices)))%py
  | None =>
      let neighbor_count := Nat.min top_k (X_enhanced_len A) in
      ('(distances, indices) <-
          call (Kneighbors neighbor_count)
               (kneighbors A user_df neighbor_count) ;;
       let max_sim := max_similarity distances in
       lift (neighbour_entries top_k max_sim
               (enumerate 1 (combine distances indices))))%py
  end.

End GeneratePredictions.

(** The breed-level prediction made from a grouped one, unless its label is
    blank. *)
Definition named_prediction {F} (p : GroupPrediction F)
  : list (BreedPrediction F) :=
  match clean_name (g_group p) with
  | Some breed_name => [{| p_breed := breed_name;
                           p_score := g_score p;
                           p_rank := g_rank p |}]
  | None => []
  end.

(** The illustrative artifacts with a blank class between two named ones. *)
Definition artifacts_with_blank_class : Artifacts Qc :=
  {| feature_columns := Sample.features;
     categorical_columns := Sample.categorical;
     numeric_columns := Sample.numeric;
     breed_names := Sample.catalog;
     group_labels := Sample.catalog_groups;
     breed_labels := Sample.catalog;
     label_encoders := Sample.encoders;
     robust_scaler := Sample.scaler;
     predict_proba := Some (fun _ => inr [dec 2 1; dec 5 1; dec 3 1]);
     classes_ := [" Companion"; "Herding "; "   "];
     kneighbors := Sample.index;
     X_enhanced_len := 4;
     y_processed := Sample.catalog |}.

(** Two frames hold the same value in every column other than [k]. *)
Definition agree_except {F} (k : string) (df df' : row F) : Prop :=
  forall c, c <> k -> get_col c df = get_col c df'.

(** Two outcomes are the same up to column [k] of the frame they return. *)
Definition same_outcome_except {F} (k : string) (m m' : M F (row F)) : Prop :=
  snd m = snd m' /\
  match fst m, fst m' with
  | inr df, inr df' => agree_except k df df'
  | inl e, inl e' => e = e'
  | _, _ => False
  end.

(** A stage gives the same frame up to column [k], or raises in both. *)
Definition same_stage_except {F} (k : string) (r r' : option (row F)) : Prop :=
  match r, r' with
  | Some df, Some df' => agree_except k df df'
  | None, None => True
  | _, _ => False
  end.

(** * Properties *)

Unset Implicit Arguments.

(** ** The embedding on small inputs *)

Example strip_lower_class : PyStr.lower (PyStr.strip "  With Training ") = "with training".
Proof. reflexivity. Qed.

Example index_of_class :
  PyStr.index_of "Medium" ["Giant"; "Large"; "Medium"; "Small"] = Some 2%nat.
Proof. reflexivity. Qed.

(** A decimal literal is the float Python reads. *)
Example literal_binary64 :
  (dec 4 1 : float) = 0.4%float /\ (dec 1 1 : float) = 0.1%float /\
  (dec 15 1 : float) = 1.5%float.
Proof. repeat split; reflexivity. Qed.

Example to_int_binary64 :
  F64.to_int 2%float = Some 2%Z /\ F64.to_int (-3)%float = Some (-3)%Z /\
  F64.to_int 0.5%float = None /\ F64.to_int 0%float = Some 0%Z.
Proof. repeat split; reflexivity. Qed.

(** Ties go to the even neighbour: [round(0.125, 2) = 0.12] and
    [round(0.375, 2) = 0.38]. *)
Example round_ties_to_even :
  Exact.round (Q2Qc (125 # 1000)) 2 = Q2Qc (12 # 100) /\
  Exact.round (Q2Qc (375 # 1000)) 2 = Q2Qc (38 # 100) /\
  Exact.round (Q2Qc (-(7 # 3))) 3 = Q2Qc (-(2333 # 1000)).
Proof. repeat split; apply Qc_is_canon; reflexivity. Qed.

(** In binary64 [round] rounds the exact value of the float:
    [round(2.675, 2) = 2.67], the float nearest 2.675 being below it, and
    [round(0.125, 2) = 0.12]; [numpy.round(2.675, 2) = 2.68], the rounding of
    [2.675 * 100 = 267.5]. *)
Example round_binary64 :
  py_round 0x1.5666666666666p+1%float 2 = 0x1.55c28f5c28f5cp+1%float /\
  py_round 0.125%float 2 = 0x1.eb851eb851eb8p-4%float /\
  py_round 0.375%float 3 = 0.375%float /\
  py_round 0%float 3 = 0%float /\
  np_round 0x1.5666666666666p+1%float 2 = 0x1.570a3d70a3d71p+1%float.
Proof. repeat split; vm_compute; reflexivity. Qed.

Example argsort_keeps_ties_in_position_order :
  argsort [Q2Qc (1 # 4); Q2Qc (1 # 2); Q2Qc (1 # 4); Q2Qc 0] =
  [3; 0; 2; 1]%nat.
Proof. reflexivity. Qed.

(** A derived step that raises leaves the columns assigned before it: with a
    string for the exercise hours the family score is computed, the
    maintenance score raises, and the remaining scores are never tried. *)
Example derived_features_stop_at_exception :
  columns
    (_create_derived_features (F := Qc) Sample.artifacts
       [("Size", CInt 2); ("Exercise Requirements (hrs/day)", CStr "2");
        ("Good with Children", CInt 2); ("Intelligence Rating (1-10)", CInt 7);
        ("Training Difficulty (1-10)", CInt 3); ("Shedding Level", CInt 2);
        ("Health Issues Risk", CInt 1); ("Friendly Rating (1-10)", CInt 8)]) =
  ["Size"; "Exercise Requirements (hrs/day)"; "Good with Children";
   "Intelligence Rating (1-10)"; "Training Difficulty (1-10)";
   "Shedding Level"; "Health Issues Risk"; "Friendly Rating (1-10)";
   "Family_Compatibility_Score"].
Proof. reflexivity. Qed.

(** ** Dictionaries *)

Section DictFacts.
Context {K V : Type} (eqb : K -> K -> bool).
Hypothesis eqb_spec : forall x y, reflect (x = y) (eqb x y).

Lemma dict_get_set_same (k : K) (v : V) d :
  Dict.get eqb k (Dict.set eqb k v d) = Some v.
Proof.
  induction d as [|[k' v'] d IH]; simpl.
  - destruct (eqb_spec k k); congruence.
  - destruct (eqb_spec k k') as [->|Hne]; simpl.
    + destruct (eqb_spec k' k'); congruence.
    + destruct (eqb_spec k k'); congruence.
Qed.

Lemma dict_get_set_other (k k' : K) (v : V) d :
  k' <> k -> Dict.get eqb k' (Dict.set eqb k v d) = Dict.get eqb k' d.
Proof.
  intros Hne. induction d as [|[k0 v0] d IH]; simpl.
  - destruct (eqb_spec k' k); congruence.
  - destruct (eqb_spec k k0) as [->|Hk]; simpl.
    + destruct (eqb_spec k' k0); congruence.
    + destruct (eqb_spec k' k0); congruence.
Qed.

Lemma dict_has_set (k k' : K) (v : V) d :
  Dict.has eqb k' (Dict.set eqb k v d) = eqb k' k || Dict.has eqb k' d.
Proof.
  unfold Dict.has. destruct (eqb_spec k' k) as [->|Hne].
  - now rewrite dict_get_set_same.
  - now rewrite dict_get_set_other.
Qed.

Lemma dict_has_true k (d : list (K * V)) :
  Dict.has eqb k d = true <-> exists v, Dict.get eqb k d = Some v.
Proof.
  unfold Dict.has. destruct (Dict.get eqb k d); split; eauto;
    try discriminate. intros [v Hv]. discriminate.
Qed.

Lemma dict_has_In k (d : list (K * V)) :
  Dict.has eqb k d = true <-> In k (map fst d).
Proof.
  unfold Dict.has. induction d as [|[k' v'] d IH]; simpl.
  - split; [discriminate | tauto].
  - destruct (eqb_spec k k') as [->|Hne].
    + split; auto.
    + rewrite IH. split; [auto | intros [H|H]; congruence].
Qed.

(** Overwriting an existing key keeps the key order. *)
Lemma dict_set_keys_present k (v : V) d :
  Dict.has eqb k d = true -> map fst (Dict.set eqb k v d) = map fst d.
Proof.
  unfold Dict.has. induction d as [|[k' v'] d IH]; simpl.
  - discriminate.
  - destruct (eqb_spec k k') as [->|Hne]; simpl; [reflexivity|].
    intros H. now rewrite IH.
Qed.

End DictFacts.

(** ** The outcome-and-calls monad *)

Section MonadFacts.
Context {F : Type}.

Lemma bind_inr_inv {X Y} (m : M F X) (f : X -> M F Y) y calls :
  bind m f = (inr y, calls) ->
  exists x c1 c2, m = (inr x, c1) /\ f x = (inr y, c2) /\ calls = c1 ++ c2.
Proof.
  unfold bind. destruct m as [[e|x] c1]; [discriminate|].
  destruct (f x) as [r c2] eqn:E. intros H. inversion H; subst.
  exists x, c1, c2. auto.
Qed.

Lemma bind_inl_left {X Y} (m : M F X) (f : X -> M F Y) e calls :
  m = (inl e, calls) -> bind m f = (inl e, calls).
Proof. intros ->. reflexivity. Qed.

Lemma bind_assoc {X Y Z} (m : M F X) (f : X -> M F Y) (g : Y -> M F Z) :
  bind (bind m f) g = bind m (fun x => bind (f x) g).
Proof.
  unfold bind. destruct m as [[e|x] c1]; [reflexivity|].
  destruct (f x) as [[e|y] c2]; [reflexivity|].
  destruct (g y) as [r c3]. now rewrite app_assoc.
Qed.

Lemma bind_lift_inr {X Y} (x : X) (f : X -> M F Y) :
  bind (lift (inr x)) f = f x.
Proof. unfold bind, lift. now destruct (f x). Qed.

End MonadFacts.

(** ** Validation and encoding *)

Section Validation.
Context {F : Type} {AF : Arith F} {RF : Rounding F} {Py : PyBuiltins}.
Variable A : Artifacts F.

Lemma has_col_set_col (c c' : string) (v : cell F) df :
  has_col c' (set_col c v df) = String.eqb c' c || has_col c' df.
Proof. apply dict_has_set, String.eqb_spec. Qed.

Lemma has_col_set_col_present (c c' : string) (v : cell F) df :
  has_col c df = true -> has_col c' (set_col c v df) = has_col c' df.
Proof.
  intros H. rewrite has_col_set_col.
  destruct (String.eqb_spec c' c) as [->|]; [now rewrite H | reflexivity].
Qed.

Lemma missing_features_spec user_input c :
  In c (missing_features A user_input) <->
  In c (feature_columns A) /\ has_col c user_input = false.
Proof.
  unfold missing_features. rewrite filter_In, nodup_In, negb_true_iff.
  reflexivity.
Qed.

Lemma validate_missing user_input :
  (exists c, In c (feature_columns A) /\ has_col c user_input = false) ->
  _validate_input A user_input =
  inl (MissingFeatures (missing_features A user_input)).
Proof.
  intros [c Hc]. apply missing_features_spec in Hc.
  unfold _validate_input.
  destruct (missing_features A user_input); [contradiction | reflexivity].
Qed.

Lemma predict_validation_failure user_input top_k e :
  _validate_input A user_input = inl e ->
  predict A user_input top_k = (inl (PredictionFailed e), []).
Proof.
  intros H. unfold predict, predict_body. now rewrite H.
Qed.

(** Encoding makes no call to the classifier or the similarity index and, once
    every categorical column has an encoder, stops at the first column whose
    value is outside its vocabulary. *)

Lemma encode_calls cols user_input df r calls :
  encode_categoricals A cols user_input df = (r, calls) ->
  existsb is_model_call calls = false.
Proof.
  revert df r calls. induction cols as [|col rest IH]; simpl; intros df r calls H.
  - inversion H. reflexivity.
  - destruct (has_col col df); [|eauto].
    destruct (get_col col user_input) as [v|]; [|inversion H; reflexivity].
    destruct (Dict.get String.eqb col (label_encoders A)) as [classes|];
      [|inversion H; reflexivity].
    destruct (encode_value classes v) as [i|]; [|inversion H; reflexivity].
    unfold bind, call in H.
    destruct (encode_categoricals A rest user_input
                (set_col col (CInt (Z.of_nat i)) df)) as [r' c'] eqn:E.
    inversion H; subst. simpl. eauto.
Qed.

Lemma encode_stops_at_invalid cols user_input df :
  (forall c, has_col c df = has_col c user_input) ->
  (forall c, In c cols ->
             Dict.has String.eqb c (label_encoders A) = true) ->
  (exists col, In col cols /\ outside_vocabulary A user_input col) ->
  exists col v allowed calls,
    encode_categoricals A cols user_input df =
      (inl (InvalidCategory col v allowed), calls) /\
    In col cols /\
    get_col col user_input = Some v /\
    Dict.get String.eqb col (label_encoders A) = Some allowed /\
    encode_value allowed v = None.
Proof.
  revert df. induction cols as [|col rest IH]; intros df Hkeys Henc Hbad.
  - destruct Hbad as (c & [] & _).
  - assert (Henc' : forall c, In c rest ->
              Dict.has String.eqb c (label_encoders A) = true)
      by (intros; apply Henc; now right).
    simpl. destruct (has_col col df) eqn:Hcol.
    + rewrite Hkeys in Hcol.
      apply (dict_has_true String.eqb) in Hcol as [v Hv].
      unfold get_col. rewrite Hv.
      destruct (proj1 (dict_has_true String.eqb _ _)
                  (Henc col (or_introl eq_refl))) as [classes Hcl].
      rewrite Hcl.
      destruct (encode_value classes v) as [i|] eqn:Hcode.
      * destruct (IH (set_col col (CInt (Z.of_nat i)) df))
          as (c & v' & allowed & calls & Hrun & Hin & Hrest); auto.
        { intros c. rewrite has_col_set_col_present; [apply Hkeys|].
          rewrite Hkeys. apply (dict_has_true String.eqb). eauto. }
        { destruct Hbad as (c & [<-|Hin] & Hout); [|eauto].
          destruct Hout as (v' & cl' & H1 & H2 & H3).
          unfold get_col in H1. congruence. }
        exists c, v', allowed, (EncoderTransform col :: calls).
        unfold bind, call. rewrite Hrun. simpl. auto.
      * exists col, v, classes, []. simpl. auto 10.
    + destruct (IH df) as (c & v' & allowed & calls & Hrun & Hin & Hrest);
        auto.
      { destruct Hbad as (c & [<-|Hin] & Hout); [|eauto].
        destruct Hout as (v' & cl' & H1 & _).
        rewrite Hkeys in Hcol. unfold has_col, Dict.has, get_col in *.
        rewrite H1 in Hcol. discriminate. }
      exists c, v', allowed, calls. auto.
Qed.

End Validation.

Section Rejections.
Context {F : Type} {AF : Arith F} {RF : Rounding F} {Py : PyBuiltins}.
Variable A : Artifacts F.

(** C6.  A request that lacks a required feature column makes [predict] fail
    with the missing-features error, which names exactly the required columns
    that are absent, and no artifact has been called by then. *)
Theorem predict_missing_feature (user_input : row F) (top_k : Z) :
  (exists c, In c (feature_columns A) /\ has_col c user_input = false) ->
  exists missing,
    predict A user_input top_k =
      (inl (PredictionFailed (MissingFeatures missing)), []) /\
    (forall c, In c missing <->
               In c (feature_columns A) /\ has_col c user_input = false).
Proof.
  intros H. exists (missing_features A user_input). split.
  - apply predict_validation_failure, validate_missing, H.
  - apply missing_features_spec.
Qed.

(** C5.  A request that passes validation and holds, in some categorical
    column, a value outside the vocabulary of that column makes [predict] fail
    with the invalid-category error of such a column, carrying the whole
    vocabulary of the column; neither the classifier nor the similarity index
    has been called by then. *)
Theorem predict_invalid_category (user_input : row F) (top_k : Z) :
  _validate_input A user_input = inr tt ->
  (forall c, In c (categorical_columns A) ->
             Dict.has String.eqb c (label_encoders A) = true) ->
  (exists col, In col (categorical_columns A) /\
               outside_vocabulary A user_input col) ->
  exists col v allowed calls,
    predict A user_input top_k =
      (inl (PredictionFailed (InvalidCategory col v allowed)), calls) /\
    In col (categorical_columns A) /\
    get_col col user_input = Some v /\
    Dict.get String.eqb col (label_encoders A) = Some allowed /\
    encode_value allowed v = None /\
    existsb is_model_call calls = false.
Proof.
  intros Hval Henc Hbad.
  destruct (encode_stops_at_invalid A (categorical_columns A) user_input
              user_input (fun c => eq_refl) Henc Hbad)
    as (col & v & allowed & calls & Hrun & Hin & Hv & Hcl & Hcode).
  exists col, v, allowed, calls.
  pose proof (encode_calls A _ _ _ _ _ Hrun) as Hcalls.
  unfold predict, predict_body. rewrite Hval, bind_lift_inr.
  rewrite (bind_inl_left _ _ _ _ Hrun). simpl. rewrite app_nil_r. auto 10.
Qed.

(** Whether or not the request passes validation, a value outside the
    vocabulary makes [predict] fail before the classifier or the similarity
    index is called: validation rejects the request first, or encoding does. *)
Lemma out_of_vocabulary_never_reaches_models (user_input : row F) (top_k : Z) :
  (forall c, In c (categorical_columns A) ->
             Dict.has String.eqb c (label_encoders A) = true) ->
  (exists col, In col (categorical_columns A) /\
               outside_vocabulary A user_input col) ->
  exists e calls,
    predict A user_input top_k = (inl (PredictionFailed e), calls) /\
    existsb is_model_call calls = false.
Proof.
  intros Henc Hbad.
  destruct (_validate_input A user_input) as [e|[]] eqn:Hval.
  - exists e, []. split; [|reflexivity].
    now apply predict_validation_failure.
  - destruct (encode_stops_at_invalid A (categorical_columns A) user_input
                user_input (fun c => eq_refl) Henc Hbad)
      as (col & v & allowed & calls & Hrun & _).
    exists (InvalidCategory col v allowed), calls. split.
    + unfold predict, predict_body. rewrite Hval, bind_lift_inr.
      rewrite (bind_inl_left _ _ _ _ Hrun). simpl. now rewrite app_nil_r.
    + apply (encode_calls A _ _ _ _ _ Hrun).
Qed.

End Rejections.

Lemma predict_missing_feature_witness :
  exists missing,
    predict (F := Qc) Sample.artifacts (tl Sample.example_input) 5 =
      (inl (PredictionFailed (MissingFeatures missing)), []) /\
    (forall c, In c missing <->
               In c Sample.features /\
               has_col (F := Qc) c (tl Sample.example_input) = false).
Proof.
  apply (predict_missing_feature Sample.artifacts (tl Sample.example_input) 5%Z).
  exists "Size". split; [simpl; auto | reflexivity].
Defined.

Lemma predict_invalid_category_witness :
  exists col v allowed calls,
    predict Sample.artifacts request_with_unknown_size 5 =
      (inl (PredictionFailed (InvalidCategory col v allowed)), calls) /\
    In col Sample.categorical /\
    get_col col request_with_unknown_size = Some v /\
    Dict.get String.eqb col Sample.encoders = Some allowed /\
    encode_value allowed v = None /\
    existsb is_model_call calls = false.
Proof.
  apply (predict_invalid_category Sample.artifacts request_with_unknown_size 5%Z).
  - reflexivity.
  - intros c Hc. simpl in Hc.
    repeat (destruct Hc as [<-|Hc]; [reflexivity|]). contradiction.
  - exists "Size". split; [simpl; auto|].
    exists (CStr "Enormous"),
      ["Giant"; "Large"; "Medium"; "Small"; "Small-Medium"; "Toy"].
    repeat split; reflexivity.
Defined.

(** ** The shape of a run of [predict] *)

Section Orchestration.
Context {F : Type} {AF : Arith F} {RF : Rounding F} {Py : PyBuiltins}.
Variable A : Artifacts F.

Lemma predict_body_prepare user_input top_k :
  predict_body A user_input top_k =
  bind (prepare A user_input) (fun user_df =>
    bind (_generate_group_predictions A user_df (clamp_k A top_k)) (fun grouped =>
      bind (_find_similar_breeds A user_df (clamp_k A top_k)) (fun suggestions =>
        ret (assemble user_df grouped suggestions)))).
Proof.
  unfold predict_body, prepare.
  destruct (_validate_input A user_input) as [e|[]]; [reflexivity|].
  rewrite !bind_lift_inr. now rewrite bind_assoc.
Qed.

Lemma predict_clamped user_input k1 k2 :
  clamp_k A k1 = clamp_k A k2 ->
  predict A user_input k1 = predict A user_input k2.
Proof.
  intros H. unfold predict. rewrite !predict_body_prepare. now rewrite H.
Qed.

Lemma catch_inr_inv {X} (m : M F X) h x calls :
  catch m h = (inr x, calls) ->
  (forall e, exists e' c, h e = (inl e', c)) ->
  m = (inr x, calls).
Proof.
  unfold catch. destruct m as [[e|x'] c]; [|auto].
  intros H Hh. destruct (Hh e) as (e' & c' & E). rewrite E in H. discriminate.
Qed.

Lemma predict_inr_iff user_input top_k r calls :
  predict A user_input top_k = (inr r, calls) <->
  exists user_df c0 grouped c1 suggestions c2,
    prepare A user_input = (inr user_df, c0) /\
    _generate_group_predictions A user_df (clamp_k A top_k) = (inr grouped, c1) /\
    _find_similar_breeds A user_df (clamp_k A top_k) = (inr suggestions, c2) /\
    r = assemble user_df grouped suggestions /\
    calls = c0 ++ c1 ++ c2.
Proof.
  unfold predict. rewrite predict_body_prepare. split.
  - intros H. apply catch_inr_inv in H;
      [|intros e; exists (PredictionFailed e), []; reflexivity].
    apply bind_inr_inv in H as (user_df & c0 & c0' & Hp & H & ->).
    apply bind_inr_inv in H as (grouped & c1 & c1' & Hg & H & ->).
    apply bind_inr_inv in H as (suggestions & c2 & c2' & Hs & H & ->).
    inversion H; subst. rewrite app_nil_r.
    exists user_df, c0, grouped, c1, suggestions, c2. auto 10.
  - intros (user_df & c0 & grouped & c1 & suggestions & c2
            & Hp & Hg & Hs & -> & ->).
    rewrite Hp. unfold bind at 1. rewrite Hg. unfold bind at 1. rewrite Hs.
    simpl. now rewrite app_nil_r.
Qed.

(** Calls made by each stage. *)

Lemma prepare_calls user_input r calls :
  prepare A user_input = (r, calls) -> existsb is_model_call calls = false.
Proof.
  unfold prepare. destruct (_validate_input A user_input) as [e|[]].
  - intros H. inversion H. reflexivity.
  - rewrite bind_lift_inr.
    destruct (encode_categoricals A (categorical_columns A) user_input
                user_input) as [[e|df] c] eqn:E;
      pose proof (encode_calls A _ _ _ _ _ E) as Hc.
    + intros H. inversion H; subst. exact Hc.
    + unfold bind, scale_numeric, lift, call.
      destruct (select_columns _ _) as [e|selected]; simpl.
      * intros H. inversion H; subst. now rewrite app_nil_r.
      * destruct (robust_scaler A selected) as [e|scaled]; simpl.
        -- intros H. inversion H; subst. rewrite existsb_app, Hc. reflexivity.
        -- destruct (_ =? _)%nat; simpl; intros H; inversion H; subst;
             rewrite existsb_app, Hc; reflexivity.
Qed.

Lemma group_predictions_calls user_df k r calls :
  _generate_group_predictions A user_df k = (r, calls) ->
  filter is_kneighbors calls = [].
Proof.
  unfold _generate_group_predictions.
  destruct (predict_proba A) as [f|].
  - unfold bind, call, lift. destruct (f user_df) as [e|probas].
    + intros H. inversion H. reflexivity.
    + intros H. inversion H. reflexivity.
  - intros H. inversion H. reflexivity.
Qed.

(** [_find_similar_breeds] always returns a list and queries the index once. *)
Lemma find_similar_breeds_total user_df k :
  exists suggestions,
    _find_similar_breeds A user_df k =
    (inr suggestions, [Kneighbors (Nat.min k (X_enhanced_len A))]).
Proof.
  unfold _find_similar_breeds, catch, bind, call, lift.
  destruct (kneighbors A user_df _) as [e|[distances indices]]; simpl.
  - eexists; reflexivity.
  - destruct (similar_entries A k _ _) as [e|l]; simpl; eexists; reflexivity.
Qed.

End Orchestration.

(** ** Lists *)

Lemma In_firstn {X} (n : nat) (l : list X) x : In x (firstn n l) -> In x l.
Proof.
  intros H. rewrite <- (firstn_skipn n l). apply in_or_app. now left.
Qed.

(** ** Frames: alignment and selection *)

Section Frames.
Context {F : Type}.

Lemma get_col_reindex (expected : list string) (user_df : row F) c :
  In c expected ->
  get_col c (reindex expected user_df) =
  Some (match get_col c user_df with Some v => v | None => CInt 0 end).
Proof.
  unfold get_col, reindex. induction expected as [|c' rest IH]; simpl.
  - contradiction.
  - destruct (String.eqb_spec c c') as [->|Hne]; [reflexivity|].
    intros [H|H]; [congruence | auto].
Qed.

Lemma columns_reindex (expected : list string) (user_df : row F) :
  columns (reindex expected user_df) = expected.
Proof.
  unfold columns, reindex. rewrite map_map. simpl. apply map_id.
Qed.

Lemma select_columns_ok (cols : list string) (user_df : row F) :
  (forall c, In c cols -> has_col c user_df = true) ->
  exists selected,
    select_columns cols user_df = inr selected /\
    List.length selected = List.length cols.
Proof.
  induction cols as [|c rest IH]; simpl; intros H.
  - exists []. auto.
  - destruct (proj1 (dict_has_true String.eqb c user_df) (H c (or_introl eq_refl)))
      as [v Hv].
    unfold get_col. rewrite Hv.
    destruct IH as (selected & -> & Hlen); [auto|].
    exists ((c, v) :: selected). simpl. auto.
Qed.

Lemma select_columns_inv (cols : list string) (user_df selected : row F) :
  select_columns cols user_df = inr selected ->
  List.length selected = List.length cols /\
  map fst selected = cols /\
  (forall c v, In (c, v) selected -> get_col c user_df = Some v).
Proof.
  revert selected. induction cols as [|c rest IH]; simpl; intros selected H.
  - inversion H. simpl. intuition.
  - destruct (get_col c user_df) as [v|] eqn:Hv; [|discriminate].
    destruct (select_columns rest user_df) as [e|sub]; [discriminate|].
    simpl in H. inversion H; subst. destruct (IH sub eq_refl) as (Hl & Hk & Hg).
    simpl. repeat split; [congruence | congruence |].
    intros c' v' [E|Hin]; [inversion E; subst; assumption | eauto].
Qed.

End Frames.

Section ExpectedColumns.
Context {F : Type}.
Variable A : Artifacts F.

Lemma expected_columns_extend (extra : list string) (start : list string) c :
  In c start ->
  In c (fold_left (fun expected col =>
                     if PyStr.mem col expected then expected
                     else expected ++ [col]) extra start).
Proof.
  revert start. induction extra as [|x extra IH]; simpl; intros start H; auto.
  apply IH. destruct (PyStr.mem x start); auto using in_or_app.
Qed.

Lemma feature_columns_expected c :
  In c (feature_columns A) -> In c (expected_columns A).
Proof. apply expected_columns_extend. Qed.

End ExpectedColumns.

(** ** [argsort] is a permutation of the positions *)

Section Argsort.
Context {F : Type} {AF : Arith F}.

Lemma insert_index_perm (values : list F) i sorted :
  Permutation (insert_index values i sorted) (i :: sorted).
Proof.
  induction sorted as [|j rest IH]; simpl; [reflexivity|].
  destruct (leb _ _); [|reflexivity].
  rewrite IH. apply perm_swap.
Qed.

Lemma fold_insert_perm (values : list F) (todo acc : list nat) :
  Permutation
    (fold_left (fun sorted i => insert_index values i sorted) todo acc)
    (todo ++ acc).
Proof.
  revert acc. induction todo as [|i todo IH]; simpl; intros acc; [reflexivity|].
  rewrite IH, insert_index_perm. symmetry. apply Permutation_middle.
Qed.

Lemma argsort_perm (values : list F) :
  Permutation (argsort values) (seq 0 (List.length values)).
Proof. unfold argsort. rewrite fold_insert_perm. now rewrite app_nil_r. Qed.

Lemma argsort_length (values : list F) :
  List.length (argsort values) = List.length values.
Proof.
  rewrite (Permutation_length (argsort_perm values)). apply length_seq.
Qed.

Lemma argsort_in_range (values : list F) i :
  In i (argsort values) -> (i < List.length values)%nat.
Proof.
  intros H. apply (Permutation_in _ (argsort_perm values)) in H.
  apply in_seq in H. lia.
Qed.

Lemma argsort_NoDup (values : list F) : NoDup (argsort values).
Proof.
  apply (Permutation_NoDup (Permutation_sym (argsort_perm values))).
  apply seq_NoDup.
Qed.

End Argsort.

(** ** A valid request is answered *)

Section Totality.
Context {F : Type} {AF : Arith F} {RF : Rounding F} {Py : PyBuiltins}.
Variable A : Artifacts F.

Lemma check_numeric_ok cols (user_input : row F) :
  (forall c v, In c cols -> get_col c user_input = Some v ->
               float_ok v = true) ->
  check_numeric cols user_input = inr tt.
Proof.
  induction cols as [|c rest IH]; simpl; intros H; [reflexivity|].
  destruct (get_col c user_input) as [v|] eqn:Hv.
  - rewrite (H c v); auto. apply IH. eauto.
  - apply IH. eauto.
Qed.

Lemma validate_ok user_input :
  valid_input A user_input -> _validate_input A user_input = inr tt.
Proof.
  intros [Hreq Hnum _]. unfold _validate_input.
  destruct (missing_features A user_input) as [|c l] eqn:E.
  - now apply check_numeric_ok.
  - assert (Hc : In c (missing_features A user_input))
      by (rewrite E; now left).
    apply missing_features_spec in Hc as [Hin Hno].
    rewrite (Hreq c Hin) in Hno. discriminate.
Qed.

Lemma encode_succeeds cols user_input df :
  (forall c, has_col c df = has_col c user_input) ->
  (forall c v, In c cols -> get_col c user_input = Some v ->
     exists classes,
       Dict.get String.eqb c (label_encoders A) = Some classes /\
       encode_value classes v <> None) ->
  exists df' calls,
    encode_categoricals A cols user_input df = (inr df', calls).
Proof.
  revert df. induction cols as [|col rest IH]; simpl; intros df Hkeys Hcat.
  - exists df, []. reflexivity.
  - destruct (has_col col df) eqn:Hcol.
    + rewrite Hkeys in Hcol.
      apply (dict_has_true String.eqb) in Hcol as [v Hv].
      unfold get_col at 1. rewrite Hv.
      destruct (Hcat col v (or_introl eq_refl) Hv) as (classes & -> & Hcode).
      destruct (encode_value classes v) as [i|]; [|congruence].
      destruct (IH (set_col col (CInt (Z.of_nat i)) df))
        as (df' & calls & Hrun); auto.
      { intros c. rewrite has_col_set_col_present; [apply Hkeys|].
        rewrite Hkeys. apply (dict_has_true String.eqb). eauto. }
      exists df', (EncoderTransform col :: calls).
      unfold bind, call. now rewrite Hrun.
    + apply IH; auto.
Qed.

Lemma prepare_succeeds user_input :
  valid_input A user_input -> responsive A ->
  exists user_df calls, prepare A user_input = (inr user_df, calls).
Proof.
  intros Hvalid [Hnum Hscaler _]. unfold prepare.
  rewrite (validate_ok _ Hvalid), bind_lift_inr.
  destruct (encode_succeeds (categorical_columns A) user_input user_input
              (fun c => eq_refl) (categories_known Hvalid))
    as (df & c0 & ->).
  unfold bind at 1. unfold scale_numeric, lift, call.
  set (aligned := reindex (expected_columns A) (_create_derived_features A df)).
  destruct (select_columns_ok (numeric_columns A) aligned)
    as (selected & -> & Hlen).
  { intros c Hc. apply (dict_has_In String.eqb String.eqb_spec).
    change (In c (columns aligned)). unfold aligned.
    rewrite columns_reindex. apply feature_columns_expected. now apply Hnum. }
  destruct (Hscaler selected) as (scaled & Hs & Hlen').
  unfold bind. rewrite Hs, Hlen', Hlen, Nat.eqb_refl. simpl. eauto.
Qed.

Lemma group_entries_ok probas ranked :
  (forall rank idx, In (rank, idx) ranked ->
                    (idx < List.length (classes_ A))%nat) ->
  exists preds, group_entries A probas ranked = inr preds.
Proof.
  induction ranked as [|[rank idx] rest IH]; simpl; intros H.
  - eexists; reflexivity.
  - destruct (nth_error (classes_ A) idx) as [g|] eqn:Hg.
    + destruct IH as [preds ->]; [eauto|]. simpl. eexists; reflexivity.
    + apply nth_error_None in Hg.
      specialize (H rank idx (or_introl eq_refl)). lia.
Qed.

Lemma enumerate_In {X} (l : list X) start i x :
  In (i, x) (enumerate start l) -> In x l.
Proof.
  revert start. induction l as [|y l IH]; simpl; intros start; [auto|].
  intros [E|H]; [inversion E; auto | eauto].
Qed.

Lemma group_predictions_succeed user_df k :
  responsive A ->
  exists grouped calls,
    _generate_group_predictions A user_df k = (inr grouped, calls).
Proof.
  intros [_ _ Hclf]. unfold _generate_group_predictions.
  destruct (predict_proba A) as [f|] eqn:Hf.
  - destruct (Hclf f user_df eq_refl) as (probas & Hp & Hlen).
    unfold bind, call, lift. rewrite Hp.
    destruct (group_entries_ok probas
                (enumerate 1 (firstn k (rev (argsort probas)))))
      as [preds ->].
    { intros rank idx H. apply enumerate_In, In_firstn in H.
      apply in_rev, argsort_in_range in H. lia. }
    simpl. eauto.
  - exists [], []. reflexivity.
Qed.

Lemma predict_succeeds user_input top_k :
  valid_input A user_input -> responsive A ->
  exists r calls, predict A user_input top_k = (inr r, calls).
Proof.
  intros Hvalid Hresp.
  destruct (prepare_succeeds _ Hvalid Hresp) as (user_df & c0 & Hp).
  destruct (group_predictions_succeed user_df (clamp_k A top_k) Hresp)
    as (grouped & c1 & Hg).
  destruct (find_similar_breeds_total A user_df (clamp_k A top_k))
    as (suggestions & Hs).
  eexists. eexists. apply predict_inr_iff.
  exists user_df, c0, grouped, c1, suggestions. eauto 10.
Qed.

End Totality.

(** ** The illustrative artifacts answer the example request *)

Section SampleFacts.
Context {F : Type} {AF : Arith F} {RF : Rounding F}.

Lemma sample_scale_cells_length (cells : row F) params :
  List.length (Sample.scale_cells cells params) = List.length cells.
Proof.
  revert params. induction cells as [|[c v] rest IH]; simpl; intros params.
  - reflexivity.
  - destruct (match params with p :: _ => p | [] => _ end). simpl.
    now rewrite IH.
Qed.

Lemma sample_responsive : responsive (F := F) Sample.artifacts.
Proof.
  constructor.
  - intros c Hc. simpl in *.
    repeat (destruct Hc as [<-|Hc]; [auto 15|]). contradiction.
  - intros selected. eexists. split; [reflexivity|].
    apply sample_scale_cells_length.
  - intros f user_df Hf. simpl in Hf. inversion Hf; subst.
    eexists. split; reflexivity.
Qed.

Lemma sample_valid_example :
  valid_input (F := F) Sample.artifacts Sample.example_input.
Proof.
  constructor.
  - intros c Hc. simpl in Hc.
    repeat (destruct Hc as [<-|Hc]; [reflexivity|]). contradiction.
  - intros c v Hc Hv. simpl in Hc.
    repeat (destruct Hc as [<-|Hc];
            [vm_compute in Hv; inversion Hv; reflexivity|]).
    contradiction.
  - intros c v Hc Hv. simpl in Hc.
    repeat (destruct Hc as [<-|Hc];
            [vm_compute in Hv; inversion Hv; subst;
             eexists; split; [reflexivity | discriminate]|]).
    contradiction.
Qed.

End SampleFacts.

(** ** The requested number of results *)

Section TopK.
Context {F : Type} {AF : Arith F} {RF : Rounding F} {Py : PyBuiltins}.
Variable A : Artifacts F.

Lemma clamp_k_nonpositive top_k : (top_k <= 0)%Z -> clamp_k A top_k = 1%nat.
Proof. unfold clamp_k. lia. Qed.

Lemma clamp_k_large top_k :
  (1 <= List.length (breed_names A))%nat ->
  (Z.of_nat (List.length (breed_names A)) <= top_k)%Z ->
  clamp_k A top_k = List.length (breed_names A).
Proof. unfold clamp_k. lia. Qed.

Lemma clamp_k_within top_k :
  (1 <= top_k <= Z.of_nat (List.length (breed_names A)))%Z ->
  clamp_k A top_k = Z.to_nat top_k.
Proof. unfold clamp_k. lia. Qed.

(** C4, as the code has it.  The handler of [/api/recommend] rejects a [top_k]
    that is zero or negative with status 400 before [predict] and before any
    artifact call; [predict] itself rejects no [top_k]: a value of zero or
    less is served as 1, and a value above the catalog size as the catalog
    size. *)
Theorem top_k_rejected_by_handler_clamped_by_predict :
  (forall json s top_k,
      int_parse s = Some top_k -> (top_k <= 0)%Z ->
      exists err, recommend_breeds A json (Some s) = (Error 400 err, [])) /\
  (forall user_input top_k,
      (top_k <= 0)%Z ->
      predict A user_input top_k = predict A user_input 1) /\
  (forall user_input top_k,
      (1 <= List.length (breed_names A))%nat ->
      (Z.of_nat (List.length (breed_names A)) <= top_k)%Z ->
      clamp_k A top_k = List.length (breed_names A) /\
      predict A user_input top_k =
      predict A user_input (Z.of_nat (List.length (breed_names A)))).
Proof.
  split; [|split].
  - intros json s top_k Hs Hk. unfold recommend_breeds, parse_top_k.
    rewrite Hs. apply Z.leb_le in Hk. rewrite Hk.
    destruct json as [[|cell d]|[|]]; eexists; reflexivity.
  - intros user_input top_k Hk. apply predict_clamped.
    rewrite clamp_k_nonpositive by assumption. unfold clamp_k. lia.
  - intros user_input top_k Hn Hk. split; [now apply clamp_k_large|].
    apply predict_clamped. rewrite !clamp_k_large; auto. lia.
Qed.

End TopK.

(** C4.  [predict] called with [top_k = 0] on the example request is not
    rejected: it returns one suggestion, after calling both models. *)
Lemma predict_serves_top_k_zero :
  exists r calls,
    predict (F := Qc) Sample.artifacts Sample.example_input 0 = (inr r, calls) /\
    List.length (predictions r) = 1%nat /\
    existsb is_model_call calls = true.
Proof.
  eexists. eexists. split; [vm_compute; reflexivity|].
  split; reflexivity.
Qed.

Lemma top_k_rejected_by_handler_clamped_by_predict_witness :
  (exists err,
      recommend_breeds (F := Qc) Sample.artifacts
        (JsonDict Sample.example_input) (Some "0") = (Error 400 err, [])) /\
  predict (F := Qc) Sample.artifacts Sample.example_input (-2) =
  predict Sample.artifacts Sample.example_input 1 /\
  predict (F := Qc) Sample.artifacts Sample.example_input 9 =
  predict Sample.artifacts Sample.example_input 4.
Proof.
  destruct (top_k_rejected_by_handler_clamped_by_predict
              (F := Qc) Sample.artifacts) as (Hreject & Hlow & Hhigh).
  split; [|split].
  - apply (Hreject (JsonDict Sample.example_input) "0" 0%Z);
      [reflexivity | lia].
  - apply (Hlow Sample.example_input (-2)%Z). lia.
  - apply (Hhigh Sample.example_input 9%Z); simpl; lia.
Defined.

(** ** Scaling *)

Section Scaling.
Context {F : Type}.
Variable A : Artifacts F.

Lemma get_col_assign_other cols (values : list F) (user_df : row F) c :
  ~ In c cols ->
  get_col c (assign_columns cols values user_df) = get_col c user_df.
Proof.
  revert values user_df.
  induction cols as [|c0 cols IH]; intros [|v values] df H; simpl; auto.
  rewrite IH by (intros Hin; apply H; now right).
  apply (dict_get_set_other String.eqb String.eqb_spec).
  intros ->. apply H. now left.
Qed.

Lemma columns_assign_columns cols (values : list F) (user_df : row F) :
  (forall c, In c cols -> has_col c user_df = true) ->
  columns (assign_columns cols values user_df) = columns user_df.
Proof.
  revert values user_df.
  induction cols as [|c0 cols IH]; intros [|v values] df H; simpl; auto.
  rewrite IH.
  - apply (dict_set_keys_present String.eqb String.eqb_spec).
    apply H. now left.
  - intros c Hc. rewrite has_col_set_col, (H c) by now right.
    apply orb_true_r.
Qed.

Lemma get_col_assign_nth cols (values : list F) (user_df : row F) i c :
  NoDup cols ->
  List.length values = List.length cols ->
  nth_error cols i = Some c ->
  get_col c (assign_columns cols values user_df) =
  option_map CFloat (nth_error values i).
Proof.
  revert values user_df i.
  induction cols as [|c0 cols IH]; intros [|v values] df i Hnd Hlen Hi;
    simpl in *; try discriminate.
  - destruct i; discriminate.
  - inversion Hnd as [|? ? Hnotin Hnd']; subst. destruct i as [|i]; simpl in *.
    + inversion Hi; subst.
      rewrite get_col_assign_other by assumption.
      apply (dict_get_set_same String.eqb String.eqb_spec).
    + apply IH; auto.
Qed.

(** C8.  When the aligned frame has the numeric columns and the scaler answers
    with one value per column, the scaling stage hands the scaler exactly the
    numeric columns, in schema order with the values they have, writes its
    answers back to those columns, and leaves every other column, and the
    column order, as they were. *)
Theorem scaling_changes_numeric_columns_only (user_df : row F) :
  (forall c, In c (numeric_columns A) -> has_col c user_df = true) ->
  (forall selected, exists scaled,
      robust_scaler A selected = inr scaled /\
      List.length scaled = List.length selected) ->
  exists user_df' selected scaled,
    scale_numeric A user_df = (inr user_df', [ScalerTransform]) /\
    map fst selected = numeric_columns A /\
    (forall c v, In (c, v) selected -> get_col c user_df = Some v) /\
    robust_scaler A selected = inr scaled /\
    columns user_df' = columns user_df /\
    (forall c, ~ In c (numeric_columns A) ->
               get_col c user_df' = get_col c user_df) /\
    (NoDup (numeric_columns A) ->
     forall i c, nth_error (numeric_columns A) i = Some c ->
                 get_col c user_df' = option_map CFloat (nth_error scaled i)).
Proof.
  intros Hcols Hscaler.
  destruct (select_columns_ok (numeric_columns A) user_df Hcols)
    as (selected & Hsel & Hlen).
  destruct (select_columns_inv _ _ _ Hsel) as (_ & Hkeys & Hvals).
  destruct (Hscaler selected) as (scaled & Hs & Hlen').
  exists (assign_columns (numeric_columns A) scaled user_df), selected, scaled.
  split.
  { unfold scale_numeric, lift, call. rewrite Hsel. unfold bind.
    rewrite Hs, Hlen', Hlen, Nat.eqb_refl. reflexivity. }
  repeat split; auto.
  - now apply columns_assign_columns.
  - intros c Hc. now apply get_col_assign_other.
  - intros Hnd i c Hi. apply get_col_assign_nth; auto. congruence.
Qed.

End Scaling.

Lemma scaling_changes_numeric_columns_only_witness :
  exists user_df' selected scaled,
    scale_numeric (F := Qc) Sample.artifacts Sample.example_input =
      (inr user_df', [ScalerTransform]) /\
    map fst selected = Sample.numeric /\
    (forall c v, In (c, v) selected ->
                 get_col c Sample.example_input = Some v) /\
    Sample.scaler selected = inr scaled /\
    columns user_df' = columns (F := Qc) Sample.example_input /\
    (forall c, ~ In c Sample.numeric ->
               get_col c user_df' = get_col c Sample.example_input) /\
    (NoDup Sample.numeric ->
     forall i c, nth_error Sample.numeric i = Some c ->
                 get_col c user_df' = option_map CFloat (nth_error scaled i)).
Proof.
  apply (scaling_changes_numeric_columns_only Sample.artifacts
           Sample.example_input).
  - intros c Hc. simpl in Hc.
    repeat (destruct Hc as [<-|Hc]; [reflexivity|]). contradiction.
  - apply (scaler_answers sample_responsive).
Defined.

(** ** The user profile *)

Section Profile.
Context {F : Type} {RF : Rounding F}.

Lemma round_cell_some (v : cell F) n :
  (forall s, v <> CStr s) -> exists r, round_cell v n = Some r.
Proof.
  destruct v; simpl; intros H; eauto. now destruct (H s).
Qed.

Lemma profile_field_get (user_df : row F) col key n profile :
  (forall s, get_col col user_df <> Some (CStr s)) ->
  exists profile',
    profile_field user_df col key n profile = Some profile' /\
    get_col key profile' =
      match get_col col user_df with
      | Some v => round_cell v n
      | None => get_col key profile
      end /\
    (forall key', key' <> key -> get_col key' profile' = get_col key' profile).
Proof.
  intros Hns. unfold profile_field, has_col, Dict.has.
  fold (get_col col user_df). destruct (get_col col user_df) as [v|] eqn:Hv.
  - destruct (round_cell_some v n) as [r Hr].
    { intros s ->. now apply (Hns s). }
    simpl. rewrite Hr. simpl. exists (set_col key r profile).
    repeat split.
    + apply (dict_get_set_same String.eqb String.eqb_spec).
    + intros key' Hne.
      now apply (dict_get_set_other String.eqb String.eqb_spec).
  - exists profile. auto.
Qed.

Lemma fill_profile_get (user_df : row F) fields profile :
  NoDup (map (fun f => snd (fst f)) fields) ->
  roundable user_df fields ->
  exists profile',
    fill_profile user_df fields profile = Some profile' /\
    (forall col key n, In (col, key, n) fields ->
       get_col key profile' =
         match get_col col user_df with
         | Some v => round_cell v n
         | None => get_col key profile
         end) /\
    (forall key, ~ In key (map (fun f => snd (fst f)) fields) ->
                 get_col key profile' = get_col key profile).
Proof.
  revert profile.
  induction fields as [|[[col key] n] rest IH]; simpl; intros profile Hnd Hr.
  - exists profile. repeat split; auto. intros ? ? ? [].
  - inversion Hnd as [|? ? Hnotin Hnd']; subst.
    destruct (profile_field_get user_df col key n profile)
      as (p1 & -> & Hkey & Hother).
    { intros s. apply (Hr col key n s). now left. }
    destruct (IH p1 Hnd') as (p2 & Hfill & Hin & Hout).
    { intros c k m s Hin. apply (Hr c k m s). now right. }
    simpl. exists p2. split; [exact Hfill|]. split.
    + intros c k m [E|Hin'].
      * inversion E; subst. rewrite (Hout k Hnotin). exact Hkey.
      * rewrite (Hin c k m Hin').
        destruct (get_col c user_df); [reflexivity|].
        apply Hother. intros ->. apply Hnotin.
        apply (in_map (fun f => snd (fst f)) _ _ Hin').
    + intros k Hk. rewrite Hout by (intros Hin'; apply Hk; now right).
      apply Hother. intros ->. apply Hk. now left.
Qed.

Lemma fill_profile_fails (user_df : row F) fields profile :
  (exists col key n s,
      In (col, key, n) fields /\ get_col col user_df = Some (CStr s)) ->
  fill_profile user_df fields profile = None.
Proof.
  revert profile.
  induction fields as [|[[col key] n] rest IH]; simpl; intros profile H.
  - destruct H as (? & ? & ? & ? & [] & _).
  - destruct (profile_field user_df col key n profile) as [p1|] eqn:E;
      [|reflexivity].
    simpl. apply IH.
    destruct H as (c & k & m & s & [Heq|Hin] & Hs); [|eauto 10].
    inversion Heq; subst. unfold profile_field, has_col, Dict.has in E.
    fold (get_col c user_df) in E. rewrite Hs in E. discriminate.
Qed.

(** C9, as the code has it.  Profile synthesis is a total function: it never
    raises.  When no source column holds a value that cannot be rounded, each
    of the five fields is present exactly when its source column exists, and
    holds the column's value rounded to its number of decimals (2, 2, 2, 1,
    1).  When the rounding of any one source column fails, the profile is
    empty: all fields are dropped, not only the failing one. *)
Theorem profile_fields_all_or_nothing (user_df : row F) :
  (roundable user_df profile_fields ->
   forall col key n, In (col, key, n) profile_fields ->
     has_col key (_calculate_user_profile user_df) = has_col col user_df /\
     get_col key (_calculate_user_profile user_df) =
     obind (get_col col user_df) (fun v => round_cell v n)) /\
  ((exists col key n s,
       In (col, key, n) profile_fields /\
       get_col col user_df = Some (CStr s)) ->
   _calculate_user_profile user_df = []).
Proof.
  unfold _calculate_user_profile. split.
  - intros Hr col key n Hin.
    destruct (fill_profile_get user_df profile_fields [])
      as (p & -> & Hget & _); auto.
    { simpl. repeat constructor; simpl; intuition discriminate. }
    unfold has_col, Dict.has. fold (get_col key p) (get_col col user_df).
    rewrite (Hget col key n Hin). unfold obind.
    destruct (get_col col user_df) as [v|] eqn:Hv; [|split; reflexivity].
    destruct (round_cell_some v n) as [r ->]; [|split; reflexivity].
    intros s ->. now apply (Hr col key n s Hin).
  - intros H. now rewrite fill_profile_fails.
Qed.

End Profile.

(** C9.  The family score exists and can be rounded, yet the profile has no
    [family_friendly] field, because rounding the size score failed. *)
Lemma profile_drops_computable_field :
  has_col "Family_Compatibility_Score" frame_with_string_size_score = true /\
  round_cell (CFloat (dec 19 1 : Qc)) 2 <> None /\
  has_col "family_friendly"
    (_calculate_user_profile frame_with_string_size_score) = false.
Proof. repeat split; vm_compute; congruence. Qed.

Lemma profile_fields_all_or_nothing_witness :
  get_col "family_friendly"
    (_calculate_user_profile
       [("Family_Compatibility_Score", CFloat (dec 1904 3 : Qc))]) =
  Some (CFloat (dec 190 2)) /\
  _calculate_user_profile frame_with_string_size_score = [].
Proof.
  split.
  - destruct (profile_fields_all_or_nothing
                [("Family_Compatibility_Score", CFloat (dec 1904 3 : Qc))])
      as [Hok _].
    assert (Hr : roundable
                   [("Family_Compatibility_Score", CFloat (dec 1904 3 : Qc))]
                   profile_fields).
    { intros col key n s Hin H. simpl in Hin.
      repeat (destruct Hin as [E|Hin]; [inversion E; subst; discriminate|]).
      contradiction. }
    rewrite (proj2 (Hok Hr "Family_Compatibility_Score" "family_friendly"
                      2%nat (or_introl eq_refl))).
    simpl. do 2 apply f_equal. apply Qc_is_canon. reflexivity.
  - destruct (profile_fields_all_or_nothing frame_with_string_size_score)
      as [_ Hfail].
    apply Hfail.
    exists "Size_Score", "size_preference", 1%nat, "large".
    split; [simpl; auto 10 | reflexivity].
Defined.

(** ** Derived features *)

Section EncodedWeights.
Context {F : Type} {AF : Arith F}.
Variable A : Artifacts F.

Lemma index_of_nth_error s (l : list string) i :
  PyStr.index_of s l = Some i -> nth_error l i = Some s.
Proof.
  revert i. induction l as [|x l IH]; simpl; intros i H; [discriminate|].
  destruct (String.eqb_spec s x) as [->|Hne].
  - inversion H. reflexivity.
  - destruct (PyStr.index_of s l) as [j|]; [|discriminate].
    inversion H. simpl. auto.
Qed.

Lemma index_of_In s (l : list string) i :
  PyStr.index_of s l = Some i -> In s l.
Proof. intros H. eapply nth_error_In, index_of_nth_error, H. Qed.

Lemma fold_weights_get (w : string -> F) classes todo acc cls k :
  PyStr.index_of cls classes = Some k ->
  In cls todo \/ Dict.get Z.eqb (Z.of_nat k) acc = Some (w cls) ->
  Dict.get Z.eqb (Z.of_nat k)
    (fold_left
       (fun mapping c =>
          match PyStr.index_of c classes with
          | Some encoded => Dict.set Z.eqb (Z.of_nat encoded) (w c) mapping
          | None => mapping
          end) todo acc) = Some (w cls).
Proof.
  intros Hk. revert acc. induction todo as [|c todo IH]; simpl; intros acc H.
  - destruct H as [[]|H]; exact H.
  - apply IH. destruct (PyStr.index_of c classes) as [e|] eqn:He.
    + destruct (Nat.eq_dec e k) as [->|Hne].
      * right.
        assert (c = cls) as ->.
        { apply index_of_nth_error in He, Hk. congruence. }
        apply (dict_get_set_same Z.eqb Z.eqb_spec).
      * destruct H as [[->|H]|H]; [congruence | now left | right].
        rewrite (dict_get_set_other Z.eqb Z.eqb_spec); [exact H | lia].
    + destruct H as [[->|H]|H]; [congruence | now left | now right].
Qed.

(** The weight found for the code of a class is the weight of its name. *)
Lemma series_map_encoded column table default classes cls k :
  Dict.get String.eqb column (label_encoders A) = Some classes ->
  PyStr.index_of cls classes = Some k ->
  series_map (_encoded_weights A column table default) (CInt (Z.of_nat k)) =
  CFloat (name_weight table default cls).
Proof.
  intros Henc Hk. unfold series_map, _encoded_weights. rewrite Henc. simpl.
  rewrite (fold_weights_get (name_weight table default) classes classes []
             cls k Hk); [reflexivity|].
  left. eapply index_of_In, Hk.
Qed.

End EncodedWeights.

(** What a successful encoding leaves in the frame. *)

Section Encoding.
Context {F : Type}.
Variable A : Artifacts F.

Lemma encode_categoricals_inv cols (user_input df0 df : row F) calls :
  (forall c, has_col c df0 = has_col c user_input) ->
  encode_categoricals A cols user_input df0 = (inr df, calls) ->
  columns df = columns df0 /\
  (forall c, ~ In c cols -> get_col c df = get_col c df0) /\
  (forall c, In c cols -> has_col c user_input = true ->
     exists v classes i,
       get_col c user_input = Some v /\
       Dict.get String.eqb c (label_encoders A) = Some classes /\
       encode_value classes v = Some i /\
       get_col c df = Some (CInt (Z.of_nat i))).
Proof.
  revert df0 calls.
  induction cols as [|col rest IH]; simpl; intros df0 calls Hkeys Hrun.
  - inversion Hrun; subst. repeat split; auto. intros c [].
  - destruct (has_col col df0) eqn:Hcol.
    + destruct (get_col col user_input) as [v|] eqn:Hv; [|discriminate].
      destruct (Dict.get String.eqb col (label_encoders A)) as [classes|] eqn:Hc;
        [|discriminate].
      destruct (encode_value classes v) as [i|] eqn:Hi; [|discriminate].
      destruct (encode_categoricals A rest user_input
                  (set_col col (CInt (Z.of_nat i)) df0)) as [r c2] eqn:Hrest.
      inversion Hrun; subst.
      apply IH in Hrest as (Hcolumns & Hout & Hin).
      2:{ intros c. rewrite has_col_set_col_present; auto. }
      split; [|split].
      * rewrite Hcolumns.
        now apply (dict_set_keys_present String.eqb String.eqb_spec).
      * intros c Hnot. rewrite Hout by tauto.
        apply (dict_get_set_other String.eqb String.eqb_spec). intros ->. tauto.
      * intros c Hmem Hhas.
        destruct (in_dec string_dec c rest) as [Hr|Hr]; [now apply Hin|].
        destruct Hmem as [<-|Hmem]; [|contradiction].
        exists v, classes, i. repeat split; auto.
        rewrite Hout by assumption.
        apply (dict_get_set_same String.eqb String.eqb_spec).
    + apply IH in Hrun as (Hcolumns & Hout & Hin); [|assumption].
      split; [assumption|]. split.
      * intros c Hc. apply Hout. tauto.
      * intros c [<-|Hc] Hhas; [|now apply Hin].
        rewrite Hkeys in Hcol. congruence.
Qed.

(** Two frames with the same distinct columns and the same value in each are
    equal. *)
Lemma row_ext (df df' : row F) :
  columns df = columns df' ->
  NoDup (columns df) ->
  (forall c, In c (columns df) -> get_col c df = get_col c df') ->
  df = df'.
Proof.
  revert df'. induction df as [|[c v] df IH]; intros [|[c' v'] df'] Hcols Hnd Hget;
    simpl in *; try discriminate; [reflexivity|].
  inversion Hcols; subst. inversion Hnd as [|? ? Hnotin Hnd']; subst.
  pose proof (Hget c' (or_introl eq_refl)) as Hhead.
  unfold get_col in Hhead. simpl in Hhead. rewrite String.eqb_refl in Hhead.
  inversion Hhead; subst. f_equal. apply IH; auto.
  intros c Hc. specialize (Hget c (or_intror Hc)).
  unfold get_col in *. simpl in Hget.
  destruct (String.eqb_spec c c') as [E|Hne];
    [subst; contradiction | exact Hget].
Qed.

End Encoding.

(** The scenario of the specification. *)

Section Scenario.
Context {F : Type} {AF : Arith F}.
Variable A : Artifacts F.

(** The formulas, evaluated in the arithmetic at hand. *)
Lemma scenario_derived_features size children shedding health :
  scenario_codes A size children shedding health ->
  _create_derived_features A (scenario_encoded size children shedding health) =
  scenario_encoded size children shedding health ++
  [("Family_Compatibility_Score",
    CFloat (add (add (mul (dec 10 1) (dec 4 1)) (mul (of_Z 8) (dec 1 1)))
                (mul (of_Z 7) (dec 1 1))));
   ("Maintenance_Score",
    CFloat (add (add (mul (dec 5 1) (dec 3 1)) (mul (dec 20 1) (dec 2 1)))
                (mul (dec 0 1) (dec 3 1))));
   ("Energy_Score",
    CFloat (add (mul (dec 20 1) (dec 4 1)) (mul (of_Z 7) (dec 1 1))));
   ("Intelligence_Training_Ratio", CFloat (div (of_Z 7) (of_Z 4)));
   ("Size_Score", CFloat (dec 20 1))].
Proof.
  intros ((sz & Hsz & Hsz') & (ch & Hch & Hch') & (sh & Hsh & Hsh')
          & (he & Hhe & Hhe')).
  unfold _create_derived_features, run_until_exception, scenario_encoded.
  unfold family_compatibility at 1.
  cbn [has_col Dict.has get_col Dict.get String.eqb Ascii.eqb Bool.eqb andb
       obind].
  unfold children_weights.
  rewrite (series_map_encoded A _ _ _ _ "Yes" _ Hch Hch').
  cbn [mul_lit add_cells rsub_int obind set_col Dict.set String.eqb Ascii.eqb
       Bool.eqb].
  unfold maintenance at 1.
  cbn [has_col Dict.has get_col Dict.get String.eqb Ascii.eqb Bool.eqb andb
       obind].
  unfold shedding_weights, health_weights.
  rewrite (series_map_encoded A _ _ _ _ "Moderate" _ Hsh Hsh').
  rewrite (series_map_encoded A _ _ _ _ "Low" _ Hhe Hhe').
  cbn [mul_lit add_cells obind set_col Dict.set String.eqb Ascii.eqb Bool.eqb].
  unfold energy at 1.
  cbn [has_col Dict.has get_col Dict.get String.eqb Ascii.eqb Bool.eqb andb
       obind mul_lit add_cells set_col Dict.set].
  unfold intelligence_training_ratio at 1.
  cbn [has_col Dict.has get_col Dict.get String.eqb Ascii.eqb Bool.eqb andb
       obind add_int div_cells set_col Dict.set].
  unfold size_score at 1.
  cbn [has_col Dict.has get_col Dict.get String.eqb Ascii.eqb Bool.eqb andb
       obind].
  unfold size_weights.
  rewrite (series_map_encoded A _ _ _ _ "Medium" _ Hsz Hsz').
  reflexivity.
Qed.

(** Encoding the scenario row, when it succeeds with the four columns among
    the categorical ones, yields the encoded scenario row. *)
Lemma encode_scenario df calls :
  encode_categoricals A (categorical_columns A) scenario_input scenario_input =
    (inr df, calls) ->
  In "Size" (categorical_columns A) ->
  In "Good with Children" (categorical_columns A) ->
  In "Shedding Level" (categorical_columns A) ->
  In "Health Issues Risk" (categorical_columns A) ->
  exists size children shedding health,
    scenario_codes A size children shedding health /\
    df = scenario_encoded size children shedding health.
Proof.
  intros Hrun Hsz Hch Hsh Hhe.
  apply encode_categoricals_inv in Hrun as (Hcols & Hout & Hin); [|reflexivity].
  destruct (Hin _ Hsz eq_refl) as (v1 & c1 & i1 & Hv1 & Hc1 & Hi1 & Hg1).
  destruct (Hin _ Hch eq_refl) as (v2 & c2 & i2 & Hv2 & Hc2 & Hi2 & Hg2).
  destruct (Hin _ Hsh eq_refl) as (v3 & c3 & i3 & Hv3 & Hc3 & Hi3 & Hg3).
  destruct (Hin _ Hhe eq_refl) as (v4 & c4 & i4 & Hv4 & Hc4 & Hi4 & Hg4).
  vm_compute in Hv1, Hv2, Hv3, Hv4.
  inversion Hv1; inversion Hv2; inversion Hv3; inversion Hv4; subst.
  simpl in Hi1, Hi2, Hi3, Hi4.
  exists i1, i2, i3, i4. split.
  { repeat split; eexists; eauto. }
  assert (Hnum : forall c z,
            get_col c (scenario_input (F := F)) = Some (CInt z) ->
            get_col c df = Some (CInt z)).
  { intros c z Hc.
    destruct (in_dec string_dec c (categorical_columns A)) as [Hcat|Hcat].
    - destruct (Hin c Hcat) as (v & cl & i & Hv & _ & Hi & _).
      { unfold has_col, Dict.has. fold (get_col c (scenario_input (F := F))).
        now rewrite Hc. }
      rewrite Hc in Hv. inversion Hv; subst. discriminate.
    - now rewrite Hout. }
  assert (Hflt : forall c x,
            get_col c (scenario_input (F := F)) = Some (CFloat x) ->
            get_col c df = Some (CFloat x)).
  { intros c x Hc.
    destruct (in_dec string_dec c (categorical_columns A)) as [Hcat|Hcat].
    - destruct (Hin c Hcat) as (v & cl & i & Hv & _ & Hi & _).
      { unfold has_col, Dict.has. fold (get_col c (scenario_input (F := F))).
        now rewrite Hc. }
      rewrite Hc in Hv. inversion Hv; subst. discriminate.
    - now rewrite Hout. }
  apply row_ext.
  - rewrite Hcols. reflexivity.
  - rewrite Hcols. simpl.
    repeat (constructor; [simpl; intuition discriminate|]). constructor.
  - rewrite Hcols. simpl. intros c Hc.
    repeat (destruct Hc as [<-|Hc];
            [first [ exact Hg1 | exact Hg2 | exact Hg3 | exact Hg4
                   | apply Hnum; reflexivity | apply Hflt; reflexivity ]|]).
    contradiction.
Qed.

End Scenario.

(** C1, as the code has it.  For the scenario row, once encoded, the
    derived-feature stage computes in binary64, before any scaling or
    rounding: [Family_Compatibility_Score = 0.4 + 0.8 + 0.7000000000000001 =
    1.9000000000000004] (two units in the last place above the float [1.9]),
    [Maintenance_Score = 0.55], [Energy_Score = 1.5],
    [Intelligence_Training_Ratio = 1.75] and [Size_Score = 2.0]. *)
Theorem scenario_derived_features_binary64
  (A : Artifacts float) (df : row float) (calls : list event) :
  encode_categoricals A (categorical_columns A) scenario_input scenario_input =
    (inr df, calls) ->
  In "Size" (categorical_columns A) ->
  In "Good with Children" (categorical_columns A) ->
  In "Shedding Level" (categorical_columns A) ->
  In "Health Issues Risk" (categorical_columns A) ->
  derived_values (_create_derived_features A df) =
  [Some (CFloat 0x1.e666666666668p+0%float);
   Some (CFloat 0.55%float);
   Some (CFloat 1.5%float);
   Some (CFloat 1.75%float);
   Some (CFloat 2%float)].
Proof.
  intros Hrun Hsz Hch Hsh Hhe.
  destruct (encode_scenario A df calls Hrun Hsz Hch Hsh Hhe)
    as (i1 & i2 & i3 & i4 & Hcodes & ->).
  rewrite (scenario_derived_features A _ _ _ _ Hcodes). reflexivity.
Qed.

(** In exact arithmetic the same formulas give 1.9, 0.55, 1.5, 1.75 and 2. *)
Lemma scenario_derived_features_exact
  (A : Artifacts Qc) (df : row Qc) (calls : list event) :
  encode_categoricals A (categorical_columns A) scenario_input scenario_input =
    (inr df, calls) ->
  In "Size" (categorical_columns A) ->
  In "Good with Children" (categorical_columns A) ->
  In "Shedding Level" (categorical_columns A) ->
  In "Health Issues Risk" (categorical_columns A) ->
  derived_values (_create_derived_features A df) =
  [Some (CFloat (Q2Qc (19 # 10))); Some (CFloat (Q2Qc (11 # 20)));
   Some (CFloat (Q2Qc (3 # 2))); Some (CFloat (Q2Qc (7 # 4)));
   Some (CFloat (Q2Qc 2))].
Proof.
  intros Hrun Hsz Hch Hsh Hhe.
  destruct (encode_scenario A df calls Hrun Hsz Hch Hsh Hhe)
    as (i1 & i2 & i3 & i4 & Hcodes & ->).
  rewrite (scenario_derived_features A _ _ _ _ Hcodes).
  unfold derived_values. simpl.
  repeat match goal with
         | |- _ :: _ = _ :: _ => apply f_equal2
         | |- Some (CFloat _) = Some (CFloat _) =>
             do 2 apply f_equal; apply Qc_is_canon; reflexivity
         | |- [] = [] => reflexivity
         end.
Qed.

(** C1.  With the illustrative encoders, the family score of the scenario is
    not the float [1.9]. *)
Lemma scenario_family_score_is_not_1_9 :
  exists df calls x,
    encode_categoricals (F := float) Sample.artifacts Sample.categorical
      scenario_input scenario_input = (inr df, calls) /\
    get_col "Family_Compatibility_Score"
      (_create_derived_features Sample.artifacts df) = Some (CFloat x) /\
    PrimFloat.eqb x 1.9%float = false /\
    x <> 1.9%float.
Proof.
  eexists. eexists. exists 0x1.e666666666668p+0%float.
  split; [vm_compute; reflexivity|].
  split; [vm_compute; reflexivity|].
  split; [reflexivity|].
  intros H. apply (f_equal (fun y => PrimFloat.eqb y 1.9%float)) in H.
  vm_compute in H. discriminate.
Qed.

Lemma scenario_derived_features_binary64_witness :
  exists df calls,
    encode_categoricals (F := float) Sample.artifacts Sample.categorical
      scenario_input scenario_input = (inr df, calls) /\
    derived_values (_create_derived_features Sample.artifacts df) =
    [Some (CFloat 0x1.e666666666668p+0%float);
     Some (CFloat 0.55%float);
     Some (CFloat 1.5%float);
     Some (CFloat 1.75%float);
     Some (CFloat 2%float)].
Proof.
  eexists. eexists. split; [vm_compute; reflexivity|].
  apply (scenario_derived_features_binary64 Sample.artifacts _
           [EncoderTransform "Size"; EncoderTransform "Good with Children";
            EncoderTransform "Shedding Level";
            EncoderTransform "Health Issues Risk"]).
  - vm_compute. reflexivity.
  - simpl. auto.
  - simpl. auto.
  - simpl. auto.
  - simpl. auto 10.
Defined.

(** ** Exact arithmetic *)

Section ExactFacts.
Local Open Scope Qc_scope.

Lemma exact_ltb_lt (x y : Qc) : ltb x y = true <-> x < y.
Proof.
  simpl. unfold Exact.ltb. rewrite negb_true_iff.
  split.
  - intros H. apply Qcnot_le_lt. intros Hle.
    apply Qle_bool_iff in Hle. unfold Qcle in *. congruence.
  - intros H. destruct (Qle_bool y x) eqn:E; [|reflexivity].
    apply Qle_bool_iff in E. exfalso. eapply Qclt_not_le; eauto.
Qed.

Lemma Qcinv_pos (x : Qc) : 0 < x -> 0 < / x.
Proof.
  intros H. unfold Qclt in *. simpl. rewrite Qred_correct.
  now apply Qinv_lt_0_compat.
Qed.

Lemma Qcdiv_le_compat (a b m : Qc) : 0 < m -> a <= b -> a / m <= b / m.
Proof.
  intros Hm Hab. unfold Qcdiv. apply Qcmult_le_compat_r; [assumption|].
  apply Qclt_le_weak, Qcinv_pos, Hm.
Qed.

Lemma Qcdiv_same (x : Qc) : 0 < x -> x / x = 1.
Proof.
  intros H. apply Qcmult_inv_r. intros ->. now apply (Qclt_not_eq 0 0).
Qed.

Lemma Qcinv_le_compat (a b : Qc) : 0 < a -> a <= b -> / b <= / a.
Proof.
  intros Ha Hab. unfold Qcle, Qclt in *. simpl. rewrite !Qred_correct.
  assert (Hb : (0 < b)%Q) by (eapply Qlt_le_trans; eauto).
  apply Qle_shift_inv_l; [assumption|].
  rewrite Qmult_comm. apply Qle_shift_div_r; [assumption|]. 
  now rewrite Qmult_1_l.
Qed.

Lemma round_half_even_spec (q : Q) :
  let R := Exact.round_half_even q in
  let n := Qnum q in
  let d := Z.pos (Qden q) in
  (2 * R * d - d <= 2 * n <= 2 * R * d + d)%Z /\
  ((2 * n = 2 * R * d + d)%Z -> Z.even R = true) /\
  ((2 * n = 2 * R * d - d)%Z -> Z.even R = true).
Proof.
  unfold Exact.round_half_even. destruct q as [n d]. cbn [Qnum Qden]. cbv zeta.
  pose proof (Z.div_mod n (Z.pos d) ltac:(lia)) as Hdm.
  pose proof (Z.mod_pos_bound n (Z.pos d) ltac:(lia)) as Hb.
  set (f := (n / Z.pos d)%Z) in *. set (r := (n mod Z.pos d)%Z) in *.
  destruct (Z.ltb_spec (2 * r) (Z.pos d)).
  - repeat split; intros; nia.
  - destruct (Z.ltb_spec (Z.pos d) (2 * r)).
    + repeat split; intros; nia.
    + destruct (Z.even f) eqn:Hf.
      * repeat split; intros; try nia; auto.
      * assert (Z.even (f + 1) = true).
        { rewrite Z.even_add, Hf. reflexivity. }
        repeat split; intros; try nia; auto.
Qed.

Lemma round_half_even_mono (p q : Q) :
  (p <= q)%Q -> (Exact.round_half_even p <= Exact.round_half_even q)%Z.
Proof.
  intros Hpq.
  destruct (round_half_even_spec p) as ([Hp1 Hp2] & Hp3 & Hp4).
  destruct (round_half_even_spec q) as ([Hq1 Hq2] & Hq3 & Hq4).
  unfold Qle in Hpq.
  set (R1 := Exact.round_half_even p) in *.
  set (R2 := Exact.round_half_even q) in *.
  destruct p as [n1 d1], q as [n2 d2]. cbn [Qnum Qden] in *.
  destruct (Z_le_gt_dec R1 R2) as [|Hgt]; [assumption|exfalso].
  assert (H1 : (2 * n1 * Z.pos d2 >= (2 * R2 + 1) * Z.pos d1 * Z.pos d2)%Z) by nia.
  assert (H2 : (2 * n2 * Z.pos d1 <= (2 * R2 + 1) * Z.pos d1 * Z.pos d2)%Z) by nia.
  assert (E1 : (2 * n1 * Z.pos d2 = (2 * R2 + 1) * Z.pos d1 * Z.pos d2)%Z) by nia.
  assert (E2 : (2 * n2 * Z.pos d1 = (2 * R2 + 1) * Z.pos d1 * Z.pos d2)%Z) by nia.
  assert (E1' : (2 * n1 = (2 * R2 + 1) * Z.pos d1)%Z) by nia.
  assert (E2' : (2 * n2 = (2 * R2 + 1) * Z.pos d2)%Z) by nia.
  assert (HR : (R1 = R2 + 1)%Z) by nia.
  assert (Z.even R2 = true) by (apply Hq3; nia).
  assert (Z.even R1 = true) by (apply Hp4; nia).
  subst R1. rewrite HR in *. rewrite Z.even_add in *. 
  destruct (Z.even R2); simpl in *; congruence.
Qed.

Lemma exact_round_mono (x y : Qc) n :
  (x <= y)%Qc -> (Exact.round x n <= Exact.round y n)%Qc.
Proof.
  intros H. unfold Exact.round, Qcle. cbn [this Q2Qc]. rewrite !Qred_correct.
  assert (Hp : (0 < inject_Z (10 ^ Z.of_nat n))%Q).
  { change 0%Q with (inject_Z 0). rewrite <- Zlt_Qlt. apply Z.pow_pos_nonneg; lia. }
  apply Qmult_le_compat_r; [|apply Qlt_le_weak, Qinv_lt_0_compat, Hp].
  rewrite <- Zle_Qle. apply round_half_even_mono.
  apply Qmult_le_compat_r; [exact H | now apply Qlt_le_weak].
Qed.

Lemma exact_round_one_3 : Exact.round 1 3 = 1.
Proof. apply Qc_is_canon. reflexivity. Qed.

Lemma exact_round_zero_4 : Exact.round 0 4 = 0.
Proof. apply Qc_is_canon. reflexivity. Qed.

Lemma exact_round_one_4 : Exact.round 1 4 = 1.
Proof. apply Qc_is_canon. reflexivity. Qed.

End ExactFacts.

(** ** Sorted lists *)

Section SortedFacts.
Context {X : Type}.

Lemma StronglySorted_app (R : X -> X -> Prop) (l1 l2 : list X) :
  StronglySorted R l1 -> StronglySorted R l2 ->
  (forall a b, In a l1 -> In b l2 -> R a b) ->
  StronglySorted R (l1 ++ l2).
Proof.
  induction l1 as [|a l1 IH]; simpl; intros H1 H2 H; [assumption|].
  apply StronglySorted_inv in H1 as [H1 Ha]. constructor.
  - apply IH; auto.
  - apply Forall_app. split; [assumption|].
    apply Forall_forall. intros b Hb. apply H; auto.
Qed.

Lemma StronglySorted_app_inv (R : X -> X -> Prop) (l1 l2 : list X) :
  StronglySorted R (l1 ++ l2) ->
  StronglySorted R l1 /\ StronglySorted R l2 /\
  (forall a b, In a l1 -> In b l2 -> R a b).
Proof.
  induction l1 as [|a l1 IH]; simpl; intros H.
  - repeat split; [constructor | assumption | intros ? ? []].
  - apply StronglySorted_inv in H as [H Ha].
    destruct (IH H) as (H1 & H2 & H12).
    apply Forall_app in Ha as [Ha1 Ha2].
    repeat split; [now constructor | assumption |].
    intros x b [<-|Hx] Hb; [|auto].
    rewrite Forall_forall in Ha2. auto.
Qed.

Lemma StronglySorted_rev (R : X -> X -> Prop) (l : list X) :
  StronglySorted R l -> StronglySorted (fun a b => R b a) (rev l).
Proof.
  induction l as [|a l IH]; simpl; intros H; [constructor|].
  apply StronglySorted_inv in H as [H Ha].
  apply StronglySorted_app; [auto | repeat constructor |].
  intros x b Hx [<-|[]]. apply in_rev in Hx.
  rewrite Forall_forall in Ha. auto.
Qed.

Lemma StronglySorted_firstn (R : X -> X -> Prop) n (l : list X) :
  StronglySorted R l -> StronglySorted R (firstn n l).
Proof.
  intros H. rewrite <- (firstn_skipn n l) in H.
  now apply StronglySorted_app_inv in H.
Qed.

Lemma StronglySorted_firstn_skipn (R : X -> X -> Prop) n (l : list X) a b :
  StronglySorted R l -> In a (firstn n l) -> In b (skipn n l) -> R a b.
Proof.
  intros H. rewrite <- (firstn_skipn n l) in H.
  apply StronglySorted_app_inv in H as (_ & _ & H). auto.
Qed.

End SortedFacts.

Lemma NoDup_firstn {X} n (l : list X) : NoDup l -> NoDup (firstn n l).
Proof.
  intros H. rewrite <- (firstn_skipn n l) in H.
  eapply NoDup_app_remove_r, H.
Qed.

Lemma In_firstn_or_skipn {X} n (l : list X) x :
  In x l -> In x (firstn n l) \/ In x (skipn n l).
Proof.
  intros H. rewrite <- (firstn_skipn n l) in H. now apply in_app_or.
Qed.

(** Sortedness carries over a pointwise relation between two lists. *)
Lemma StronglySorted_Forall2 {X Y} (R : X -> X -> Prop) (S : Y -> Y -> Prop)
  (E : X -> Y -> Prop) (l : list X) (l' : list Y) :
  (forall a b x y, E a x -> E b y -> R a b -> S x y) ->
  Forall2 E l l' -> StronglySorted R l -> StronglySorted S l'.
Proof.
  intros H HE. induction HE as [|a x l l' Hax HE IH]; intros Hs;
    [constructor|].
  apply StronglySorted_inv in Hs as [Hs Ha]. constructor; [auto|].
  clear IH Hs. induction HE as [|b y l l' Hby HE IH]; [constructor|].
  inversion Ha; subst. constructor; eauto.
Qed.

Lemma Forall_enumerate {X} (P : X -> Prop) start (l : list X) :
  Forall P l -> Forall (fun b => P (snd b)) (enumerate start l).
Proof.
  intros H. revert start. induction H as [|x l Hx H IH]; simpl; intros start;
    constructor; auto.
Qed.

Lemma StronglySorted_enumerate {X} (R : X -> X -> Prop) start (l : list X) :
  StronglySorted R l ->
  StronglySorted (fun a b => R (snd a) (snd b)) (enumerate start l).
Proof.
  revert start. induction l as [|x l IH]; simpl; intros start H;
    [constructor|].
  apply StronglySorted_inv in H as [H Hx]. constructor; [auto|].
  now apply Forall_enumerate.
Qed.

Lemma map_fst_enumerate {X} start (l : list X) :
  map fst (enumerate start l) = seq start (List.length l).
Proof.
  revert start. induction l as [|x l IH]; simpl; intros start;
    [reflexivity|]. now rewrite IH.
Qed.

(** ** [argsort] sorts, and keeps equal values in position order *)

Section ArgsortSorted.
Local Open Scope Qc_scope.
Variable values : list Qc.

Lemma ascends_le i j : ascends values i j -> value_at values i <= value_at values j.
Proof.
  intros [H|[H _]]; [now apply Qclt_le_weak | rewrite H; apply Qcle_refl].
Qed.

Lemma insert_index_sorted i sorted :
  StronglySorted (ascends values) sorted ->
  (forall j, In j sorted -> (j < i)%nat) ->
  StronglySorted (ascends values) (insert_index values i sorted).
Proof.
  induction sorted as [|j rest IH]; simpl; intros Hs Hlt.
  - repeat constructor.
  - apply StronglySorted_inv in Hs as [Hs Hj].
    destruct (Exact.leb (value_at values j) (value_at values i)) eqn:E.
    + apply Qle_bool_iff in E. constructor; [auto|].
      apply (Permutation_Forall
               (Permutation_sym (insert_index_perm values i rest))).
      constructor; [|assumption].
      destruct (Qcle_lt_or_eq _ _ E) as [H|H]; [now left | right].
      split; [assumption | apply Hlt; now left].
    + assert (Hij : value_at values i < value_at values j).
      { apply Qcnot_le_lt. intros H. apply Qle_bool_iff in H.
        unfold Exact.leb in E. congruence. }
      constructor; [now constructor|]. constructor; [now left|].
      rewrite Forall_forall in *. intros x Hx. left.
      eapply Qclt_le_trans; [exact Hij | apply ascends_le; auto].
Qed.

Lemma fold_insert_sorted todo start acc :
  StronglySorted (ascends values) acc ->
  (forall j, In j acc -> (j < start)%nat) ->
  StronglySorted (ascends values)
    (fold_left (fun sorted i => insert_index values i sorted)
               (seq start todo) acc).
Proof.
  revert start acc. induction todo as [|todo IH]; simpl; intros start acc Hs Hlt;
    [assumption|].
  apply IH.
  - now apply insert_index_sorted.
  - intros j Hj. apply (Permutation_in _ (insert_index_perm values start acc)) in Hj.
    destruct Hj as [<-|Hj]; [lia|]. specialize (Hlt j Hj). lia.
Qed.

Lemma argsort_sorted : StronglySorted (ascends values) (argsort values).
Proof.
  unfold argsort. apply fold_insert_sorted; [constructor | intros ? []].
Qed.

End ArgsortSorted.

(** ** Grouped predictions *)

Section GroupedPredictions.
Local Open Scope Qc_scope.
Context {Py : PyBuiltins}.
Variable A : Artifacts Qc.

Lemma group_entries_inv probas ranked preds :
  group_entries A probas ranked = inr preds ->
  Forall2 (group_entry_of A probas) ranked preds.
Proof.
  revert preds. induction ranked as [|[rank idx] rest IH]; simpl; intros preds H.
  - inversion H. constructor.
  - destruct (nth_error (classes_ A) idx) as [g|] eqn:Hg; [|discriminate].
    destruct (group_entries A probas rest) as [e|l]; [discriminate|].
    simpl in H. inversion H; subst. constructor; [|auto].
    repeat split; assumption.
Qed.

Lemma value_at_in_range (probas : list Qc) i :
  Forall (fun p => 0 <= p /\ p <= 1) probas ->
  (i < List.length probas)%nat ->
  0 <= value_at probas i /\ value_at probas i <= 1.
Proof.
  intros H Hi. rewrite Forall_forall in H. apply H. now apply nth_In.
Qed.

(** C7, as the code has it.  For a valid request, with a classifier that
    answers with probabilities in [0, 1], the grouped predictions are made
    from the [min(k, number of classes)] class positions of highest
    probability, listed by non-increasing probability; positions of equal
    probability are listed in decreasing position, the reverse of the
    classifier's label order.  Ranks are 1, 2, ... in that order, each score
    is the probability rounded to 4 decimals, scores are non-increasing and
    lie in [0, 1]. *)
Theorem grouped_predictions_ranked (user_input : row Qc) (top_k : Z)
  (model_predict_proba : row Qc -> pyexn Qc + list Qc) :
  valid_input A user_input ->
  responsive A ->
  predict_proba A = Some model_predict_proba ->
  (forall user_df probas,
      model_predict_proba user_df = inr probas ->
      Forall (fun p => 0 <= p /\ p <= 1) probas) ->
  exists r calls user_df c0 probas top_indices,
    predict A user_input top_k = (inr r, calls) /\
    prepare A user_input = (inr user_df, c0) /\
    model_predict_proba user_df = inr probas /\
    List.length top_indices =
      Nat.min (clamp_k A top_k) (List.length probas) /\
    NoDup top_indices /\
    (forall i, In i top_indices -> (i < List.length probas)%nat) /\
    StronglySorted (fun i j => ascends probas j i) top_indices /\
    (forall i j, In i top_indices -> (j < List.length probas)%nat ->
                 ~ In j top_indices -> ascends probas j i) /\
    Forall2 (group_entry_of A probas) (enumerate 1 top_indices)
            (predictions_grouped r) /\
    map (@g_rank Qc) (predictions_grouped r) =
      seq 1 (List.length top_indices) /\
    StronglySorted (fun p q => g_score q <= g_score p)
                   (predictions_grouped r) /\
    Forall (fun p => 0 <= g_score p /\ g_score p <= 1)
           (predictions_grouped r).
Proof.
  intros Hvalid Hresp Hf Hrange.
  destruct (prepare_succeeds A user_input Hvalid Hresp) as (user_df & c0 & Hp).
  destruct (classifier_answers Hresp user_df Hf)
    as (probas & Hprobas & Hlen).
  set (k := clamp_k A top_k).
  set (top := firstn k (rev (argsort probas))).
  assert (Htop_range : forall i, In i top -> (i < List.length probas)%nat).
  { intros i Hi. apply In_firstn in Hi. apply in_rev in Hi.
    now apply argsort_in_range. }
  destruct (group_entries_ok A probas (enumerate 1 top)) as [preds Hpreds].
  { intros rank idx H. apply enumerate_In in H. apply Htop_range in H. lia. }
  destruct (find_similar_breeds_total A user_df k) as (suggestions & Hs).
  assert (Hentries := group_entries_inv _ _ _ Hpreds).
  assert (Hsorted : StronglySorted (fun i j => ascends probas j i) top).
  { apply StronglySorted_firstn, StronglySorted_rev, argsort_sorted. }
  exists (assemble user_df preds suggestions),
    (c0 ++ [PredictProba] ++ [Kneighbors (Nat.min k (X_enhanced_len A))]),
    user_df, c0, probas, top.
  split.
  { apply predict_inr_iff.
    exists user_df, c0, preds, [PredictProba], suggestions,
      [Kneighbors (Nat.min k (X_enhanced_len A))].
    repeat split; auto.
    unfold _generate_group_predictions. rewrite Hf.
    unfold bind, call, lift. rewrite Hprobas.
    unfold top, k in Hpreds. now rewrite Hpreds. }
  split; [exact Hp|]. split; [exact Hprobas|].
  split.
  { unfold top. now rewrite length_firstn, length_rev, argsort_length. }
  split.
  { apply NoDup_firstn, NoDup_rev, argsort_NoDup. }
  split; [exact Htop_range|]. split; [exact Hsorted|].
  split.
  { intros i j Hi Hj Hnot.
    assert (Hin : In j (rev (argsort probas))).
    { apply in_rev. rewrite rev_involutive.
      apply (Permutation_in _ (Permutation_sym (argsort_perm probas))).
      apply in_seq. lia. }
    destruct (In_firstn_or_skipn k _ _ Hin) as [H|H]; [contradiction|].
    apply (StronglySorted_firstn_skipn
             (fun a b => ascends probas b a) k (rev (argsort probas)));
      auto.
    apply StronglySorted_rev, argsort_sorted. }
  simpl. split; [exact Hentries|].
  split.
  { rewrite <- (map_fst_enumerate 1 top).
    clear -Hentries. induction Hentries as [|a p l l' Hap HE IH]; simpl;
      [reflexivity|].
    destruct Hap as (-> & _). now rewrite IH. }
  split.
  { apply (StronglySorted_Forall2
             (fun a b => ascends probas (snd b) (snd a))
             (fun p q => g_score q <= g_score p)
             (group_entry_of A probas) (enumerate 1 top) preds);
      [|exact Hentries|].
    - intros a b x y (_ & _ & Hx) (_ & _ & Hy) Hab.
      rewrite Hx, Hy. apply exact_round_mono, ascends_le, Hab.
    - apply (StronglySorted_enumerate (fun i j => ascends probas j i)).
      exact Hsorted. }
  { assert (Hin : Forall (fun a => In (snd a) top) (enumerate 1 top)).
    { apply (Forall_enumerate (fun i => In i top)).
      apply Forall_forall. auto. }
    clear -Hentries Hin Htop_range Hrange Hprobas.
    induction Hentries as [|a p l l' Hap HE IH]; [constructor|].
    inversion Hin as [|? ? Hhead Htail]; subst. constructor; [|auto].
    destruct Hap as (_ & _ & ->).
    destruct (value_at_in_range probas (snd a) (Hrange _ _ Hprobas))
      as [Hlow Hhigh]; [auto|].
    split.
    - rewrite <- exact_round_zero_4. now apply exact_round_mono.
    - rewrite <- exact_round_one_4. now apply exact_round_mono. }
Qed.

End GroupedPredictions.

(** C7.  With the illustrative classifier, ["Companion"] (label 0) and
    ["Sporting"] (label 2) have the same probability, and ["Sporting"] is
    ranked first: the tie is not broken by the label order. *)
Lemma tie_broken_against_label_order :
  exists r calls,
    predict (F := Qc) Sample.artifacts Sample.example_input 3 =
      (inr r, calls) /\
    map (@g_group Qc) (predictions_grouped r) =
      ["Herding"; "Sporting"; "Companion"] /\
    map (fun p => this (g_score p)) (predictions_grouped r) =
      [1 # 2; 1 # 4; 1 # 4]%Q /\
    Sample.groups = ["Companion"; "Herding"; "Sporting"].
Proof.
  eexists. eexists. split; [vm_compute; reflexivity|].
  repeat split; reflexivity.
Qed.

(** ** Breed suggestions *)

Section Similarity.
Local Open Scope Qc_scope.

Lemma raw_similarity_pos (d : Qc) : 0 <= d -> 0 < raw_similarity d.
Proof.
  intros Hd. unfold raw_similarity. simpl.
  change (Exact.of_Z 1) with 1. unfold Qcdiv. rewrite Qcmult_1_l.
  apply Qcinv_pos. apply Qclt_le_trans with 1; [reflexivity|].
  rewrite <- (Qcplus_0_r 1) at 1. apply Qcplus_le_compat;
    [apply Qcle_refl | assumption].
Qed.

Lemma raw_similarity_antitone (d1 d2 : Qc) :
  0 <= d1 -> d1 <= d2 -> raw_similarity d2 <= raw_similarity d1.
Proof.
  intros H0 H. unfold raw_similarity. simpl.
  change (Exact.of_Z 1) with 1. unfold Qcdiv. rewrite !Qcmult_1_l.
  apply Qcinv_le_compat.
  - apply Qclt_le_trans with 1; [reflexivity|].
    rewrite <- (Qcplus_0_r 1) at 1. apply Qcplus_le_compat;
      [apply Qcle_refl | assumption].
  - apply Qcplus_le_compat; [apply Qcle_refl | assumption].
Qed.

Lemma maximum_spec (x : Qc) xs :
  x <= maximum x xs /\
  Forall (fun y => y <= maximum x xs) xs /\
  (maximum x xs = x \/ In (maximum x xs) xs).
Proof.
  revert x. induction xs as [|y xs IH]; simpl; intros x.
  - repeat split; [apply Qcle_refl | constructor | now left].
  - change (maximum x (y :: xs))
      with (maximum (if Exact.leb x y then y else x) xs).
    destruct (IH (if Exact.leb x y then y else x)) as (H1 & H2 & H3).
    destruct (Exact.leb x y) eqn:E.
    + apply Qle_bool_iff in E. repeat split.
      * eapply Qcle_trans; eauto.
      * constructor; assumption.
      * destruct H3 as [->|H3]; auto.
    + assert (Hyx : y <= x).
      { apply Qclt_le_weak, Qcnot_le_lt. intros H. apply Qle_bool_iff in H.
        unfold Exact.leb in E. congruence. }
      repeat split.
      * assumption.
      * constructor; [eapply Qcle_trans; eauto | assumption].
      * destruct H3 as [->|H3]; auto.
Qed.

Lemma max_similarity_largest (distances : list Qc) :
  distances <> [] ->
  largest_raw_similarity distances (max_similarity distances).
Proof.
  destruct distances as [|d ds]; [congruence|]. intros _.
  unfold largest_raw_similarity.
  change (max_similarity (d :: ds))
    with (maximum (raw_similarity d) (map raw_similarity ds)).
  cbn [map].
  destruct (maximum_spec (raw_similarity d) (map raw_similarity ds))
    as (H1 & H2 & H3).
  split.
  - destruct H3 as [->|H3]; [now left | now right].
  - constructor; [assumption|].
    rewrite Forall_forall in *. intros x Hx. apply H2. now apply in_map.
Qed.

(** With ascending distances the first raw similarity is the largest. *)
Lemma max_similarity_head d ds :
  StronglySorted Qcle (d :: ds) -> Forall (Qcle 0) (d :: ds) ->
  max_similarity (d :: ds) = raw_similarity d.
Proof.
  intros Hs Hpos. apply StronglySorted_inv in Hs as [_ Hd].
  inversion Hpos as [|? ? Hd0 _]; subst.
  change (max_similarity (d :: ds))
    with (maximum (raw_similarity d) (map raw_similarity ds)).
  destruct (maximum_spec (raw_similarity d) (map raw_similarity ds))
    as (H1 & _ & [H3|H3]); [assumption|].
  apply Qcle_antisym; [|assumption].
  apply in_map_iff in H3 as (d' & <- & Hd').
  rewrite Forall_forall in Hd. apply raw_similarity_antitone; auto.
Qed.

Lemma max_similarity_pos (distances : list Qc) :
  Forall (Qcle 0) distances -> 0 < max_similarity distances.
Proof.
  destruct distances as [|d ds]; intros H; [reflexivity|].
  inversion H; subst.
  change (max_similarity (d :: ds))
    with (maximum (raw_similarity d) (map raw_similarity ds)).
  destruct (maximum_spec (raw_similarity d) (map raw_similarity ds))
    as (H1 & _). eapply Qclt_le_trans; [|exact H1].
  now apply raw_similarity_pos.
Qed.

Lemma normalised_pos (m d : Qc) :
  0 < m -> normalised m d = div (raw_similarity d) m.
Proof.
  intros H. unfold normalised.
  assert (E : ltb (of_Z 0) m = true) by (apply exact_ltb_lt; exact H).
  now rewrite E.
Qed.

End Similarity.

Section Suggestions.
Local Open Scope Qc_scope.
Context {Py : PyBuiltins}.
Variable A : Artifacts Qc.

Lemma enumerate_range {X} (l : list X) start i x :
  In (i, x) (enumerate start l) ->
  (start <= i < start + List.length l)%nat.
Proof.
  revert start. induction l as [|y l IH]; simpl; intros start; [tauto|].
  intros [E|H]; [inversion E; lia | apply IH in H; lia].
Qed.

Lemma length_enumerate {X} (l : list X) start :
  List.length (enumerate start l) = List.length l.
Proof.
  revert start. induction l as [|y l IH]; simpl; intros start; auto.
Qed.

Lemma similar_entries_inv top_k distances items entries :
  similar_entries A top_k (max_similarity distances) items = inr entries ->
  (forall item, In item items -> (fst item < top_k)%nat) ->
  Forall (Qcle 0) distances ->
  Forall2 (suggestion_of A distances) items entries.
Proof.
  intros Hrun Hlt Hpos. revert entries Hrun.
  induction items as [|[i [dist idx]] rest IH]; simpl; intros entries Hrun.
  - inversion Hrun. constructor.
  - assert (Hi : (i <? top_k)%nat = true).
    { apply Nat.ltb_lt. apply (Hlt (i, (dist, idx))). now left. }
    rewrite Hi in Hrun.
    destruct (breed_name_at A idx) as [e|b] eqn:Hb; [discriminate|].
    destruct (group_label_at A idx) as [e|g] eqn:Hg; [discriminate|].
    destruct (similar_entries A top_k (max_similarity distances) rest)
      as [e|l]; [discriminate|].
    simpl in Hrun. inversion Hrun; subst.
    constructor; [|apply IH; auto; intros; apply Hlt; now right].
    repeat split; auto.
Qed.

Lemma similar_entries_ok top_k max_sim items :
  (forall item, In item items ->
     exists b g, breed_name_at A (snd (snd item)) = inr b /\
                 group_label_at A (snd (snd item)) = inr g) ->
  exists entries, similar_entries A top_k max_sim items = inr entries.
Proof.
  induction items as [|[i [dist idx]] rest IH]; simpl; intros H.
  - eexists; reflexivity.
  - destruct IH as [l Hl]; [intros; apply H; now right|].
    destruct (i <? top_k)%nat; [|eauto].
    destruct (H (i, (dist, idx)) (or_introl eq_refl)) as (b & g & Hb & Hg).
    simpl in Hb, Hg. rewrite Hb, Hg, Hl. simpl. eexists; reflexivity.
Qed.

Lemma find_similar_breeds_answered user_df top_k distances indices :
  kneighbors A user_df (Nat.min top_k (X_enhanced_len A)) =
    inr (distances, indices) ->
  _find_similar_breeds A user_df top_k =
  (inr match similar_entries A top_k (max_similarity distances)
               (enumerate 0 (combine distances indices)) with
       | inr entries => entries
       | inl _ => []
       end,
   [Kneighbors (Nat.min top_k (X_enhanced_len A))]).
Proof.
  intros H. unfold _find_similar_breeds, catch, bind, call, lift.
  rewrite H. now destruct (similar_entries _ _ _ _).
Qed.

Lemma find_similar_breeds_unanswered user_df top_k e :
  kneighbors A user_df (Nat.min top_k (X_enhanced_len A)) = inl e ->
  _find_similar_breeds A user_df top_k =
  (inr [], [Kneighbors (Nat.min top_k (X_enhanced_len A))]).
Proof.
  intros H. unfold _find_similar_breeds, catch, bind, call, lift.
  now rewrite H.
Qed.

(** Every neighbour of a well-formed answer is within the first [top_k]. *)
Lemma neighbours_within top_k (distances : list Qc) (indices : list nat) item :
  (List.length distances <= top_k)%nat ->
  In item (enumerate 0 (combine distances indices)) ->
  (fst item < top_k)%nat.
Proof.
  intros Hlen Hin. destruct item as [i x]. apply enumerate_range in Hin.
  rewrite length_combine in Hin. simpl. lia.
Qed.

(** The suggestions of an answered query: none, or one per neighbour. *)
Lemma suggestions_of_answer user_df top_k distances indices :
  sound_index A ->
  kneighbors A user_df (Nat.min top_k (X_enhanced_len A)) =
    inr (distances, indices) ->
  exists suggestions,
    _find_similar_breeds A user_df top_k =
      (inr suggestions, [Kneighbors (Nat.min top_k (X_enhanced_len A))]) /\
    (suggestions = [] \/
     Forall2 (suggestion_of A distances)
             (enumerate 0 (combine distances indices)) suggestions).
Proof.
  intros Hsound Hk.
  destruct (Hsound _ _ _ _ Hk) as (Hld & Hli & Hsorted & Hpos).
  rewrite (find_similar_breeds_answered _ _ _ _ Hk).
  destruct (similar_entries A top_k (max_similarity distances)
              (enumerate 0 (combine distances indices))) as [e|l] eqn:E.
  - exists []. auto.
  - exists l. split; [reflexivity|]. right.
    apply (similar_entries_inv _ _ _ _ E); [|assumption].
    intros item Hin. apply (neighbours_within top_k distances indices);
      [lia | assumption].
Qed.

End Suggestions.

Lemma StronglySorted_combine {X Y} (R : X -> X -> Prop)
  (l : list X) (l' : list Y) :
  StronglySorted R l ->
  StronglySorted (fun a b => R (fst a) (fst b)) (combine l l').
Proof.
  revert l'. induction l as [|x l IH]; intros [|y l'] H; simpl;
    try constructor.
  - apply IH. now apply StronglySorted_inv in H.
  - apply StronglySorted_inv in H as [_ Hx]. clear IH. revert l'.
    induction Hx as [|z l Hz Hx IH]; intros [|y' l']; simpl; constructor; auto.
Qed.

Lemma StronglySorted_strengthen {X} (R : X -> X -> Prop) (P : X -> Prop)
  (l : list X) :
  StronglySorted R l -> Forall P l ->
  StronglySorted (fun a b => P a /\ R a b) l.
Proof.
  induction 1 as [|x l Hs IH Hx]; intros HP; [constructor|].
  inversion HP; subst. constructor; [auto|].
  revert Hx. apply Forall_impl. auto.
Qed.

Section SuggestionClaims.
Local Open Scope Qc_scope.
Context {Py : PyBuiltins}.
Variable A : Artifacts Qc.


End SuggestionClaims.

Section CountAndOrder.
Local Open Scope Qc_scope.
Context {Py : PyBuiltins}.
Variable A : Artifacts Qc.

Lemma catalog_lookup idx :
  aligned_catalog A -> (idx < X_enhanced_len A)%nat ->
  exists b g, breed_name_at A idx = inr b /\ group_label_at A idx = inr g.
Proof.
  intros [_ Hlabels Hgroups _] Hidx.
  unfold breed_name_at, group_label_at.
  destruct (nth_error (match breed_labels A with
                       | [] => y_processed A
                       | _ :: _ => breed_labels A
                       end) idx) as [b|] eqn:Hb.
  2:{ apply nth_error_None in Hb.
      destruct (breed_labels A); simpl in *; lia. }
  assert (Hb' : match nth_error match breed_labels A with
                                | [] => y_processed A
                                | s :: l => s :: l
                                end idx with
                | Some name => inr name
                | None => inl IndexError
                end = @inr (pyexn Qc) string b).
  { destruct (breed_labels A); now rewrite Hb. }
  rewrite Hb'. destruct Hgroups as [Hg|Hg].
  - rewrite Hg. eauto.
  - destruct (group_labels A) as [|g0 gs] eqn:E; [eauto|].
    destruct (nth_error (g0 :: gs) idx) as [g|] eqn:Hgi; [eauto|].
    apply nth_error_None in Hgi. lia.
Qed.


End CountAndOrder.

(** ** The illustrative index and classifier are well formed *)

Section SampleIndex.
Local Open Scope Qc_scope.

Lemma sample_distances_sorted :
  StronglySorted Qcle [dec 5 1; of_Z 1; of_Z 3; of_Z 4].
Proof. repeat constructor; unfold Qcle; vm_compute; discriminate. Qed.

Lemma sample_distances_nonnegative :
  Forall (Qcle 0) [dec 5 1; of_Z 1; of_Z 3; of_Z 4].
Proof. repeat constructor; unfold Qcle; vm_compute; discriminate. Qed.

Lemma Forall_firstn {X} (P : X -> Prop) n (l : list X) :
  Forall P l -> Forall P (firstn n l).
Proof.
  rewrite !Forall_forall. intros H x Hx. apply H. eapply In_firstn, Hx.
Qed.

Lemma sample_sound_index : sound_index Sample.artifacts.
Proof.
  intros user_df n distances indices H. simpl in H. unfold Sample.index in H.
  destruct (Nat.leb_spec n 4) as [Hn|Hn]; [|discriminate].
  inversion H; subst. rewrite !length_firstn. simpl List.length.
  repeat split; try lia.
  - apply StronglySorted_firstn, sample_distances_sorted.
  - apply Forall_firstn, sample_distances_nonnegative.
Qed.

Lemma sample_aligned_catalog : aligned_catalog Sample.artifacts.
Proof.
  constructor; simpl.
  - intros user_df n Hn. unfold Sample.index.
    destruct (Nat.leb_spec n 4) as [_|H]; [|lia].
    eexists. eexists. split; [reflexivity|].
    apply Forall_firstn. repeat constructor.
  - reflexivity.
  - now right.
  - lia.
Qed.

Lemma sample_probabilities (user_df : row Qc) probas :
  Sample.classifier user_df = inr probas ->
  Forall (fun p => 0 <= p /\ p <= 1) probas.
Proof.
  intros H. inversion H; subst.
  repeat constructor; unfold Qcle; vm_compute; discriminate.
Qed.

End SampleIndex.

Lemma grouped_predictions_ranked_witness :
  exists r calls user_df c0 probas top_indices,
    predict Sample.artifacts Sample.example_input 2 = (inr r, calls) /\
    prepare Sample.artifacts Sample.example_input = (inr user_df, c0) /\
    Sample.classifier user_df = inr probas /\
    List.length top_indices =
      Nat.min (clamp_k Sample.artifacts 2) (List.length probas) /\
    NoDup top_indices /\
    (forall i, In i top_indices -> (i < List.length probas)%nat) /\
    StronglySorted (fun i j => ascends probas j i) top_indices /\
    (forall i j, In i top_indices -> (j < List.length probas)%nat ->
                 ~ In j top_indices -> ascends probas j i) /\
    Forall2 (group_entry_of Sample.artifacts probas)
            (enumerate 1 top_indices) (predictions_grouped r) /\
    map (@g_rank Qc) (predictions_grouped r) =
      seq 1 (List.length top_indices) /\
    StronglySorted (fun p q => (g_score q <= g_score p)%Qc)
                   (predictions_grouped r) /\
    Forall (fun p => (0 <= g_score p)%Qc /\ (g_score p <= 1)%Qc)
           (predictions_grouped r).
Proof.
  apply (grouped_predictions_ranked Sample.artifacts Sample.example_input 2%Z
           Sample.classifier).
  - apply sample_valid_example.
  - apply sample_responsive.
  - reflexivity.
  - apply sample_probabilities.
Defined.



(** ** Validation, numeric fields and the encoding round trip *)

Section ValidationFacts.
Context {F : Type} {AF : Arith F} {RF : Rounding F} {Py : PyBuiltins}.
Variable A : Artifacts F.

Lemma check_numeric_inv cols (user_input : row F) :
  check_numeric cols user_input = inr tt ->
  forall c v, In c cols -> get_col c user_input = Some v -> float_ok v = true.
Proof.
  induction cols as [|col rest IH]; simpl; intros H c v Hin Hv; [contradiction|].
  destruct (get_col col user_input) as [v0|] eqn:E.
  - destruct (float_ok v0) eqn:Hok;
      [|destruct (float_overflows v0); discriminate].
    destruct Hin as [<-|Hin]; [congruence | eauto].
  - destruct Hin as [<-|Hin]; [congruence | eauto].
Qed.

(** The first numeric column, in schema order, whose value [float] does not
    convert, and the exception it raises. *)
Lemma check_numeric_first cols (user_input : row F) :
  (exists c v, In c cols /\ get_col c user_input = Some v /\
               float_ok v = false) ->
  exists before col after v,
    cols = before ++ col :: after /\
    get_col col user_input = Some v /\ float_ok v = false /\
    (forall c v', In c before -> get_col c user_input = Some v' ->
                  float_ok v' = true) /\
    check_numeric cols user_input =
      inl (if float_overflows v then OverflowError else NotANumber col v).
Proof.
  induction cols as [|col rest IH]; intros (c & v & Hin & Hv & Hbad).
  - contradiction.
  - simpl. destruct (get_col col user_input) as [v0|] eqn:E.
    + destruct (float_ok v0) eqn:Hok.
      * destruct IH as (before & col' & after & v' & -> & Hv' & Hbad' & Hbefore & Hrun).
        { destruct Hin as [<-|Hin]; [congruence | eauto]. }
        exists (col :: before), col', after, v'. repeat split; auto.
        intros c0 v1 [<-|Hc0] Hv1; [congruence | eauto].
      * exists [], col, rest, v0. repeat split; auto; try (intros ? ? []).
        now destruct (float_overflows v0).
    + destruct IH as (before & col' & after & v' & -> & Hv' & Hbad' & Hbefore & Hrun).
      { destruct Hin as [<-|Hin]; [congruence | eauto]. }
      exists (col :: before), col', after, v'. repeat split; auto.
      intros c0 v1 [<-|Hc0] Hv1; [congruence | eauto].
Qed.

(** X1.  [_validate_input] accepts a request exactly when every required
    feature column is a key of it and every numeric column that is a key of
    it holds a value [float] converts; nothing else is checked (neither the
    categorical values nor keys outside the schema). *)
Theorem validate_input_accepts_iff (user_input : row F) :
  _validate_input A user_input = inr tt <->
  (forall c, In c (feature_columns A) -> has_col c user_input = true) /\
  (forall c v, In c (numeric_columns A) -> get_col c user_input = Some v ->
               float_ok v = true).
Proof.
  split.
  - unfold _validate_input.
    destruct (missing_features A user_input) as [|m l] eqn:E; [|discriminate].
    intros H. split.
    + intros c Hc. destruct (has_col c user_input) eqn:Hhas; [reflexivity|].
      assert (Hin : In c (missing_features A user_input))
        by (apply missing_features_spec; auto).
      rewrite E in Hin. contradiction.
    + now apply check_numeric_inv.
  - intros [Hreq Hnum]. unfold _validate_input.
    destruct (missing_features A user_input) as [|c l] eqn:E.
    + now apply check_numeric_ok.
    + assert (Hc : In c (missing_features A user_input))
        by (rewrite E; now left).
      apply missing_features_spec in Hc as [Hin Hno].
      rewrite (Hreq c Hin) in Hno. discriminate.
Qed.

(** X2.  A request that has every required column and holds, in some numeric
    column, a value [float] does not convert makes [predict] fail at the first
    such column in the order of [numeric_columns], before any artifact is
    called: with the not-a-number error of that column, carrying the value
    received, when the value is no number, and with the [OverflowError] of
    [float], which validation does not catch, when the value is an integer too
    large for a float. *)
Theorem predict_rejects_non_numeric (user_input : row F) (top_k : Z) :
  (forall c, In c (feature_columns A) -> has_col c user_input = true) ->
  (exists c v, In c (numeric_columns A) /\ get_col c user_input = Some v /\
               float_ok v = false) ->
  exists before col after v,
    numeric_columns A = before ++ col :: after /\
    get_col col user_input = Some v /\ float_ok v = false /\
    (forall c v', In c before -> get_col c user_input = Some v' ->
                  float_ok v' = true) /\
    predict A user_input top_k =
      (inl (PredictionFailed
              (if float_overflows v then OverflowError else NotANumber col v)),
       []).
Proof.
  intros Hreq Hbad.
  destruct (check_numeric_first (numeric_columns A) user_input Hbad)
    as (before & col & after & v & Hsplit & Hv & Hno & Hbefore & Hrun).
  exists before, col, after, v. repeat split; auto.
  apply predict_validation_failure. unfold _validate_input.
  destruct (missing_features A user_input) as [|c l] eqn:E; [exact Hrun|].
  assert (Hc : In c (missing_features A user_input)) by (rewrite E; now left).
  apply missing_features_spec in Hc as [Hin Hmiss].
  rewrite (Hreq c Hin) in Hmiss. discriminate.
Qed.

End ValidationFacts.

Lemma predict_rejects_non_numeric_witness :
  (exists before col after v,
      Sample.numeric = before ++ col :: after /\
      get_col col request_with_huge_rating = Some v /\
      float_ok v = false /\
      (forall c v', In c before ->
                    get_col c request_with_huge_rating = Some v' ->
                    float_ok v' = true) /\
      predict Sample.artifacts request_with_huge_rating 5 =
        (inl (PredictionFailed
                (if float_overflows v then OverflowError
                 else NotANumber col v)), [])) /\
  predict Sample.artifacts request_with_huge_rating 5 =
    (inl (PredictionFailed OverflowError), []) /\
  predict Sample.artifacts request_with_spelled_life_span 5 =
    (inl (PredictionFailed (NotANumber "Life Span" (CStr "twelve"))), []).
Proof.
  split; [|split; reflexivity].
  apply (predict_rejects_non_numeric Sample.artifacts
           request_with_huge_rating 5%Z).
  - intros c Hc. simpl in Hc.
    repeat (destruct Hc as [<-|Hc]; [reflexivity|]). contradiction.
  - exists "Life Span", (CStr "twelve").
    split; [simpl; auto 10|]. split; reflexivity.
Defined.

Section EncodingFacts.
Context {F : Type} {AF : Arith F} {RF : Rounding F} {Py : PyBuiltins}.
Variable A : Artifacts F.

Lemma index_of_first s (l : list string) i :
  PyStr.index_of s l = Some i ->
  forall j, (j < i)%nat -> nth_error l j <> Some s.
Proof.
  revert i. induction l as [|x l IH]; simpl; intros i H j Hj; [discriminate|].
  destruct (String.eqb_spec s x) as [->|Hne].
  - inversion H; subst. lia.
  - destruct (PyStr.index_of s l) as [k|]; [|discriminate].
    inversion H; subst. destruct j as [|j]; simpl.
    + congruence.
    + apply (IH k eq_refl). lia.
Qed.

(** One encoder call per categorical column of the request, in schema order. *)
Lemma encode_categoricals_calls cols (user_input df0 df : row F) calls :
  (forall c, has_col c df0 = has_col c user_input) ->
  encode_categoricals A cols user_input df0 = (inr df, calls) ->
  calls = map EncoderTransform (filter (fun c => has_col c user_input) cols).
Proof.
  revert df0 calls.
  induction cols as [|col rest IH]; simpl; intros df0 calls Hkeys Hrun.
  - now inversion Hrun.
  - rewrite <- Hkeys. destruct (has_col col df0) eqn:Hcol.
    + destruct (get_col col user_input) as [v|]; [|discriminate].
      destruct (Dict.get String.eqb col (label_encoders A)) as [classes|];
        [|discriminate].
      destruct (encode_value classes v) as [i|]; [|discriminate].
      destruct (encode_categoricals A rest user_input
                  (set_col col (CInt (Z.of_nat i)) df0)) as [r c2] eqn:Hrest.
      inversion Hrun; subst. simpl. f_equal.
      apply (IH _ _ (fun c => eq_trans (has_col_set_col_present col c _ df0 Hcol)
                                       (Hkeys c)) Hrest).
    + now apply (IH df0).
Qed.

(** X3.  When the encoding loop of [predict] succeeds on a request (each
    categorical column listed once), the frame keeps the request's columns in
    their order; every categorical column of the request held a string and
    now holds the position of the first occurrence of that string in its
    encoder's classes, so that looking the code up in the classes gives the
    string back; every other column is untouched; and the encoders were
    called once per categorical column of the request, in schema order. *)
Theorem encoding_round_trip (user_input df : row F) (calls : list event) :
  NoDup (categorical_columns A) ->
  encode_categoricals A (categorical_columns A) user_input user_input =
    (inr df, calls) ->
  columns df = columns user_input /\
  calls = map EncoderTransform
              (filter (fun c => has_col c user_input) (categorical_columns A)) /\
  (forall c, ~ In c (categorical_columns A) ->
             get_col c df = get_col c user_input) /\
  (forall c, In c (categorical_columns A) -> has_col c user_input = true ->
     exists s classes i,
       get_col c user_input = Some (CStr s) /\
       Dict.get String.eqb c (label_encoders A) = Some classes /\
       get_col c df = Some (CInt (Z.of_nat i)) /\
       nth_error classes i = Some s /\
       (forall j, (j < i)%nat -> nth_error classes j <> Some s)).
Proof.
  intros _ Hrun.
  pose proof (encode_categoricals_calls _ _ _ _ _ (fun c => eq_refl) Hrun)
    as Hcalls.
  apply encode_categoricals_inv in Hrun as (Hcols & Hout & Hin);
    [|reflexivity].
  repeat split; auto.
  intros c Hc Hhas.
  destruct (Hin c Hc Hhas) as (v & classes & i & Hv & Hcl & Hi & Hg).
  destruct v as [s| | |]; try discriminate. simpl in Hi.
  exists s, classes, i. repeat split; auto.
  - now apply index_of_nth_error.
  - now apply index_of_first.
Qed.

End EncodingFacts.

Lemma encoding_round_trip_witness :
  exists df calls,
    encode_categoricals (F := Qc) Sample.artifacts Sample.categorical
      Sample.example_input Sample.example_input = (inr df, calls) /\
    columns df = columns (F := Qc) Sample.example_input /\
    calls = map EncoderTransform Sample.categorical /\
    get_col "Size" df = Some (CInt 2) /\
    nth_error ["Giant"; "Large"; "Medium"; "Small"; "Small-Medium"; "Toy"] 2 =
      Some "Medium".
Proof.
  eexists. eexists. split; [vm_compute; reflexivity|].
  destruct (encoding_round_trip (F := Qc) Sample.artifacts
              Sample.example_input _ _
              ltac:(simpl; repeat (constructor;
                                   [simpl; intuition discriminate|]);
                    constructor)
              eq_refl)
    as (Hcols & Hcalls & _ & _).
  split; [exact Hcols|]. split; [exact Hcalls|]. split; reflexivity.
Defined.

(** ** The weights of the encoded categories *)

Section WeightFacts.
Context {F : Type} {AF : Arith F}.
Variable A : Artifacts F.

Lemma index_of_nodup (l : list string) i s :
  NoDup l -> nth_error l i = Some s -> PyStr.index_of s l = Some i.
Proof.
  intros Hnd. revert i. induction Hnd as [|x l Hx Hnd IH]; intros i H.
  - destruct i; discriminate.
  - simpl. destruct i as [|i]; simpl in H.
    + inversion H; subst. now rewrite String.eqb_refl.
    + destruct (String.eqb_spec s x) as [->|Hne].
      * apply nth_error_In in H. contradiction.
      * now rewrite (IH i H).
Qed.

(** The keys of the mapping are codes of classes. *)
Lemma fold_weights_keys (w : string -> F) classes todo acc z x :
  Dict.get Z.eqb z
    (fold_left
       (fun mapping c =>
          match PyStr.index_of c classes with
          | Some encoded => Dict.set Z.eqb (Z.of_nat encoded) (w c) mapping
          | None => mapping
          end) todo acc) = Some x ->
  (exists k, z = Z.of_nat k /\ (k < List.length classes)%nat) \/
  Dict.get Z.eqb z acc = Some x.
Proof.
  revert acc. induction todo as [|c todo IH]; simpl; intros acc H; [now right|].
  apply IH in H as [H|H]; [now left|].
  destruct (PyStr.index_of c classes) as [e|] eqn:He; [|now right].
  destruct (Z.eqb_spec z (Z.of_nat e)) as [->|Hne].
  - left. exists e. split; [reflexivity|].
    apply index_of_nth_error in He. apply nth_error_Some. congruence.
  - right. now rewrite (dict_get_set_other Z.eqb Z.eqb_spec) in H.
Qed.

(** X4.  For a column whose encoder has distinct classes, the weight table
    built by [_encoded_weights] maps every code the encoder can produce, and
    no other integer, to a weight: the code [z] of class [cls] is mapped to
    the weight listed for [cls.strip().lower()], or to the default when the
    name is not listed, and [Series.map] leaves NaN for every integer that is
    not the code of a class. *)
Theorem encoded_weights_cover_codes (column : string)
  (name_to_weight : list (string * F)) (default : F)
  (classes : list string) (z : Z) :
  Dict.get String.eqb column (label_encoders A) = Some classes ->
  NoDup classes ->
  series_map (_encoded_weights A column name_to_weight default) (CInt z) =
  match (if (0 <=? z)%Z then nth_error classes (Z.to_nat z) else None) with
  | Some cls => CFloat (name_weight name_to_weight default cls)
  | None => CNaN
  end.
Proof.
  intros Henc Hnd.
  destruct (if (0 <=? z)%Z then nth_error classes (Z.to_nat z) else None)
    as [cls|] eqn:Hz.
  - destruct (Z.leb_spec 0 z) as [Hpos|]; [|discriminate].
    rewrite <- (Z2Nat.id z Hpos).
    apply (series_map_encoded A column name_to_weight default classes cls);
      [assumption|].
    now apply index_of_nodup.
  - unfold series_map, _encoded_weights. rewrite Henc. cbn [obind].
    destruct (Dict.get Z.eqb z _) as [x|] eqn:Hget; [|reflexivity].
    apply fold_weights_keys in Hget as [(k & -> & Hk)|Hget]; [|discriminate].
    rewrite Nat2Z.id in Hz.
    destruct (Z.leb_spec 0 (Z.of_nat k)) as [_|]; [|lia].
    apply nth_error_None in Hz. lia.
Qed.

End WeightFacts.

Lemma encoded_weights_cover_codes_witness :
  series_map (_encoded_weights (F := Qc) Sample.artifacts "Good with Children"
                [("yes", dec 10 1); ("with training", dec 5 1); ("no", dec 0 1)]
                (dec 0 1)) (CInt 1) =
  CFloat (name_weight
            [("yes", dec 10 1); ("with training", dec 5 1); ("no", dec 0 1)]
            (dec 0 1) "With Training") /\
  series_map (_encoded_weights (F := Qc) Sample.artifacts "Good with Children"
                [("yes", dec 10 1); ("with training", dec 5 1); ("no", dec 0 1)]
                (dec 0 1)) (CInt 3) = CNaN.
Proof.
  assert (Hnd : NoDup ["No"; "With Training"; "Yes"]).
  { repeat (constructor; [simpl; intuition discriminate|]). constructor. }
  split.
  - apply (encoded_weights_cover_codes (F := Qc) Sample.artifacts
             "Good with Children" _ _ ["No"; "With Training"; "Yes"] 1%Z
             eq_refl Hnd).
  - apply (encoded_weights_cover_codes (F := Qc) Sample.artifacts
             "Good with Children" _ _ ["No"; "With Training"; "Yes"] 3%Z
             eq_refl Hnd).
Defined.

(** ** The frame through [_create_derived_features] *)

Section DerivedFrame.
Context {F : Type} {AF : Arith F}.
Variable A : Artifacts F.

Lemma columns_set_col (c : string) (v : cell F) (df : row F) :
  columns (set_col c v df) =
  if has_col c df then columns df else columns df ++ [c].
Proof.
  unfold columns, set_col, has_col, Dict.has.
  induction df as [|[c' v'] df IH]; simpl; [reflexivity|].
  destruct (String.eqb_spec c c') as [->|Hne]; simpl; [reflexivity|].
  rewrite IH. now destruct (Dict.get String.eqb c df).
Qed.

Ltac stage H :=
  repeat match type of H with
         | (if ?b then _ else _) = _ => destruct b
         | obind ?o _ = _ => destruct o; cbn [obind] in H
         end;
  try discriminate H;
  inversion H; subst;
  first [ now left | right; do 2 eexists; split; [|reflexivity]; simpl; tauto ].

Lemma stages_assign_derived :
  Forall assigns_derived
         [family_compatibility A; maintenance A; energy (F := F);
          intelligence_training_ratio (F := F); size_score A].
Proof.
  repeat (apply Forall_cons; [intros df df' H|]); [| | | | | apply Forall_nil].
  - unfold family_compatibility in H. stage H.
  - unfold maintenance in H. stage H.
  - unfold energy in H. stage H.
  - unfold intelligence_training_ratio in H. stage H.
  - unfold size_score in H. stage H.
Qed.

Lemma run_until_exception_frame steps (df : row F) :
  Forall assigns_derived steps ->
  (forall c, ~ In c derived_cols ->
             get_col c (run_until_exception steps df) = get_col c df) /\
  (exists added,
      columns (run_until_exception steps df) = columns df ++ added /\
      NoDup added /\
      forall c, In c added -> In c derived_cols /\ has_col c df = false).
Proof.
  intros Hsteps. revert df.
  induction Hsteps as [|step steps Hstep _ IH]; intros df; simpl.
  - split; [reflexivity|]. exists []. rewrite app_nil_r.
    repeat split; [constructor | contradiction | contradiction].
  - destruct (step df) as [df'|] eqn:E.
    2:{ split; [reflexivity|]. exists []. rewrite app_nil_r.
        repeat split; [constructor | contradiction | contradiction]. }
    destruct (IH df') as (Hkeep & added & Hcols & Hnd & Hadded).
    destruct (Hstep df df' E) as [->|(c & v & Hc & ->)].
    + split; [exact Hkeep|]. exists added. auto.
    + split.
      * intros c' Hc'. rewrite Hkeep by assumption.
        apply (dict_get_set_other String.eqb String.eqb_spec).
        intros ->. contradiction.
      * rewrite Hcols, columns_set_col.
        assert (Hother : forall c', In c' added ->
                  In c' derived_cols /\ has_col c' df = false /\ c' <> c).
        { intros c' Hc'. destruct (Hadded c' Hc') as [Hd Hno].
          rewrite has_col_set_col in Hno. apply orb_false_iff in Hno as [Hne Hno].
          repeat split; auto. intros ->. now rewrite String.eqb_refl in Hne. }
        destruct (has_col c df) eqn:Hhas.
        -- exists added. split; [reflexivity|]. split; [assumption|].
           intros c' Hc'. split; now apply Hother.
        -- exists (c :: added). rewrite <- app_assoc.
           split; [reflexivity|]. split.
           ++ constructor; [|assumption]. intros Hin.
              now apply Hother in Hin as (_ & _ & Hne).
           ++ intros c' [<-|Hc']; [split; assumption | split; now apply Hother].
Qed.

(** X5.  Whatever the frame holds, and whether or not a formula raises,
    [_create_derived_features] returns a frame in which the columns of the
    input are still there, in their order, followed by the derived columns it
    added (each once, none that the input already had), and in which no
    column other than the five derived ones has changed its value. *)
Theorem derived_features_keep_the_frame (df : row F) :
  (forall c, ~ In c derived_cols ->
             get_col c (_create_derived_features A df) = get_col c df) /\
  (exists added,
      columns (_create_derived_features A df) = columns df ++ added /\
      NoDup added /\
      forall c, In c added -> In c derived_cols /\ has_col c df = false).
Proof.
  apply run_until_exception_frame, stages_assign_derived.
Qed.

End DerivedFrame.

Section DerivedValues.
Context {F : Type} {AF : Arith F}.
Variable A : Artifacts F.

Lemma series_map_number (mapping : list (Z * F)) (c : cell F) :
  is_number (series_map mapping c) = true.
Proof. unfold series_map. now destruct (obind _ _). Qed.

Lemma mul_lit_number (c : cell F) (k : F) :
  is_number c = true ->
  exists v, mul_lit c k = Some v /\ is_number v = true.
Proof. destruct c; simpl; intros H; try discriminate; eauto. Qed.

Lemma rsub_int_number (n : Z) (c : cell F) :
  is_number c = true ->
  exists v, rsub_int n c = Some v /\ is_number v = true.
Proof. destruct c; simpl; intros H; try discriminate; eauto. Qed.

Lemma add_int_number (c : cell F) (n : Z) :
  is_number c = true ->
  exists v, add_int c n = Some v /\ is_number v = true.
Proof. destruct c; simpl; intros H; try discriminate; eauto. Qed.

Lemma add_cells_number (a b : cell F) :
  is_number a = true -> is_number b = true ->
  exists v, add_cells a b = Some v /\ is_number v = true.
Proof. destruct a, b; simpl; intros Ha Hb; try discriminate; eauto. Qed.

Lemma div_cells_number (a b : cell F) :
  is_number a = true -> is_number b = true ->
  exists v, div_cells a b = Some v /\ is_number v = true.
Proof. destruct a, b; simpl; intros Ha Hb; try discriminate; eauto. Qed.

Lemma number_kept (c d : string) (v : cell F) (df : row F) :
  is_number v = true ->
  (exists x, get_col c df = Some x /\ is_number x = true) ->
  exists x, get_col c (set_col d v df) = Some x /\ is_number x = true.
Proof.
  intros Hv Hc. unfold get_col, set_col.
  destruct (String.eqb_spec c d) as [->|Hne].
  - rewrite (dict_get_set_same String.eqb String.eqb_spec). eauto.
  - now rewrite (dict_get_set_other String.eqb String.eqb_spec).
Qed.

Lemma number_has_col (c : string) (df : row F) :
  (exists x, get_col c df = Some x /\ is_number x = true) ->
  has_col c df = true.
Proof.
  intros (x & Hx & _). unfold has_col, Dict.has. fold (get_col c df).
  now rewrite Hx.
Qed.

Ltac source H c :=
  let v := fresh "v" in
  let Hv := fresh "Hv" in
  let Hn := fresh "Hn" in
  destruct (H c ltac:(simpl; tauto)) as (v & Hv & Hn);
  rewrite ?(number_has_col c _ (H c ltac:(simpl; tauto)));
  rewrite ?Hv; cbn [obind andb].

Ltac operate lemma :=
  let v := fresh "w" in
  let Hv := fresh "Hw" in
  let Hn := fresh "Hm" in
  destruct lemma as (v & Hv & Hn); rewrite ?Hv; cbn [obind].

Lemma family_compatibility_number (df : row F) :
  (forall c, In c derived_sources ->
             exists v, get_col c df = Some v /\ is_number v = true) ->
  exists v, is_number v = true /\
            family_compatibility A df =
            Some (set_col "Family_Compatibility_Score" v df).
Proof.
  intros H. unfold family_compatibility.
  source H "Good with Children". source H "Friendly Rating (1-10)".
  source H "Training Difficulty (1-10)".
  operate (mul_lit_number (series_map (children_weights A) v) (dec 4 1)
             (series_map_number _ _)).
  operate (mul_lit_number v0 (dec 1 1) Hn0).
  operate (add_cells_number w w0 Hm Hm0).
  operate (rsub_int_number 10 v1 Hn1).
  operate (mul_lit_number w2 (dec 1 1) Hm2).
  operate (add_cells_number w1 w3 Hm1 Hm3).
  eauto.
Qed.

Lemma maintenance_number (df : row F) :
  (forall c, In c derived_sources ->
             exists v, get_col c df = Some v /\ is_number v = true) ->
  exists v, is_number v = true /\
            maintenance A df = Some (set_col "Maintenance_Score" v df).
Proof.
  intros H. unfold maintenance.
  source H "Shedding Level". source H "Exercise Requirements (hrs/day)".
  source H "Health Issues Risk".
  operate (mul_lit_number (series_map (shedding_weights A) v) (dec 3 1)
             (series_map_number _ _)).
  operate (mul_lit_number v0 (dec 2 1) Hn0).
  operate (add_cells_number w w0 Hm Hm0).
  operate (mul_lit_number (series_map (health_weights A) v1) (dec 3 1)
             (series_map_number _ _)).
  operate (add_cells_number w1 w2 Hm1 Hm2).
  eauto.
Qed.

Lemma energy_number (df : row F) :
  (forall c, In c derived_sources ->
             exists v, get_col c df = Some v /\ is_number v = true) ->
  exists v, is_number v = true /\
            energy df = Some (set_col "Energy_Score" v df).
Proof.
  intros H. unfold energy.
  source H "Exercise Requirements (hrs/day)".
  source H "Intelligence Rating (1-10)".
  operate (mul_lit_number v (dec 4 1) Hn).
  operate (mul_lit_number v0 (dec 1 1) Hn0).
  operate (add_cells_number w w0 Hm Hm0).
  eauto.
Qed.

Lemma intelligence_training_ratio_number (df : row F) :
  (forall c, In c derived_sources ->
             exists v, get_col c df = Some v /\ is_number v = true) ->
  exists v, is_number v = true /\
            intelligence_training_ratio df =
            Some (set_col "Intelligence_Training_Ratio" v df).
Proof.
  intros H. unfold intelligence_training_ratio.
  source H "Intelligence Rating (1-10)".
  source H "Training Difficulty (1-10)".
  operate (add_int_number v0 1 Hn0).
  operate (div_cells_number v w Hn Hm).
  eauto.
Qed.

Lemma size_score_number (df : row F) :
  (forall c, In c derived_sources ->
             exists v, get_col c df = Some v /\ is_number v = true) ->
  exists v, is_number v = true /\
            size_score A df = Some (set_col "Size_Score" v df).
Proof.
  intros H. unfold size_score. source H "Size".
  exists (series_map (size_weights A) v). split; [|reflexivity].
  apply series_map_number.
Qed.


End DerivedValues.


(** ** The aligned frame *)

Section Alignment.
Context {F : Type} {AF : Arith F}.
Variable A : Artifacts F.

Lemma mem_In (s : string) (l : list string) : PyStr.mem s l = true <-> In s l.
Proof.
  unfold PyStr.mem. rewrite existsb_exists. split.
  - intros (x & Hx & E). apply String.eqb_eq in E. now subst.
  - intros H. exists s. split; [assumption | apply String.eqb_refl].
Qed.

Lemma mem_app_other (c x : string) (l : list string) :
  c <> x -> PyStr.mem c (l ++ [x]) = PyStr.mem c l.
Proof.
  intros Hne. unfold PyStr.mem. rewrite existsb_app. simpl.
  destruct (String.eqb_spec c x); [contradiction|].
  now rewrite !orb_false_r.
Qed.

Lemma append_absent (extra start : list string) :
  NoDup extra ->
  fold_left (fun expected col => if PyStr.mem col expected then expected
                                 else expected ++ [col]) extra start =
  start ++ filter (fun c => negb (PyStr.mem c start)) extra.
Proof.
  intros Hnd. revert start.
  induction Hnd as [|x extra Hx Hnd IH]; intros start; simpl.
  - now rewrite app_nil_r.
  - destruct (PyStr.mem x start) eqn:E; simpl; [apply IH|].
    rewrite IH, <- app_assoc. simpl. do 2 f_equal.
    apply filter_ext_in. intros c Hc. rewrite mem_app_other; [reflexivity|].
    intros ->. contradiction.
Qed.

Lemma get_col_reindex_absent (expected : list string) (user_df : row F) c :
  ~ In c expected -> get_col c (reindex expected user_df) = None.
Proof.
  intros H. destruct (get_col c (reindex expected user_df)) eqn:E;
    [|reflexivity].
  exfalso. apply H. rewrite <- (columns_reindex expected user_df).
  apply (dict_has_In String.eqb String.eqb_spec).
  apply (dict_has_true String.eqb). eauto.
Qed.

Lemma derived_cols_expected c :
  In c derived_cols -> In c (expected_columns A).
Proof.
  intros Hc. unfold expected_columns. rewrite append_absent.
  - apply in_or_app.
    destruct (PyStr.mem c (feature_columns A)) eqn:E.
    + left. now apply mem_In.
    + right. apply filter_In. now rewrite E.
  - repeat (constructor; [simpl; intuition discriminate|]). constructor.
Qed.

(** X7.  The columns [predict] aligns the frame to are the schema's feature
    columns, in schema order, followed by those of the five derived columns
    that the schema does not list, in their fixed order.  The aligned frame
    has exactly these columns in this order: a column the frame had keeps its
    value, a column it lacked is filled with [0], and every other column of
    the frame (a key of the request outside the schema) is dropped. *)
Theorem aligned_frame_columns (user_df : row F) :
  expected_columns A =
    feature_columns A ++
    filter (fun c => negb (PyStr.mem c (feature_columns A))) derived_cols /\
  columns (reindex (expected_columns A) user_df) = expected_columns A /\
  (forall c, In c (expected_columns A) ->
     get_col c (reindex (expected_columns A) user_df) =
     Some (match get_col c user_df with Some v => v | None => CInt 0 end)) /\
  (forall c, ~ In c (expected_columns A) ->
     get_col c (reindex (expected_columns A) user_df) = None).
Proof.
  split; [|split; [|split]].
  - unfold expected_columns. apply append_absent.
    repeat (constructor; [simpl; intuition discriminate|]). constructor.
  - apply columns_reindex.
  - intros c Hc. now apply get_col_reindex.
  - intros c Hc. now apply get_col_reindex_absent.
Qed.

(** X8.  When the friendliness rating of the request is a string (validation
    accepts it whenever [float] converts it) and the two other columns of the
    family score are present, the first formula raises: the derived-feature
    stage returns the encoded frame unchanged, and in the aligned frame every
    derived column the request did not send is [0], including the columns
    whose formulas do not read the rating. *)
Theorem text_rating_zeroes_derived_features
  (user_input df : row F) (calls : list event) (s : string) :
  encode_categoricals A (categorical_columns A) user_input user_input =
    (inr df, calls) ->
  ~ In "Friendly Rating (1-10)" (categorical_columns A) ->
  has_col "Good with Children" user_input = true ->
  has_col "Training Difficulty (1-10)" user_input = true ->
  get_col "Friendly Rating (1-10)" user_input = Some (CStr s) ->
  _create_derived_features A df = df /\
  forall c, In c derived_cols -> has_col c user_input = false ->
    get_col c (reindex (expected_columns A) (_create_derived_features A df)) =
    Some (CInt 0).
Proof.
  intros Hrun Hfr Hgc Htd Hs.
  apply encode_categoricals_inv in Hrun as (Hcols & Hout & _); [|reflexivity].
  assert (Hhas : forall c, has_col c df = has_col c user_input).
  { intros c. apply eq_true_iff_eq. unfold has_col.
    rewrite !(dict_has_In String.eqb String.eqb_spec).
    change (In c (columns df) <-> In c (columns user_input)).
    now rewrite Hcols. }
  assert (Hsame : _create_derived_features A df = df).
  { unfold _create_derived_features, run_until_exception, family_compatibility.
    rewrite !Hhas, Hgc, Htd.
    assert (Hfr' : has_col "Friendly Rating (1-10)" user_input = true).
    { unfold has_col, Dict.has. fold (get_col "Friendly Rating (1-10)" user_input).
      now rewrite Hs. }
    rewrite Hfr'. cbn [andb].
    destruct (get_col "Good with Children" df) as [gc'|] eqn:Egc.
    2:{ reflexivity. }
    cbn [obind].
    destruct (mul_lit_number (series_map (children_weights A) gc') (dec 4 1)
                (series_map_number _ _)) as (w & -> & _).
    cbn [obind]. rewrite (Hout _ Hfr), Hs. reflexivity. }
  split; [exact Hsame|].
  intros c Hc Hno. rewrite Hsame.
  rewrite get_col_reindex by now apply derived_cols_expected.
  rewrite <- Hhas in Hno. unfold has_col, Dict.has in Hno.
  fold (get_col c df) in Hno. now destruct (get_col c df).
Qed.

End Alignment.

Lemma text_rating_zeroes_derived_features_witness :
  _validate_input Sample.artifacts request_with_quoted_rating = inr tt /\
  exists df calls,
    encode_categoricals Sample.artifacts Sample.categorical
      request_with_quoted_rating request_with_quoted_rating = (inr df, calls) /\
    _create_derived_features Sample.artifacts df = df /\
    forall c, In c derived_cols ->
      get_col c (reindex (expected_columns Sample.artifacts)
                   (_create_derived_features Sample.artifacts df)) =
      Some (CInt 0).
Proof.
  split; [reflexivity|].
  eexists. eexists. split; [vm_compute; reflexivity|].
  destruct (text_rating_zeroes_derived_features Sample.artifacts
              request_with_quoted_rating _ _ "8" eq_refl
              ltac:(simpl; intuition discriminate) eq_refl eq_refl eq_refl)
    as [Hsame Hzero].
  split; [exact Hsame|].
  intros c Hc. apply Hzero; [exact Hc|].
  simpl in Hc. repeat (destruct Hc as [<-|Hc]; [reflexivity|]). contradiction.
Defined.

(** ** The calls of a run, and the two ways a model can fail *)

Section Runs.
Context {F : Type} {AF : Arith F} {RF : Rounding F} {Py : PyBuiltins}.
Variable A : Artifacts F.

Lemma prepare_inr_inv user_input user_df calls :
  prepare A user_input = (inr user_df, calls) ->
  exists encoded c0 selected scaled,
    _validate_input A user_input = inr tt /\
    encode_categoricals A (categorical_columns A) user_input user_input =
      (inr encoded, c0) /\
    select_columns (numeric_columns A)
      (reindex (expected_columns A) (_create_derived_features A encoded)) =
      inr selected /\
    robust_scaler A selected = inr scaled /\
    List.length scaled = List.length (numeric_columns A) /\
    user_df = assign_columns (numeric_columns A) scaled
                (reindex (expected_columns A)
                   (_create_derived_features A encoded)) /\
    calls = c0 ++ [ScalerTransform].
Proof.
  unfold prepare. destruct (_validate_input A user_input) as [e|[]];
    [discriminate|].
  rewrite bind_lift_inr. intros H.
  apply bind_inr_inv in H as (encoded & c0 & c1 & He & Hs & ->).
  unfold scale_numeric, lift, call in Hs.
  destruct (select_columns _ _) as [e|selected] eqn:Hsel; [discriminate|].
  unfold bind in Hs.
  destruct (robust_scaler A selected) as [e|scaled] eqn:Hsc; [discriminate|].
  destruct (Nat.eqb_spec (List.length scaled) (List.length (numeric_columns A)))
    as [Hlen|Hlen]; [|discriminate].
  simpl in Hs. inversion Hs; subst.
  exists encoded, c0, selected, scaled. auto 10.
Qed.

Lemma group_predictions_trace user_df k grouped calls :
  _generate_group_predictions A user_df k = (inr grouped, calls) ->
  calls = match predict_proba A with
          | Some _ => [PredictProba]
          | None => []
          end /\
  (predict_proba A = None -> grouped = []).
Proof.
  unfold _generate_group_predictions.
  destruct (predict_proba A) as [f|].
  - unfold bind, call, lift. destruct (f user_df) as [e|probas];
      [discriminate|].
    intros H. inversion H. split; [reflexivity | discriminate].
  - intros H. inversion H. auto.
Qed.

(** X9.  Every successful run of [predict] makes its calls on the request's
    data in one fixed order: the encoder of each categorical column of the
    request (listed once each), in schema order; the scaler, once; the
    classifier, once, when it supports probabilities; and the similarity
    index, once, asked for [min(k, len(X_enhanced))] neighbours with [k] the
    clamped [top_k].  Without probability support the grouped predictions
    are empty.  (The look-ups of the class weights inside
    [_create_derived_features] do not read the request and are not among the
    recorded calls.) *)
Theorem predict_call_sequence (user_input : row F) (top_k : Z)
  (r : PredictResult F) (calls : list event) :
  NoDup (categorical_columns A) ->
  predict A user_input top_k = (inr r, calls) ->
  calls =
    map EncoderTransform
        (filter (fun c => has_col c user_input) (categorical_columns A)) ++
    [ScalerTransform] ++
    match predict_proba A with
    | Some _ => [PredictProba]
    | None => []
    end ++
    [Kneighbors (Nat.min (clamp_k A top_k) (X_enhanced_len A))] /\
  (predict_proba A = None -> predictions_grouped r = []).
Proof.
  intros _ Hrun.
  apply predict_inr_iff in Hrun
    as (user_df & c0 & grouped & c1 & suggestions & c2
        & Hp & Hg & Hs & -> & ->).
  apply prepare_inr_inv in Hp
    as (encoded & c & selected & scaled & _ & He & _ & _ & _ & _ & ->).
  apply encode_categoricals_calls in He; [|reflexivity].
  apply group_predictions_trace in Hg as [-> Hnone].
  destruct (find_similar_breeds_total A user_df (clamp_k A top_k))
    as (s' & Hs').
  rewrite Hs in Hs'. inversion Hs'; subst.
  split; [|exact Hnone]. now rewrite <- app_assoc.
Qed.

(** X10.  When the classifier raises on the prepared frame, [predict] fails
    with that exception wrapped in its own, right after the classifier call:
    the similarity index is never queried and no suggestion is computed. *)
Theorem classifier_failure_stops_predict (user_input : row F) (top_k : Z)
  (user_df : row F) (c0 : list event)
  (model_predict_proba : row F -> pyexn F + list F) (e : pyexn F) :
  prepare A user_input = (inr user_df, c0) ->
  predict_proba A = Some model_predict_proba ->
  model_predict_proba user_df = inl e ->
  predict A user_input top_k =
    (inl (PredictionFailed e), c0 ++ [PredictProba]) /\
  filter is_kneighbors (c0 ++ [PredictProba]) = [].
Proof.
  intros Hp Hf He. split.
  - unfold predict. rewrite predict_body_prepare, Hp.
    unfold bind at 1. unfold _generate_group_predictions.
    rewrite Hf. unfold bind, call. rewrite He. simpl.
    now rewrite app_nil_r.
  - apply prepare_calls in Hp. rewrite filter_app. simpl.
    rewrite app_nil_r. clear -Hp.
    induction c0 as [|ev c0 IH]; [reflexivity|].
    simpl in *. apply orb_false_iff in Hp as [Hev Hc0].
    destruct ev; simpl in *; try discriminate; auto.
Qed.

Lemma similar_entries_fail top_k max_sim items i d idx :
  In (i, (d, idx)) items -> (i < top_k)%nat ->
  (exists e, breed_name_at A idx = inl e) \/
  (exists e, group_label_at A idx = inl e) ->
  exists e, similar_entries A top_k max_sim items = inl e.
Proof.
  intros Hin Hi Hbad.
  induction items as [|[i' [d' idx']] rest IH]; [contradiction|].
  simpl. destruct Hin as [E|Hin].
  - inversion E; subst. apply Nat.ltb_lt in Hi. rewrite Hi.
    destruct Hbad as [[e He]|[e He]].
    + rewrite He. simpl. eauto.
    + destruct (breed_name_at A idx) as [e'|b]; simpl; [eauto|].
      rewrite He. simpl. eauto.
  - destruct (IH Hin) as [e He].
    destruct (i' <? top_k)%nat; [|eauto].
    destruct (breed_name_at A idx') as [e'|b]; simpl; [eauto|].
    destruct (group_label_at A idx') as [e'|g]; simpl; [eauto|].
    rewrite He. simpl. eauto.
Qed.

(** X11.  When the index answers and one of the neighbours it returns,
    among the first [top_k], is a position outside the breed labels or the
    group labels, [_find_similar_breeds] returns no suggestion at all: the
    suggestions already built for the neighbours before it are dropped with
    it, and no error is raised. *)
Theorem one_bad_position_drops_all_suggestions (user_df : row F)
  (top_k : nat) (distances : list F) (indices : list nat)
  (i : nat) (d : F) (idx : nat) :
  kneighbors A user_df (Nat.min top_k (X_enhanced_len A)) =
    inr (distances, indices) ->
  In (i, (d, idx)) (enumerate 0 (combine distances indices)) ->
  (i < top_k)%nat ->
  (exists e, breed_name_at A idx = inl e) \/
  (exists e, group_label_at A idx = inl e) ->
  _find_similar_breeds A user_df top_k =
  (inr [], [Kneighbors (Nat.min top_k (X_enhanced_len A))]).
Proof.
  intros Hk Hin Hi Hbad.
  destruct (similar_entries_fail top_k (max_similarity distances) _ i d idx
              Hin Hi Hbad) as [e He].
  unfold _find_similar_breeds, catch, bind, call, lift.
  now rewrite Hk, He.
Qed.

End Runs.

Lemma predict_call_sequence_witness :
  exists r calls,
    predict (F := Qc) Sample.artifacts Sample.example_input 3 =
      (inr r, calls) /\
    calls =
      [EncoderTransform "Size"; EncoderTransform "Good with Children";
       EncoderTransform "Shedding Level"; EncoderTransform "Health Issues Risk";
       EncoderTransform "Type"; ScalerTransform; PredictProba; Kneighbors 3].
Proof.
  destruct (predict_succeeds (F := Qc) Sample.artifacts Sample.example_input 3
              sample_valid_example sample_responsive) as (r & calls & Hrun).
  exists r, calls. split; [exact Hrun|].
  destruct (predict_call_sequence (F := Qc) Sample.artifacts
              Sample.example_input 3 r calls
              ltac:(simpl; repeat (constructor;
                                   [simpl; intuition discriminate|]);
                    constructor)
              Hrun) as [-> _].
  reflexivity.
Defined.

Lemma classifier_failure_stops_predict_witness :
  exists user_df c0,
    prepare artifacts_with_failing_classifier Sample.example_input =
      (inr user_df, c0) /\
    predict artifacts_with_failing_classifier Sample.example_input 3 =
      (inl (PredictionFailed
              (ArtifactError "X has 16 features, but expected 17")),
       c0 ++ [PredictProba]) /\
    filter is_kneighbors (c0 ++ [PredictProba]) = [].
Proof.
  eexists. eexists. split; [vm_compute; reflexivity|].
  eapply (classifier_failure_stops_predict artifacts_with_failing_classifier
            Sample.example_input 3%Z);
    [vm_compute; reflexivity | reflexivity | reflexivity].
Defined.

Lemma one_bad_position_drops_all_suggestions_witness :
  breed_name_at artifacts_with_stale_index 1 = inr "Border Collie" /\
  _find_similar_breeds artifacts_with_stale_index Sample.example_input 3 =
  (inr [], [Kneighbors 3]).
Proof.
  split; [reflexivity|].
  apply (one_bad_position_drops_all_suggestions artifacts_with_stale_index
           Sample.example_input 3 [dec 5 1; of_Z 1; of_Z 3]
           [1; 7; 0]%nat 1 (of_Z 1) 7).
  - reflexivity.
  - simpl. auto.
  - lia.
  - left. eexists. reflexivity.
Defined.

(** ** The number of suggestions, for every [top_k] *)

Section Count.
Local Open Scope Qc_scope.
Context {Py : PyBuiltins}.
Variable A : Artifacts Qc.

Lemma clamp_k_range top_k :
  (1 <= List.length (breed_names A))%nat ->
  (1 <= clamp_k A top_k <= List.length (breed_names A))%nat.
Proof. unfold clamp_k. lia. Qed.

(** One suggestion per neighbour asked for, ranked from 1. *)
Lemma suggestions_counted user_df k :
  sound_index A -> aligned_catalog A ->
  (1 <= k <= List.length (breed_names A))%nat ->
  exists suggestions,
    _find_similar_breeds A user_df k = (inr suggestions, [Kneighbors k]) /\
    List.length suggestions = k /\
    map (@rank Qc) suggestions = seq 1 k.
Proof.
  intros Hsound Hcat Hk.
  pose proof (catalog_size Hcat) as Hsize.
  assert (Hn : Nat.min k (X_enhanced_len A) = k) by lia.
  destruct (index_answers Hcat user_df (n := k))
    as (distances & indices & Hq & Hrange); [lia|].
  destruct (Hsound _ _ _ _ Hq) as (Hld & Hli & Hsorted & Hpos).
  set (items := enumerate 0 (combine distances indices)).
  destruct (similar_entries_ok A k (max_similarity distances) items)
    as [entries Hentries].
  { intros [i [d idx]] Hin. apply catalog_lookup; [assumption|].
    apply enumerate_In, in_combine_r in Hin.
    rewrite Forall_forall in Hrange. simpl. auto. }
  assert (Hshape : Forall2 (suggestion_of A distances) items entries).
  { apply (similar_entries_inv A _ _ _ _ Hentries); [|assumption].
    intros item Hin. apply (neighbours_within _ distances indices);
      [lia | assumption]. }
  exists entries. split.
  { rewrite <- Hn in Hq.
    rewrite (find_similar_breeds_answered A _ _ _ _ Hq). fold items.
    now rewrite Hentries, Hn. }
  assert (Hlen : List.length entries = k).
  { rewrite <- (Forall2_length Hshape). unfold items.
    rewrite length_enumerate, length_combine. lia. }
  split; [exact Hlen|].
  rewrite <- Hlen at 1. rewrite <- (Forall2_length Hshape). unfold items.
  rewrite length_enumerate, <- seq_shift, <- (map_fst_enumerate 0).
  fold items. clear -Hshape.
  induction Hshape as [|a s l l' Has HE IH]; simpl; [reflexivity|].
  destruct Has as (-> & _). rewrite IH. f_equal. lia.
Qed.

(** X12.  For a valid request and every integer [top_k], also zero, negative
    or larger than the catalog, with a well-formed index over an aligned,
    non-empty catalog, [predict] returns exactly
    [max(1, min(top_k, len(breed_names)))] suggestions, ranked 1, 2, ...:
    never none, and never more than there are breeds. *)
Theorem suggestions_counted_for_every_top_k (user_input : row Qc) (top_k : Z) :
  valid_input A user_input -> responsive A ->
  sound_index A -> aligned_catalog A ->
  (1 <= List.length (breed_names A))%nat ->
  exists r calls,
    predict A user_input top_k = (inr r, calls) /\
    Z.of_nat (List.length (predictions r)) =
      Z.max 1 (Z.min top_k (Z.of_nat (List.length (breed_names A)))) /\
    map (@rank Qc) (predictions r) = seq 1 (List.length (predictions r)).
Proof.
  intros Hvalid Hresp Hsound Hcat Hn.
  destruct (predict_succeeds A user_input top_k Hvalid Hresp)
    as (r & calls & Hrun).
  exists r, calls. split; [exact Hrun|].
  apply predict_inr_iff in Hrun
    as (user_df & c0 & grouped & c1 & suggestions & c2
        & Hp & Hg & Hs & -> & ->).
  destruct (suggestions_counted user_df (clamp_k A top_k) Hsound Hcat
              (clamp_k_range top_k Hn)) as (l & Hl & Hlen & Hranks).
  rewrite Hs in Hl. inversion Hl; subst l. simpl.
  rewrite Hlen. split; [unfold clamp_k; lia | exact Hranks].
Qed.

End Count.

Lemma suggestions_counted_for_every_top_k_witness :
  (exists r calls,
      predict Sample.artifacts Sample.example_input (-7) = (inr r, calls) /\
      Z.of_nat (List.length (predictions r)) = 1%Z /\
      map (@rank Qc) (predictions r) = seq 1 (List.length (predictions r))) /\
  (exists r calls,
      predict Sample.artifacts Sample.example_input 50 = (inr r, calls) /\
      Z.of_nat (List.length (predictions r)) = 4%Z /\
      map (@rank Qc) (predictions r) = seq 1 (List.length (predictions r))).
Proof.
  split.
  - apply (suggestions_counted_for_every_top_k Sample.artifacts
             Sample.example_input (-7)%Z sample_valid_example
             sample_responsive sample_sound_index sample_aligned_catalog).
    simpl. lia.
  - apply (suggestions_counted_for_every_top_k Sample.artifacts
             Sample.example_input 50%Z sample_valid_example
             sample_responsive sample_sound_index sample_aligned_catalog).
    simpl. lia.
Defined.

(** ** The profile is read from the scaled frame *)

Section ScaledProfile.
Context {F : Type} {AF : Arith F} {RF : Rounding F} {Py : PyBuiltins}.
Variable A : Artifacts F.

(** X13.  The profile is computed after scaling.  When the intelligence
    rating is one of the numeric columns (listed once each), a successful
    preparation leaves in that column the value the scaler returned for it,
    and, unless the rounding of some profile column fails, the profile's
    [intelligence_level] is that scaled value rounded to one decimal, not
    the rating of the request. *)
Theorem profile_reads_scaled_rating (user_input user_df : row F)
  (c0 : list event) (i : nat) :
  prepare A user_input = (inr user_df, c0) ->
  NoDup (numeric_columns A) ->
  nth_error (numeric_columns A) i = Some "Intelligence Rating (1-10)" ->
  exists selected scaled x,
    robust_scaler A selected = inr scaled /\
    map fst selected = numeric_columns A /\
    nth_error scaled i = Some x /\
    get_col "Intelligence Rating (1-10)" user_df = Some (CFloat x) /\
    (roundable user_df profile_fields ->
     get_col "intelligence_level" (_calculate_user_profile user_df) =
     Some (CFloat (np_round x 1))).
Proof.
  intros Hp Hnd Hi.
  apply prepare_inr_inv in Hp
    as (encoded & c & selected & scaled & _ & _ & Hsel & Hsc & Hlen & -> & _).
  destruct (nth_error scaled i) as [x|] eqn:Hx.
  2:{ apply nth_error_None in Hx.
      assert (i < List.length (numeric_columns A))%nat
        by (apply nth_error_Some; congruence).
      lia. }
  set (aligned := reindex (expected_columns A)
                    (_create_derived_features A encoded)) in *.
  assert (Hget : get_col "Intelligence Rating (1-10)"
                   (assign_columns (numeric_columns A) scaled aligned) =
                 Some (CFloat x)).
  { rewrite (get_col_assign_nth _ _ _ i _ Hnd Hlen Hi). now rewrite Hx. }
  exists selected, scaled, x. split; [exact Hsc|].
  split; [apply (select_columns_inv _ _ _ Hsel)|].
  split; [exact Hx|]. split; [exact Hget|].
  intros Hr. unfold _calculate_user_profile.
  destruct (fill_profile_get
              (assign_columns (numeric_columns A) scaled aligned)
              profile_fields [])
    as (p & -> & Hfield & _); auto.
  { simpl. repeat (constructor; [simpl; intuition discriminate|]).
    constructor. }
  rewrite (Hfield "Intelligence Rating (1-10)" "intelligence_level" 1%nat)
    by (simpl; auto 10).
  now rewrite Hget.
Qed.

End ScaledProfile.

Lemma profile_reads_scaled_rating_witness :
  exists user_df c0 selected scaled x,
    prepare (F := Qc) Sample.artifacts Sample.example_input =
      (inr user_df, c0) /\
    get_col "Intelligence Rating (1-10)" Sample.example_input =
      Some (CInt 7) /\
    Sample.scaler selected = inr scaled /\
    nth_error scaled 1 = Some x /\
    get_col "Intelligence Rating (1-10)" user_df = Some (CFloat x) /\
    x = Q2Qc 0.
Proof.
  destruct (prepare_succeeds (F := Qc) Sample.artifacts Sample.example_input
              sample_valid_example sample_responsive) as (user_df & c0 & Hp).
  destruct (profile_reads_scaled_rating (F := Qc) Sample.artifacts
              Sample.example_input user_df c0 1 Hp
              ltac:(simpl; repeat (constructor;
                                   [simpl; intuition discriminate|]);
                    constructor)
              eq_refl)
    as (selected & scaled & x & Hsc & _ & Hx & Hget & _).
  exists user_df, c0, selected, scaled, x.
  split; [exact Hp|]. split; [reflexivity|]. split; [exact Hsc|].
  split; [exact Hx|]. split; [exact Hget|].
  vm_compute in Hp. inversion Hp; subst user_df. vm_compute in Hget.
  inversion Hget. apply Qc_is_canon. reflexivity.
Defined.

(** ** The [/api/recommend] handler *)

Section HandlerFacts.
Context {F : Type} {AF : Arith F} {RF : Rounding F} {Py : PyBuiltins}.
Variable A : Artifacts F.

Lemma predict_inl_inv user_input top_k e calls :
  predict A user_input top_k = (inl e, calls) ->
  exists cause, e = PredictionFailed cause.
Proof.
  unfold predict, catch, raise.
  destruct (predict_body A user_input top_k) as [[cause|r] c]; [|discriminate].
  intros H. inversion H. eauto.
Qed.

Lemma first_non_numeric_none cols (user_input : row F) :
  first_non_numeric cols user_input = inr None <->
  (forall c v, In c cols -> get_col c user_input = Some v ->
               float_ok v = true).
Proof.
  induction cols as [|col rest IH]; simpl.
  - split; [intros _ c v [] | reflexivity].
  - destruct (get_col col user_input) as [v0|] eqn:E.
    + destruct (float_ok v0) eqn:Hok.
      * rewrite IH. split.
        -- intros H c v [<-|Hc] Hv; [congruence | eauto].
        -- intros H c v Hc. apply H. now right.
      * split; [destruct (float_overflows v0); discriminate|]. intros H.
        rewrite (H col v0 (or_introl eq_refl) E) in Hok. discriminate.
    + rewrite IH. split.
      * intros H c v [<-|Hc] Hv; [congruence | eauto].
      * intros H c v Hc. apply H. now right.
Qed.

(** The only exception of the numeric check is the [OverflowError] of an
    integer field. *)
Lemma first_non_numeric_raises cols (user_input : row F) e :
  first_non_numeric cols user_input = inl e ->
  e = OverflowError /\
  exists col v, In col cols /\ get_col col user_input = Some v /\
                float_overflows v = true.
Proof.
  induction cols as [|col rest IH]; simpl; [discriminate|].
  destruct (get_col col user_input) as [v0|] eqn:E.
  - destruct (float_ok v0).
    + intros H. destruct (IH H) as (-> & c & v & Hc & Hv & Ho). eauto 10.
    + destruct (float_overflows v0) eqn:Ho; [|discriminate].
      intros H. inversion H. eauto 10.
  - intros H. destruct (IH H) as (-> & c & v & Hc & Hv & Ho). eauto 10.
Qed.

Lemma first_invalid_category_none values (user_input : row F) :
  first_invalid_category values user_input = None ->
  forall col allowed v,
    In (col, allowed) values -> get_col col user_input = Some v ->
    exists s, v = CStr s /\ PyStr.mem s allowed = true.
Proof.
  induction values as [|[col0 allowed0] rest IH]; simpl; intros H col allowed v Hin Hv.
  - contradiction.
  - destruct (get_col col0 user_input) as [v0|] eqn:E.
    + destruct v0 as [s| | |]; try discriminate.
      destruct (PyStr.mem s allowed0) eqn:Hmem; [|discriminate].
      destruct Hin as [Heq|Hin]; [|eauto].
      inversion Heq; subst. rewrite E in Hv. inversion Hv; subst. eauto.
    + destruct Hin as [Heq|Hin]; [|eauto].
      inversion Heq; subst. congruence.
Qed.

Lemma dict_get_In {V} (k : string) (d : list (string * V)) v :
  Dict.get String.eqb k d = Some v -> In (k, v) d.
Proof.
  induction d as [|[k' v'] d IH]; simpl; [discriminate|].
  destruct (String.eqb_spec k k') as [->|Hne].
  - intros H. inversion H. now left.
  - intros H. right. auto.
Qed.

Lemma mem_index_of (s : string) (l : list string) :
  PyStr.mem s l = true -> PyStr.index_of s l <> None.
Proof.
  unfold PyStr.mem. induction l as [|x l IH]; simpl; [discriminate|].
  destruct (String.eqb s x); [discriminate|]. simpl. intros H.
  destruct (PyStr.index_of s l); [discriminate | now apply IH].
Qed.

(** What the handler has checked by the time it calls [predict]. *)
Lemma handler_checks_valid (user_input : row F) :
  (forall c, In c (categorical_columns A) ->
             Dict.has String.eqb c (label_encoders A) = true) ->
  filter (fun field => negb (has_col field user_input)) (feature_columns A) =
    [] ->
  first_non_numeric (numeric_columns A) user_input = inr None ->
  first_invalid_category (label_encoders A) user_input = None ->
  valid_input A user_input.
Proof.
  intros Henc Hmiss Hnum Hcat. constructor.
  - intros c Hc. destruct (has_col c user_input) eqn:Hhas; [reflexivity|].
    assert (Hin : In c (filter (fun field => negb (has_col field user_input))
                          (feature_columns A)))
      by (apply filter_In; rewrite Hhas; auto).
    rewrite Hmiss in Hin. contradiction.
  - now apply first_non_numeric_none.
  - intros c v Hc Hv.
    destruct (proj1 (dict_has_true String.eqb _ _) (Henc c Hc))
      as [classes Hcl].
    exists classes. split; [exact Hcl|].
    destruct (first_invalid_category_none _ _ Hcat c classes v
                (dict_get_In _ _ _ Hcl) Hv) as (s & -> & Hmem).
    simpl. now apply mem_index_of.
Qed.

(** How the handler answers, once the body is read and the predictor
    fetched. *)
Lemma recommend_breeds_answers (json : request_json F)
  (top_k_param : option string) :
  match recommend_breeds A json top_k_param with
  | (Error status err, calls) =>
      (status = 400%nat /\ calls = [] /\ forall e, err <> InternalError e) \/
      (status = 500%nat /\ calls = [] /\ err = InternalError OverflowError /\
       exists user_input,
         json = JsonDict user_input /\
         first_non_numeric (numeric_columns A) user_input =
           inl OverflowError) \/
      (status = 500%nat /\
       exists user_input top_k cause,
         json = JsonDict user_input /\
         err = InternalError (PredictionFailed cause) /\
         predict A user_input top_k = (inl (PredictionFailed cause), calls)) \/
      (status = 500%nat /\ err = InternalError TypeError /\
       exists user_input top_k results,
         json = JsonDict user_input /\
         predict A user_input top_k = (inr results, calls) /\
         json_serialisable results = false)
  | (Ok results, calls) =>
      exists user_input top_k,
        json = JsonDict user_input /\
        parse_top_k top_k_param = Some top_k /\ (0 < top_k)%Z /\
        predict A user_input top_k = (inr results, calls) /\
        json_serialisable results = true
  end.
Proof.
  unfold recommend_breeds.
  destruct json as [[|kv d]|[|]];
    try (left; split; [reflexivity|]; split; [reflexivity|];
         intros e; discriminate).
  destruct (parse_top_k top_k_param) as [top_k|] eqn:Hk;
    [|left; split; [reflexivity|]; split; [reflexivity|];
      intros e; discriminate].
  assert (Hpos : (0 < top_k)%Z).
  { unfold parse_top_k in Hk.
    destruct (match top_k_param with Some s => int_parse s | None => Some 5%Z end)
      as [z|]; [|discriminate].
    destruct (Z.leb_spec z 0) as [|Hz]; [discriminate|].
    inversion Hk; subst. lia. }
  destruct (filter _ (feature_columns A));
    [|left; split; [reflexivity|]; split; [reflexivity|];
      intros e; discriminate].
  destruct (first_non_numeric _ _) as [e|[col|]] eqn:Hnum.
  - right. left. destruct (first_non_numeric_raises _ _ _ Hnum) as [-> _].
    repeat split. exists (kv :: d). auto.
  - left. split; [reflexivity|]. split; [reflexivity|]. intros e; discriminate.
  - destruct (first_invalid_category _ _) as [[col allowed]|];
      [left; split; [reflexivity|]; split; [reflexivity|];
       intros e; discriminate|].
    destruct (predict A (kv :: d) top_k) as [[e|r] calls] eqn:Hrun.
    + right. right. left. split; [reflexivity|].
      destruct (predict_inl_inv _ _ _ _ Hrun) as [cause ->].
      exists (kv :: d), top_k, cause. auto.
    + destruct (json_serialisable r) eqn:Hjson.
      * exists (kv :: d), top_k. auto 10.
      * right. right. right. split; [reflexivity|]. split; [reflexivity|].
        exists (kv :: d), top_k, r. auto.
Qed.

(** X15.  With a scaler and a classifier that answer every query and an
    encoder for every categorical column, [predict] never fails on a request
    the handler passes to it: the checks the handler makes first cover
    everything [predict] itself validates.  The handler then answers 400,
    before any artifact call; or 500 for an integer field too large for
    [float], before any artifact call; or 500 for a result [jsonify] cannot
    write; or the result of [predict]. *)
Theorem handler_checks_cover_predict (json : request_json F)
  (top_k_param : option string) :
  responsive A ->
  (forall c, In c (categorical_columns A) ->
             Dict.has String.eqb c (label_encoders A) = true) ->
  match recommend_breeds A json top_k_param with
  | (Error status err, calls) =>
      (status = 400%nat /\ calls = [] /\ forall e, err <> InternalError e) \/
      (status = 500%nat /\ calls = [] /\ err = InternalError OverflowError) \/
      (status = 500%nat /\ err = InternalError TypeError /\
       exists user_input top_k results,
         json = JsonDict user_input /\
         predict A user_input top_k = (inr results, calls) /\
         json_serialisable results = false)
  | (Ok results, calls) =>
      exists user_input top_k,
        json = JsonDict user_input /\
        predict A user_input top_k = (inr results, calls)
  end.
Proof.
  intros Hresp Henc. unfold recommend_breeds.
  destruct json as [[|kv d]|[|]];
    try (left; split; [reflexivity|]; split; [reflexivity|];
         intros e; discriminate).
  destruct (parse_top_k top_k_param) as [top_k|];
    [|left; split; [reflexivity|]; split; [reflexivity|];
      intros e; discriminate].
  destruct (filter _ (feature_columns A)) eqn:Hmiss;
    [|left; split; [reflexivity|]; split; [reflexivity|];
      intros e; discriminate].
  destruct (first_non_numeric _ _) as [e|[col|]] eqn:Hnum.
  - right. left. destruct (first_non_numeric_raises _ _ _ Hnum) as [-> _].
    auto.
  - left. split; [reflexivity|]. split; [reflexivity|]. intros e; discriminate.
  - destruct (first_invalid_category _ _) as [[col allowed]|] eqn:Hcat;
      [left; split; [reflexivity|]; split; [reflexivity|];
       intros e; discriminate|].
    destruct (predict_succeeds A (kv :: d) top_k
                (handler_checks_valid _ Henc Hmiss Hnum Hcat) Hresp)
      as (r & calls & Hrun).
    rewrite Hrun. destruct (json_serialisable r) eqn:Hjson.
    + exists (kv :: d), top_k. auto.
    + right. right. split; [reflexivity|]. split; [reflexivity|].
      exists (kv :: d), top_k, r. auto.
Qed.

(** X16.  A body that lacks a required field is answered with status 400
    and the list of the required fields it lacks, in schema order, together
    with the list of all required fields; no artifact is called.  (The
    parameter [top_k] is parsed first: it must be absent or a positive
    integer.) *)
Theorem recommend_missing_field (user_input : row F)
  (top_k_param : option string) (top_k : Z) (field : string) :
  user_input <> [] ->
  parse_top_k top_k_param = Some top_k ->
  In field (feature_columns A) -> has_col field user_input = false ->
  recommend_breeds A (JsonDict user_input) top_k_param =
    (Error 400
       (RequiredFieldsMissing
          (filter (fun c => negb (has_col c user_input)) (feature_columns A))
          (feature_columns A)),
     []) /\
  In field (filter (fun c => negb (has_col c user_input)) (feature_columns A)).
Proof.
  intros Hne Hk Hin Hno.
  assert (Hf : In field (filter (fun c => negb (has_col c user_input))
                           (feature_columns A)))
    by (apply filter_In; rewrite Hno; auto).
  split; [|exact Hf].
  unfold recommend_breeds. destruct user_input as [|kv d]; [congruence|].
  rewrite Hk.
  destruct (filter _ (feature_columns A)); [contradiction | reflexivity].
Qed.

End HandlerFacts.

Section RouteFacts.
Context {F : Type} {AF : Arith F} {RF : Rounding F} {Py : PyBuiltins}.

(** X14.  Whatever the request, the route [/api/recommend] answers in one of
    these ways.  Status 400 with a validation error, no artifact called.
    Status 500 with no artifact called, carrying the exception of reading
    the body, or that of building the predictor (after a body that is an
    object was read), or the [OverflowError] of an integer field too large
    for [float].  Status 500 carrying the wrapped exception of [predict].
    Status 500 with the [TypeError] of [jsonify], after [predict] returned a
    result that cannot be written.  Or the result of [predict], for a body
    that is an object and a [top_k] that is a positive integer, computed with
    the cached predictor. *)
Theorem recommend_status_discipline
  (predictor : option (Artifacts F)) (construct : pyexn F + Artifacts F)
  (body : pyexn F + request_json F) (top_k_param : option string) :
  match recommend_route predictor construct body top_k_param with
  | ((Error status err, calls), cache) =>
      (status = 400%nat /\ calls = [] /\ forall e, err <> InternalError e) \/
      (status = 500%nat /\ calls = [] /\
       exists e, err = InternalError e /\ body = inl e) \/
      (status = 500%nat /\ calls = [] /\ cache = None /\
       exists e user_input,
         err = InternalError e /\ body = inr (JsonDict user_input) /\
         predictor = None /\ construct = inl e) \/
      (status = 500%nat /\ calls = [] /\ err = InternalError OverflowError /\
       exists loaded user_input,
         cache = Some loaded /\ body = inr (JsonDict user_input) /\
         first_non_numeric (numeric_columns loaded) user_input =
           inl OverflowError) \/
      (status = 500%nat /\
       exists loaded user_input top_k cause,
         cache = Some loaded /\ body = inr (JsonDict user_input) /\
         err = InternalError (PredictionFailed cause) /\
         predict loaded user_input top_k =
           (inl (PredictionFailed cause), calls)) \/
      (status = 500%nat /\ err = InternalError TypeError /\
       exists loaded user_input top_k results,
         cache = Some loaded /\ body = inr (JsonDict user_input) /\
         predict loaded user_input top_k = (inr results, calls) /\
         json_serialisable results = false)
  | ((Ok results, calls), cache) =>
      exists loaded user_input top_k,
        cache = Some loaded /\ body = inr (JsonDict user_input) /\
        parse_top_k top_k_param = Some top_k /\ (0 < top_k)%Z /\
        predict loaded user_input top_k = (inr results, calls) /\
        json_serialisable results = true
  end.
Proof.
  unfold recommend_route.
  destruct body as [e|json].
  { right. left. repeat split. eauto. }
  unfold recommend_endpoint.
  destruct json as [[|kv d]|[|]];
    try (left; split; [reflexivity|]; split; [reflexivity|];
         intros e; discriminate).
  assert (Hloaded :
            (exists e, get_predictor predictor construct = (inl e, None) /\
                       predictor = None /\ construct = inl e) \/
            (exists loaded,
                get_predictor predictor construct =
                  (inr loaded, Some loaded))).
  { unfold get_predictor. destruct predictor as [loaded|]; [eauto|].
    destruct construct as [e|loaded]; eauto 10. }
  destruct Hloaded as [(e & -> & Hp & Hc)|(loaded & ->)].
  { right. right. left. repeat split. exists e, (kv :: d). auto. }
  pose proof (recommend_breeds_answers loaded (JsonDict (kv :: d))
                top_k_param) as H.
  destruct (recommend_breeds loaded (JsonDict (kv :: d)) top_k_param)
    as [[status err|results] calls].
  - destruct H as [H|[H|[H|H]]].
    + left. exact H.
    + destruct H as (-> & -> & -> & user_input & E & Hnum).
      inversion E; subst user_input.
      right. right. right. left. repeat split. exists loaded, (kv :: d). auto.
    + destruct H as (-> & user_input & top_k & cause & E & -> & Hrun).
      inversion E; subst user_input.
      right. right. right. right. left. split; [reflexivity|].
      exists loaded, (kv :: d), top_k, cause. auto.
    + destruct H as (-> & -> & user_input & top_k & results & E & Hrun & Hj).
      inversion E; subst user_input.
      right. right. right. right. right. split; [reflexivity|].
      split; [reflexivity|]. exists loaded, (kv :: d), top_k, results. auto.
  - destruct H as (user_input & top_k & E & Hk & Hpos & Hrun & Hj).
    inversion E; subst user_input.
    exists loaded, (kv :: d), top_k. auto 10.
Qed.

End RouteFacts.

Lemma handler_checks_cover_predict_witness :
  recommend_breeds (F := Qc) Sample.artifacts
    (JsonDict request_with_huge_rating) (Some "3") =
    (Error 500 (InternalError OverflowError), []) /\
  match recommend_breeds (F := Qc) Sample.artifacts
          (JsonDict request_with_quoted_rating) (Some "3") with
  | (Error status err, calls) =>
      (status = 400%nat /\ calls = [] /\ forall e, err <> InternalError e) \/
      (status = 500%nat /\ calls = [] /\ err = InternalError OverflowError) \/
      (status = 500%nat /\ err = InternalError TypeError /\
       exists user_input top_k results,
         JsonDict request_with_quoted_rating = JsonDict user_input /\
         predict Sample.artifacts user_input top_k = (inr results, calls) /\
         json_serialisable results = false)
  | (Ok results, calls) =>
      exists user_input top_k,
        JsonDict request_with_quoted_rating = JsonDict user_input /\
        predict Sample.artifacts user_input top_k = (inr results, calls)
  end.
Proof.
  split; [reflexivity|].
  apply (handler_checks_cover_predict (F := Qc) Sample.artifacts
           (JsonDict request_with_quoted_rating) (Some "3")
           sample_responsive).
  intros c Hc. simpl in Hc.
  repeat (destruct Hc as [<-|Hc]; [reflexivity|]). contradiction.
Defined.

(** The payload of [test_recommend_missing_field_returns_400]. *)
Lemma recommend_missing_field_witness :
  recommend_breeds (F := Qc) Sample.artifacts
    (JsonDict (tl Sample.example_input)) None =
  (Error 400 (RequiredFieldsMissing ["Size"] Sample.features), []).
Proof.
  apply (recommend_missing_field (F := Qc) Sample.artifacts
           (tl Sample.example_input) None 5%Z "Size").
  - discriminate.
  - reflexivity.
  - simpl. auto.
  - reflexivity.
Defined.

Section ValidRequest.
Local Open Scope Qc_scope.
Context {Py : PyBuiltins}.
Variable A : Artifacts Qc.

Lemma parse_top_k_positive top_k_param top_k :
  parse_top_k top_k_param = Some top_k -> (0 < top_k)%Z.
Proof.
  unfold parse_top_k.
  destruct (match top_k_param with Some s => int_parse s | None => Some 5%Z end)
    as [z|]; [|discriminate].
  destruct (Z.leb_spec z 0) as [|Hz]; [discriminate|].
  intros H. inversion H; subst. lia.
Qed.

Lemma set_col_cells (P : cell Qc -> Prop) key v (profile : row Qc) :
  P v -> Forall (fun field => P (snd field)) profile ->
  Forall (fun field => P (snd field)) (set_col key v profile).
Proof.
  intros Hv. unfold set_col.
  induction profile as [|[k' v'] rest IH]; simpl; intros H.
  - repeat constructor. exact Hv.
  - inversion H; subst. destruct (String.eqb key k'); constructor; auto.
Qed.

(** Every value of the profile is the rounding of a cell of its column. *)
Lemma fill_profile_cells (P : cell Qc -> Prop) (user_df : row Qc) fields
  profile profile' :
  (forall col key n v r,
      In (col, key, n) fields -> get_col col user_df = Some v ->
      round_cell v n = Some r -> P r) ->
  Forall (fun field => P (snd field)) profile ->
  fill_profile user_df fields profile = Some profile' ->
  Forall (fun field => P (snd field)) profile'.
Proof.
  revert profile.
  induction fields as [|[[col key] n] rest IH]; simpl; intros profile HP H Hrun.
  - inversion Hrun; subst. exact H.
  - destruct (profile_field user_df col key n profile) as [p1|] eqn:E;
      [|discriminate].
    simpl in Hrun. apply (IH p1); [eauto 10| |exact Hrun].
    unfold profile_field in E. destruct (has_col col user_df).
    + destruct (get_col col user_df) as [v|] eqn:Hv; [|discriminate].
      simpl in E. destruct (round_cell v n) as [r|] eqn:Hr; [|discriminate].
      simpl in E. inversion E; subst. apply set_col_cells; [|exact H].
      apply (HP col key n v r); auto.
    + inversion E; subst. exact H.
Qed.

(** X17.  A body that is a valid request and whose categorical values are
    all among those the handler lists, sent with a [top_k] that is absent or
    a positive integer, reaches [predict], which returns a result; with a
    well-formed index over an aligned, non-empty catalog the result holds
    [min(top_k, len(breed_names))] predictions, so at least one.  The handler
    answers with that result when [jsonify] can write it, and with status
    500 when it cannot; it can whenever no profile column of the prepared
    frame holds an integer. *)
Theorem recommend_valid_request (user_input : row Qc)
  (top_k_param : option string) (top_k : Z) :
  user_input <> [] ->
  parse_top_k top_k_param = Some top_k ->
  valid_input A user_input ->
  first_invalid_category (label_encoders A) user_input = None ->
  responsive A -> sound_index A -> aligned_catalog A ->
  (1 <= List.length (breed_names A))%nat ->
  exists r calls user_df c0,
    predict A user_input top_k = (inr r, calls) /\
    prepare A user_input = (inr user_df, c0) /\
    Z.of_nat (List.length (predictions r)) =
      Z.min top_k (Z.of_nat (List.length (breed_names A))) /\
    predictions r <> [] /\
    recommend_breeds A (JsonDict user_input) top_k_param =
      (if json_serialisable r then Ok r
       else Error 500 (InternalError TypeError), calls) /\
    ((forall col key n z, In (col, key, n) profile_fields ->
                          get_col col user_df <> Some (CInt z)) ->
     recommend_breeds A (JsonDict user_input) top_k_param = (Ok r, calls)).
Proof.
  intros Hne Hk Hvalid Hcat Hresp Hsound Haligned Hn.
  pose proof (parse_top_k_positive _ _ Hk) as Hpos.
  destruct (predict_succeeds A user_input top_k Hvalid Hresp)
    as (r & calls & Hrun).
  pose proof Hrun as Hparts.
  apply predict_inr_iff in Hparts
    as (user_df & c0 & grouped & c1 & suggestions & c2
        & Hp & Hg & Hs & Hr & Hcalls).
  exists r, calls, user_df, c0.
  assert (Hlen : Z.of_nat (List.length (predictions r)) =
                 Z.min top_k (Z.of_nat (List.length (breed_names A)))).
  { destruct (suggestions_counted A user_df (clamp_k A top_k) Hsound Haligned
                (clamp_k_range A top_k Hn)) as (l & Hl & Hlen & _).
    rewrite Hs in Hl. inversion Hl; subst l. subst r. simpl. rewrite Hlen.
    unfold clamp_k. lia. }
  assert (Hanswer :
            recommend_breeds A (JsonDict user_input) top_k_param =
            (if json_serialisable r then Ok r
             else Error 500 (InternalError TypeError), calls)).
  { unfold recommend_breeds. destruct user_input as [|kv d]; [congruence|].
    rewrite Hk.
    assert (Hmiss : filter (fun field => negb (has_col field (kv :: d)))
                      (feature_columns A) = []).
    { destruct (filter _ (feature_columns A)) as [|c l] eqn:E; [reflexivity|].
      assert (Hc : In c (c :: l)) by now left.
      rewrite <- E in Hc. apply filter_In in Hc as [Hc Hno].
      rewrite (required_present Hvalid c Hc) in Hno. discriminate. }
    rewrite Hmiss.
    rewrite (proj2 (first_non_numeric_none (numeric_columns A) (kv :: d))
               (numeric_convertible Hvalid)).
    rewrite Hcat, Hrun. now destruct (json_serialisable r). }
  split; [exact Hrun|]. split; [exact Hp|]. split; [exact Hlen|].
  split; [|split; [exact Hanswer|]].
  - intros E. rewrite E in Hlen. simpl in Hlen. lia.
  - intros Hcols. rewrite Hanswer.
    assert (Hjson : json_serialisable r = true); [|now rewrite Hjson].
    subst r. unfold json_serialisable, assemble. cbn [user_profile].
    apply forallb_forall. unfold _calculate_user_profile.
    destruct (fill_profile user_df profile_fields []) as [profile|] eqn:Hfill;
      [|intros x []].
    assert (Hcells : Forall (fun field : string * cell Qc =>
                               forall z, snd field <> CInt z) profile).
    { apply (fill_profile_cells (fun v => forall z, v <> CInt z)
               user_df profile_fields [] profile);
        [|constructor|exact Hfill].
      intros col k' n v0 r0 Hf Hv0 Hr0 z ->.
      destruct v0 as [s|z0|x|]; simpl in Hr0; inversion Hr0; subst.
      now apply (Hcols col k' n z). }
    rewrite Forall_forall in Hcells. intros [key v] Hin.
    specialize (Hcells _ Hin). simpl in *.
    destruct v as [s|z|x|]; auto. now destruct (Hcells z).
Qed.

End ValidRequest.

(** The payload and the query of [test_recommend_valid_request]. *)
Lemma recommend_valid_request_witness :
  exists r calls,
    recommend_breeds Sample.artifacts (JsonDict Sample.example_input)
      (Some "3") = (Ok r, calls) /\
    predict Sample.artifacts Sample.example_input 3 = (inr r, calls) /\
    Z.of_nat (List.length (predictions r)) = 3%Z /\
    predictions r <> [].
Proof.
  destruct (recommend_valid_request Sample.artifacts Sample.example_input
              (Some "3") 3%Z)
    as (r & calls & user_df & c0 & Hrun & Hp & Hlen & Hne & _ & Hok).
  - discriminate.
  - reflexivity.
  - apply sample_valid_example.
  - reflexivity.
  - apply sample_responsive.
  - apply sample_sound_index.
  - apply sample_aligned_catalog.
  - simpl. lia.
  - exists r, calls. split; [|split; [exact Hrun|split; assumption]].
    apply Hok. vm_compute in Hp. inversion Hp; subst user_df.
    intros col key n z Hin. simpl in Hin.
    repeat (destruct Hin as [E|Hin];
            [inversion E; subst; vm_compute; discriminate|]).
    contradiction.
Defined.

(** ** The caches of the application *)

Section Caches.
Context {F : Type} {AF : Arith F} {RF : Rounding F} {Py : PyBuiltins}.

Lemma get_predictor_calls_loaded (loaded : Artifacts F) constructs :
  get_predictor_calls (Some loaded) constructs =
  (repeat (inr loaded) (List.length constructs), Some loaded).
Proof.
  induction constructs as [|c rest IH]; simpl; [reflexivity|].
  now rewrite IH.
Qed.

(** X18.  Over any sequence of calls of [get_predictor] that starts with an
    empty cache, the constructor is run again at every call until it
    succeeds for the first time: each call before that raises the exception
    of its own attempt, and the first success and every call after it return
    the predictor built by that one attempt, whatever the constructor would
    do later. *)
Theorem predictor_built_once (constructs : list (pyexn F + Artifacts F)) :
  exists failures,
    firstn (List.length failures) constructs = map inl failures /\
    match nth_error constructs (List.length failures) with
    | Some (inr loaded) =>
        get_predictor_calls None constructs =
        (map inl failures ++
         repeat (inr loaded) (List.length constructs - List.length failures),
         Some loaded)
    | Some (inl _) => False
    | None =>
        get_predictor_calls None constructs = (map inl failures, None)
    end.
Proof.
  induction constructs as [|[e|loaded] rest IH].
  - exists []. simpl. auto.
  - destruct IH as (failures & Hfirst & Hrest).
    exists (e :: failures). simpl. rewrite Hfirst. split; [reflexivity|].
    destruct (nth_error rest (List.length failures)) as [[e'|loaded]|];
      [contradiction | now rewrite Hrest | now rewrite Hrest].
  - exists []. simpl. split; [reflexivity|].
    rewrite get_predictor_calls_loaded. reflexivity.
Qed.

(** X19.  Once a request to [/api/recommend] has been answered with a
    result, the predictor is cached: every later request to the route is
    answered by the handler with those same artifacts, and every later
    health check answers 200, even if the constructor would fail from then
    on; the cache no longer changes. *)
Theorem recommendation_caches_predictor
  (predictor : option (Artifacts F)) (construct : pyexn F + Artifacts F)
  (json : request_json F) (top_k_param : option string)
  (results : PredictResult F) (calls : list event)
  (cache : option (Artifacts F)) :
  recommend_endpoint predictor construct json top_k_param =
    ((Ok results, calls), cache) ->
  exists loaded,
    cache = Some loaded /\
    recommend_breeds loaded json top_k_param = (Ok results, calls) /\
    (forall construct',
        health_check cache construct' = ((200%nat, Healthy), cache)) /\
    (forall construct' json' top_k_param',
        recommend_endpoint cache construct' json' top_k_param' =
        (recommend_breeds loaded json' top_k_param', cache)).
Proof.
  unfold recommend_endpoint, get_predictor.
  destruct json as [[|kv d]|[|]]; try discriminate.
  intros H.
  assert (Hloaded : exists loaded,
            cache = Some loaded /\
            recommend_breeds loaded (JsonDict (kv :: d)) top_k_param =
              (Ok results, calls)).
  { destruct predictor as [loaded|].
    - inversion H; subst. eauto.
    - destruct construct as [e|loaded]; [discriminate|].
      inversion H; subst. eauto. }
  destruct Hloaded as (loaded & -> & Hrun).
  exists loaded. split; [reflexivity|]. split; [exact Hrun|]. split.
  - intros construct'. reflexivity.
  - intros construct' json' top_k_param'.
    destruct json' as [[|kv' d']|[|]]; reflexivity.
Qed.

Lemma get_breeds_calls_cached (cached : list (Metadata.record F)) reads :
  get_breeds_calls (Some cached) reads =
  repeat {| breeds := cached; total_breeds := List.length cached |}
         (List.length reads).
Proof.
  induction reads as [|r rest IH]; simpl; [reflexivity|]. now rewrite IH.
Qed.

(** X20.  The first request to [/api/breeds] decides every answer of the
    process: if the file was read then, every answer lists one entry per row
    of the file, in file order, named after its row, and [total_breeds] is
    the number of rows; if reading failed then, every answer is the empty
    list with [total_breeds = 0], also after the file has become readable.
    Unlike the predictor, a failed load is cached. *)
Theorem breeds_listing_fixed_by_first_request
  (read_csv : pyexn F + list (row F))
  (later : list (pyexn F + list (row F))) :
  let rows := match read_csv with inr rows => rows | inl _ => [] end in
  let listing := {| breeds := map Metadata.of_row rows;
                    total_breeds := List.length rows |} in
  get_breeds_calls None (read_csv :: later) =
    repeat listing (S (List.length later)) /\
  map (@Metadata.name F) (breeds listing) = map (get_col "Name") rows.
Proof.
  simpl. split.
  - destruct read_csv as [e|rows]; simpl; rewrite get_breeds_calls_cached;
      simpl; now rewrite ?length_map.
  - rewrite map_map. reflexivity.
Qed.

End Caches.

Lemma recommendation_caches_predictor_witness :
  exists results calls,
    recommend_endpoint (F := Qc) None (inr Sample.artifacts)
      (JsonDict Sample.example_input) (Some "3") =
      ((Ok results, calls), Some Sample.artifacts) /\
    health_check (Some Sample.artifacts)
      (inl (ArtifactError "No such file or directory")) =
      ((200%nat, Healthy), Some Sample.artifacts).
Proof.
  assert (Hend : exists results calls,
            recommend_endpoint (F := Qc) None (inr Sample.artifacts)
              (JsonDict Sample.example_input) (Some "3") =
            ((Ok results, calls), Some Sample.artifacts)).
  { eexists. eexists. vm_compute. reflexivity. }
  destruct Hend as (results & calls & Hend).
  exists results, calls.
  split; [exact Hend|].
  destruct (recommendation_caches_predictor _ _ _ _ _ _ _ Hend)
    as (loaded & Hc & _ & Hhealth & _).
  apply Hhealth.
Defined.

(** ** [_generate_predictions] *)

Section GeneratedPredictions.
Context {F : Type} {AF : Arith F} {RF : Rounding F}.
Variable A : Artifacts F.

Lemma proba_entries_named probas ranked grouped :
  group_entries A probas ranked = inr grouped ->
  proba_entries A true probas ranked =
  inr (flat_map named_prediction grouped).
Proof.
  revert grouped.
  induction ranked as [|[rank idx] rest IH]; simpl; intros grouped H.
  - inversion H. reflexivity.
  - destruct (nth_error (classes_ A) idx) as [label|]; [|discriminate].
    destruct (group_entries A probas rest) as [e|preds]; [discriminate|].
    simpl in H. inversion H; subst. simpl.
    rewrite (IH preds eq_refl).
    unfold named_prediction at 3. cbn [g_group g_score g_rank].
    destruct (clean_name label); reflexivity.
Qed.

(** X21.  With a classifier that supports probabilities and has its
    [classes_], [_generate_predictions] returns the grouped predictions of
    [_generate_group_predictions] for the same frame and [top_k], after the
    same single classifier call, with each label stripped of surrounding
    whitespace and the entries whose label is blank left out; an entry keeps
    the score and the rank it has in the grouped list, so ranks are not
    renumbered after a blank label. *)
Theorem predictions_are_named_groups (user_df : row F) (top_k : nat)
  (grouped : list (GroupPrediction F)) (calls : list event) :
  predict_proba A <> None ->
  _generate_group_predictions A user_df top_k = (inr grouped, calls) ->
  _generate_predictions A true user_df top_k =
  (inr (flat_map named_prediction grouped), calls).
Proof.
  unfold _generate_group_predictions, _generate_predictions.
  destruct (predict_proba A) as [f|]; [intros _|congruence].
  unfold bind, call, lift. destruct (f user_df) as [e|probas]; [discriminate|].
  destruct (group_entries A probas _) as [e|preds] eqn:E; [discriminate|].
  intros H. inversion H; subst.
  now rewrite (proba_entries_named _ _ _ E).
Qed.

Lemma clean_name_not_empty raw breed_name :
  clean_name raw = Some breed_name -> breed_name <> EmptyString.
Proof.
  unfold clean_name. destruct (PyStr.strip raw); [discriminate|].
  intros H. inversion H. discriminate.
Qed.

Lemma proba_entries_ranks has_classes probas (l : list nat) start preds :
  proba_entries A has_classes probas (enumerate start l) = inr preds ->
  StronglySorted lt (map (@p_rank F) preds) /\
  Forall (fun p => (start <= p_rank p < start + List.length l)%nat /\
                   p_breed p <> EmptyString) preds.
Proof.
  revert start preds.
  induction l as [|idx l IH]; simpl; intros start preds H.
  - inversion H. split; constructor.
  - destruct (nth_error _ idx) as [raw|]; [|discriminate].
    assert (Hrest : forall rest,
              proba_entries A has_classes probas (enumerate (S start) l) =
                inr rest ->
              StronglySorted lt (map (@p_rank F) rest) /\
              Forall (fun p => (S start <= p_rank p < start + S (List.length l))%nat /\
                               p_breed p <> EmptyString) rest).
    { intros rest Hr. destruct (IH _ _ Hr) as [Hs Hf]. split; [exact Hs|].
      revert Hf. apply Forall_impl. intros p [Hp Hb]. split; [lia | exact Hb]. }
    destruct (clean_name raw) as [breed_name|] eqn:Hname.
    + destruct (proba_entries A has_classes probas (enumerate (S start) l))
        as [e|rest]; [discriminate|].
      simpl in H. inversion H; subst.
      destruct (Hrest rest eq_refl) as [Hs Hf]. split.
      * simpl. constructor; [exact Hs|].
        apply Forall_map. revert Hf. apply Forall_impl. intros p [Hp _]. lia.
      * constructor.
        -- simpl. split; [lia | now apply (clean_name_not_empty raw)].
        -- revert Hf. apply Forall_impl. intros p [Hp Hb].
           split; [lia | exact Hb].
    + destruct (Hrest preds H) as [Hs Hf]. split; [exact Hs|].
      revert Hf. apply Forall_impl. intros p [Hp Hb]. split; [lia | exact Hb].
Qed.

Lemma neighbour_entries_ranks top_k max_sim (l : list (F * nat)) start preds :
  neighbour_entries A top_k max_sim (enumerate start l) = inr preds ->
  StronglySorted lt (map (@p_rank F) preds) /\
  Forall (fun p => (start <= p_rank p <= top_k)%nat /\
                   p_breed p <> EmptyString) preds.
Proof.
  revert start preds.
  induction l as [|[dist idx] l IH]; simpl; intros start preds H.
  - inversion H. split; constructor.
  - destruct (Nat.ltb_spec top_k start) as [Hlt|Hle].
    { inversion H. split; constructor. }
    destruct (nth_error _ idx) as [raw|]; [|discriminate].
    assert (Hrest : forall rest,
              neighbour_entries A top_k max_sim (enumerate (S start) l) =
                inr rest ->
              StronglySorted lt (map (@p_rank F) rest) /\
              Forall (fun p => (S start <= p_rank p <= top_k)%nat /\
                               p_breed p <> EmptyString) rest)
      by (intros rest Hr; apply (IH _ _ Hr)).
    destruct (clean_name raw) as [breed_name|] eqn:Hname.
    + destruct (neighbour_entries A top_k max_sim (enumerate (S start) l))
        as [e|rest]; [discriminate|].
      simpl in H. inversion H; subst.
      destruct (Hrest rest eq_refl) as [Hs Hf]. split.
      * simpl. constructor; [exact Hs|].
        apply Forall_map. revert Hf. apply Forall_impl. intros p [Hp _]. lia.
      * constructor.
        -- simpl. split; [lia | now apply (clean_name_not_empty raw)].
        -- revert Hf. apply Forall_impl. intros p [Hp Hb].
           split; [lia | exact Hb].
    + destruct (Hrest preds H) as [Hs Hf]. split; [exact Hs|].
      revert Hf. apply Forall_impl. intros p [Hp Hb]. split; [lia | exact Hb].
Qed.

Lemma increasing_ranks_bounded (ranks : list nat) lo hi :
  StronglySorted lt ranks ->
  Forall (fun r => (lo <= r <= hi)%nat) ranks ->
  (List.length ranks <= S hi - lo)%nat.
Proof.
  intros Hs. revert lo.
  induction Hs as [|r ranks Hs IH Hr]; intros lo Hf; cbn [List.length]; [lia|].
  inversion Hf as [|? ? Hr0 Hf']; subst.
  assert (H : (List.length ranks <= S hi - S r)%nat).
  { apply IH. rewrite Forall_forall in *. intros x Hx.
    specialize (Hr x Hx). specialize (Hf' x Hx). lia. }
  lia.
Qed.

(** X22.  Whichever branch it takes, when [_generate_predictions] returns,
    the ranks of its entries are strictly increasing and lie between 1 and
    [top_k], no entry has an empty breed name, and there are at most [top_k]
    entries. *)
Theorem generated_predictions_ranked (has_classes : bool) (user_df : row F)
  (top_k : nat) (preds : list (BreedPrediction F)) (calls : list event) :
  _generate_predictions A has_classes user_df top_k = (inr preds, calls) ->
  StronglySorted lt (map (@p_rank F) preds) /\
  Forall (fun p => (1 <= p_rank p <= top_k)%nat /\
                   p_breed p <> EmptyString) preds /\
  (List.length preds <= top_k)%nat.
Proof.
  intros H.
  assert (Hr : StronglySorted lt (map (@p_rank F) preds) /\
               Forall (fun p => (1 <= p_rank p <= top_k)%nat /\
                                p_breed p <> EmptyString) preds).
  { unfold _generate_predictions in H.
    destruct (predict_proba A) as [f|].
    - unfold bind, call, lift in H.
      destruct (f user_df) as [e|probas]; [discriminate|].
      destruct (proba_entries A has_classes probas _) as [e|l] eqn:E;
        [discriminate|].
      inversion H; subst.
      destruct (proba_entries_ranks _ _ _ _ _ E) as [Hs Hf].
      split; [exact Hs|]. revert Hf. apply Forall_impl.
      intros p [Hp Hb]. rewrite length_firstn in Hp. split; [lia | exact Hb].
    - unfold bind, call, lift in H.
      destruct (kneighbors A user_df _) as [e|[distances indices]];
        [discriminate|].
      destruct (neighbour_entries A top_k _ _) as [e|l] eqn:E; [discriminate|].
      inversion H; subst.
      apply (neighbour_entries_ranks _ _ _ _ _ E). }
  destruct Hr as [Hs Hf]. split; [exact Hs|]. split; [exact Hf|].
  pose proof (increasing_ranks_bounded (map (@p_rank F) preds) 1 top_k Hs)
    as Hb.
  rewrite length_map in Hb.
  assert (Hranks : Forall (fun r => (1 <= r <= top_k)%nat)
                          (map (@p_rank F) preds)).
  { apply Forall_map. revert Hf. apply Forall_impl. intros p [Hp _]. exact Hp. }
  specialize (Hb Hranks). lia.
Qed.

End GeneratedPredictions.

Lemma predictions_are_named_groups_witness :
  exists grouped calls,
    _generate_group_predictions artifacts_with_blank_class
      Sample.example_input 3 = (inr grouped, calls) /\
    map (@g_group Qc) grouped = ["Herding "; "   "; " Companion"] /\
    _generate_predictions artifacts_with_blank_class true
      Sample.example_input 3 =
      (inr (flat_map named_prediction grouped), calls) /\
    map (fun p => (p_breed p, p_rank p)) (flat_map named_prediction grouped) =
      [("Herding", 1%nat); ("Companion", 3%nat)].
Proof.
  eexists. eexists. split; [vm_compute; reflexivity|].
  split; [reflexivity|]. split; [|reflexivity].
  apply (predictions_are_named_groups artifacts_with_blank_class
           Sample.example_input 3).
  - discriminate.
  - vm_compute. reflexivity.
Defined.

Lemma generated_predictions_ranked_witness :
  exists preds calls,
    _generate_predictions (with_classifier Sample.artifacts None) false
      Sample.example_input 2 = (inr preds, calls) /\
    StronglySorted lt (map (@p_rank Qc) preds) /\
    Forall (fun p => (1 <= p_rank p <= 2)%nat /\ p_breed p <> EmptyString)
           preds /\
    (List.length preds <= 2)%nat.
Proof.
  assert (H : exists preds calls,
            _generate_predictions (with_classifier Sample.artifacts None)
              false Sample.example_input 2 = (inr preds, calls)).
  { eexists. eexists. vm_compute. reflexivity. }
  destruct H as (preds & calls & H).
  exists preds, calls. split; [exact H|].
  apply (generated_predictions_ranked (with_classifier Sample.artifacts None)
           false Sample.example_input 2 preds calls H).
Defined.

(** ** Keys of the request that the pipeline does not know *)

Section UnknownKeys.
Context {F : Type} {AF : Arith F} {RF : Rounding F} {Py : PyBuiltins}.
Variable A : Artifacts F.
Variable k : string.

Lemma agree_has_col (df df' : row F) c :
  agree_except k df df' -> c <> k -> has_col c df = has_col c df'.
Proof.
  intros H Hc. unfold has_col, Dict.has. fold (get_col c df) (get_col c df').
  now rewrite (H c Hc).
Qed.

Lemma agree_set_col (df df' : row F) c v :
  agree_except k df df' ->
  agree_except k (set_col c v df) (set_col c v df').
Proof.
  intros H c' Hc'. unfold get_col, set_col.
  destruct (String.eqb_spec c' c) as [->|Hne].
  - now rewrite !(dict_get_set_same String.eqb String.eqb_spec).
  - rewrite !(dict_get_set_other String.eqb String.eqb_spec) by assumption.
    now apply H.
Qed.

Lemma agree_check_numeric cols (df df' : row F) :
  agree_except k df df' -> ~ In k cols ->
  check_numeric cols df = check_numeric cols df'.
Proof.
  intros H. induction cols as [|c rest IH]; simpl; intros Hk; [reflexivity|].
  rewrite (H c) by (intros ->; apply Hk; now left).
  rewrite IH by (intros Hin; apply Hk; now right). reflexivity.
Qed.

Lemma agree_validate (df df' : row F) :
  agree_except k df df' ->
  ~ In k (feature_columns A) -> ~ In k (numeric_columns A) ->
  _validate_input A df = _validate_input A df'.
Proof.
  intros H Hf Hn. unfold _validate_input, missing_features.
  rewrite (filter_ext_in (fun c => negb (has_col c df))
             (fun c => negb (has_col c df'))).
  - now rewrite (agree_check_numeric _ _ _ H Hn).
  - intros c Hc. apply nodup_In in Hc.
    rewrite (agree_has_col df df' c H); [reflexivity|].
    intros ->. contradiction.
Qed.

Lemma agree_encode cols (user_input user_input' df df' : row F) :
  agree_except k user_input user_input' -> agree_except k df df' ->
  ~ In k cols ->
  same_outcome_except k (encode_categoricals A cols user_input df)
                        (encode_categoricals A cols user_input' df').
Proof.
  intros Hin. revert df df'.
  induction cols as [|col rest IH]; simpl; intros df df' Hdf Hk.
  - split; [reflexivity | exact Hdf].
  - assert (Hcol : col <> k) by (intros ->; apply Hk; now left).
    assert (Hrest : ~ In k rest) by (intros H; apply Hk; now right).
    rewrite (agree_has_col df df' col Hdf Hcol), (Hin col Hcol).
    destruct (has_col col df'); [|now apply IH].
    destruct (get_col col user_input') as [v|]; [|split; reflexivity].
    destruct (Dict.get String.eqb col (label_encoders A)) as [classes|];
      [|split; reflexivity].
    destruct (encode_value classes v) as [i|]; [|split; reflexivity].
    specialize (IH _ _ (agree_set_col df df' col (CInt (Z.of_nat i)) Hdf)
                  Hrest).
    unfold bind, call. unfold same_outcome_except in *.
    destruct (encode_categoricals A rest user_input
                (set_col col (CInt (Z.of_nat i)) df)) as [r c].
    destruct (encode_categoricals A rest user_input'
                (set_col col (CInt (Z.of_nat i)) df')) as [r' c'].
    simpl in *. destruct IH as [-> IH]. split; [reflexivity | exact IH].
Qed.

Hypothesis not_a_source : ~ In k derived_sources.

Ltac same_stage H :=
  repeat match goal with
         | |- context [if ?b then _ else _] =>
             lazymatch type of b with bool => destruct b end
         | |- context [obind ?o _] => destruct o; cbn [obind]
         end;
  first [ exact I | exact H | now apply agree_set_col ].

Lemma agree_family (df df' : row F) :
  agree_except k df df' ->
  same_stage_except k (family_compatibility A df) (family_compatibility A df').
Proof.
  intros H. unfold same_stage_except, family_compatibility.
  rewrite !(agree_has_col df df' _ H)
    by (intros E; apply not_a_source; rewrite <- E; simpl; tauto).
  rewrite !(H "Good with Children"), !(H "Friendly Rating (1-10)"),
    !(H "Training Difficulty (1-10)")
    by (intros E; apply not_a_source; rewrite <- E; simpl; tauto).
  same_stage H.
Qed.

Lemma agree_maintenance (df df' : row F) :
  agree_except k df df' ->
  same_stage_except k (maintenance A df) (maintenance A df').
Proof.
  intros H. unfold same_stage_except, maintenance.
  rewrite !(agree_has_col df df' _ H)
    by (intros E; apply not_a_source; rewrite <- E; simpl; tauto).
  rewrite !(H "Shedding Level"), !(H "Health Issues Risk"),
    !(H "Exercise Requirements (hrs/day)")
    by (intros E; apply not_a_source; rewrite <- E; simpl; tauto).
  same_stage H.
Qed.

Lemma agree_energy (df df' : row F) :
  agree_except k df df' ->
  same_stage_except k (energy df) (energy df').
Proof.
  intros H. unfold same_stage_except, energy.
  rewrite !(agree_has_col df df' _ H)
    by (intros E; apply not_a_source; rewrite <- E; simpl; tauto).
  rewrite !(H "Intelligence Rating (1-10)"),
    !(H "Exercise Requirements (hrs/day)")
    by (intros E; apply not_a_source; rewrite <- E; simpl; tauto).
  same_stage H.
Qed.

Lemma agree_ratio (df df' : row F) :
  agree_except k df df' ->
  same_stage_except k (intelligence_training_ratio df)
                      (intelligence_training_ratio df').
Proof.
  intros H. unfold same_stage_except, intelligence_training_ratio.
  rewrite !(agree_has_col df df' _ H)
    by (intros E; apply not_a_source; rewrite <- E; simpl; tauto).
  rewrite !(H "Intelligence Rating (1-10)"),
    !(H "Training Difficulty (1-10)")
    by (intros E; apply not_a_source; rewrite <- E; simpl; tauto).
  same_stage H.
Qed.

Lemma agree_size (df df' : row F) :
  agree_except k df df' ->
  same_stage_except k (size_score A df) (size_score A df').
Proof.
  intros H. unfold same_stage_except, size_score.
  rewrite !(agree_has_col df df' _ H)
    by (intros E; apply not_a_source; rewrite <- E; simpl; tauto).
  rewrite !(H "Size") by (intros E; apply not_a_source; rewrite <- E; simpl; tauto).
  same_stage H.
Qed.

Lemma agree_run steps (df df' : row F) :
  Forall (fun step => forall d d', agree_except k d d' ->
                                   same_stage_except k (step d) (step d'))
         steps ->
  agree_except k df df' ->
  agree_except k (run_until_exception steps df)
                 (run_until_exception steps df').
Proof.
  intros Hsteps. revert df df'.
  induction Hsteps as [|step steps Hstep _ IH]; intros df df' H; simpl;
    [exact H|].
  specialize (Hstep df df' H). unfold same_stage_except in Hstep.
  destruct (step df), (step df'); try contradiction; auto.
Qed.

Lemma agree_derived (df df' : row F) :
  agree_except k df df' ->
  agree_except k (_create_derived_features A df)
                 (_create_derived_features A df').
Proof.
  apply agree_run.
  repeat (apply Forall_cons; [|]); [| | | | | apply Forall_nil].
  - exact agree_family.
  - exact agree_maintenance.
  - exact agree_energy.
  - exact agree_ratio.
  - exact agree_size.
Qed.

Lemma agree_reindex expected (df df' : row F) :
  agree_except k df df' -> ~ In k expected ->
  reindex expected df = reindex expected df'.
Proof.
  intros H Hk. unfold reindex. apply map_ext_in. intros c Hc.
  rewrite (H c); [reflexivity|]. intros ->. contradiction.
Qed.

(** X23.  A key of the request that the pipeline does not know (it is no
    feature, categorical or numeric column of the schema, and neither a
    column the derived features read nor one they write) has no influence:
    two requests that agree on every other key get the same outcome from
    [predict], result or exception, after the same artifact calls. *)
Theorem unknown_key_is_ignored (user_input user_input' : row F) (top_k : Z) :
  ~ In k (feature_columns A) -> ~ In k (categorical_columns A) ->
  ~ In k (numeric_columns A) -> ~ In k derived_cols ->
  agree_except k user_input user_input' ->
  predict A user_input top_k = predict A user_input' top_k.
Proof.
  intros Hf Hc Hn Hd H.
  assert (Hp : prepare A user_input = prepare A user_input').
  { unfold prepare. rewrite (agree_validate _ _ H Hf Hn).
    destruct (_validate_input A user_input') as [e|[]]; [reflexivity|].
    rewrite !bind_lift_inr.
    pose proof (agree_encode (categorical_columns A) _ _ _ _ H H Hc) as He.
    unfold same_outcome_except in He.
    destruct (encode_categoricals A (categorical_columns A) user_input
                user_input) as [[e|df] c];
      destruct (encode_categoricals A (categorical_columns A) user_input'
                  user_input') as [[e'|df'] c'];
      simpl in He; destruct He as [-> He]; try contradiction.
    - now subst.
    - unfold bind.
      rewrite (agree_reindex (expected_columns A) _ _ (agree_derived _ _ He));
        [reflexivity|].
      unfold expected_columns. rewrite append_absent.
      + intros Hin. apply in_app_or in Hin as [Hin|Hin]; [contradiction|].
        apply filter_In in Hin as [Hin _]. contradiction.
      + repeat (constructor; [simpl; intuition discriminate|]). constructor. }
  unfold predict. now rewrite !predict_body_prepare, Hp.
Qed.

End UnknownKeys.

Lemma unknown_key_is_ignored_witness :
  predict (F := Qc) Sample.artifacts
    (set_col "Coat Colour" (CStr "Black") Sample.example_input) 3 =
  predict Sample.artifacts Sample.example_input 3.
Proof.
  apply (unknown_key_is_ignored (F := Qc) Sample.artifacts "Coat Colour");
    try (simpl; intuition discriminate).
  intros c Hc. unfold get_col, set_col.
  now apply (dict_get_set_other String.eqb String.eqb_spec).
Defined.

(** ** The similarity is a score *)

Section SimilarityRange.
Local Open Scope Qc_scope.
Context {Py : PyBuiltins}.
Variable A : Artifacts Qc.

Lemma exact_round_zero_3 : Exact.round 0 3 = 0.
Proof. apply Qc_is_canon. reflexivity. Qed.

Lemma normalised_similarity_range (distances : list Qc) (d : Qc) :
  Forall (Qcle 0) distances -> In d distances ->
  0 <= py_round (div (raw_similarity d) (max_similarity distances)) 3 <= 1.
Proof.
  intros Hpos Hd.
  pose proof (max_similarity_pos distances Hpos) as Hm.
  assert (Hne : distances <> []) by (intros ->; contradiction).
  destruct (max_similarity_largest distances Hne) as [_ Hmax].
  rewrite Forall_forall in Hpos, Hmax.
  pose proof (raw_similarity_pos d (Hpos d Hd)) as Hraw.
  change (div (raw_similarity d) (max_similarity distances))
    with (raw_similarity d / max_similarity distances).
  change (py_round (raw_similarity d / max_similarity distances) 3)
    with (Exact.round (raw_similarity d / max_similarity distances) 3).
  split.
  - rewrite <- exact_round_zero_3. apply exact_round_mono.
    replace 0 with (0 / max_similarity distances)
      by (unfold Qcdiv; apply Qcmult_0_l).
    apply Qcdiv_le_compat; [assumption | now apply Qclt_le_weak].
  - rewrite <- exact_round_one_3. apply exact_round_mono.
    rewrite <- (Qcdiv_same (max_similarity distances) Hm).
    apply Qcdiv_le_compat; [assumption | now apply Hmax].
Qed.

(** X24.  With an index whose distances are not negative, every suggestion
    [_find_similar_breeds] returns has a similarity between 0 and 1, for
    every frame and every [top_k]. *)
Theorem similarity_is_a_score (user_df : row Qc) (top_k : nat)
  (suggestions : list (BreedSuggestion Qc)) (calls : list event) :
  sound_index A ->
  _find_similar_breeds A user_df top_k = (inr suggestions, calls) ->
  Forall (fun s => 0 <= similarity s <= 1) suggestions.
Proof.
  intros Hsound Hrun.
  destruct (kneighbors A user_df (Nat.min top_k (X_enhanced_len A)))
    as [e|[distances indices]] eqn:Hk.
  - rewrite (find_similar_breeds_unanswered A _ _ e Hk) in Hrun.
    inversion Hrun. constructor.
  - destruct (suggestions_of_answer A user_df top_k distances indices
                Hsound Hk) as (l & Hl & Hshape).
    rewrite Hrun in Hl. inversion Hl; subst l.
    destruct Hshape as [->|Hshape]; [constructor|].
    destruct (Hsound _ _ _ _ Hk) as (_ & _ & _ & Hpos).
    assert (Hitems : Forall (fun item : nat * (Qc * nat) =>
                               In (fst (snd item)) distances)
                            (enumerate 0 (combine distances indices))).
    { apply Forall_forall. intros [i [d idx]] Hin.
      apply enumerate_In, in_combine_l in Hin. exact Hin. }
    clear Hrun Hl Hk.
    induction Hshape as [|item s items l Hs _ IH]; [constructor|].
    inversion Hitems; subst. constructor; [|now apply IH].
    destruct Hs as (_ & _ & _ & ->).
    rewrite (normalised_pos _ _ (max_similarity_pos distances Hpos)).
    apply normalised_similarity_range; assumption.
Qed.

End SimilarityRange.

Lemma similarity_is_a_score_witness :
  exists suggestions calls,
    _find_similar_breeds Sample.artifacts Sample.example_input 4 =
      (inr suggestions, calls) /\
    List.length suggestions = 4%nat /\
    Forall (fun s => (0 <= similarity s <= 1)%Qc) suggestions.
Proof.
  assert (H : exists suggestions calls,
            _find_similar_breeds (F := Qc) Sample.artifacts
              Sample.example_input 4 = (inr suggestions, calls) /\
            List.length suggestions = 4%nat).
  { eexists. eexists. split; [vm_compute; reflexivity | reflexivity]. }
  destruct H as (suggestions & calls & H & Hlen).
  exists suggestions, calls. split; [exact H|]. split; [exact Hlen|].
  apply (similarity_is_a_score Sample.artifacts Sample.example_input 4
           suggestions calls sample_sound_index H).
Defined.

(** ** The one list of suggestions *)

Section OneQuery.
Context {F : Type} {AF : Arith F} {RF : Rounding F} {Py : PyBuiltins}.
Variable A : Artifacts F.

Lemma similar_entries_beyond top_k max_sim (l : list (F * nat)) start :
  (top_k <= start)%nat ->
  similar_entries A top_k max_sim (enumerate start l) = inr [].
Proof.
  revert start. induction l as [|[d idx] l IH]; simpl; intros start H;
    [reflexivity|].
  destruct (Nat.ltb_spec start top_k); [lia|]. apply IH. lia.
Qed.

(** The loop skips every neighbour after the first [top_k]. *)
Lemma similar_entries_firstn top_k max_sim (l : list (F * nat)) start :
  similar_entries A top_k max_sim (enumerate start l) =
  similar_entries A top_k max_sim
    (enumerate start (firstn (top_k - start) l)).
Proof.
  revert start. induction l as [|[d idx] l IH]; intros start.
  - now rewrite firstn_nil.
  - destruct (Nat.ltb_spec start top_k) as [Hlt|Hge].
    + replace (top_k - start)%nat with (S (top_k - S start)) by lia.
      simpl. apply Nat.ltb_lt in Hlt. rewrite Hlt.
      now rewrite (IH (S start)).
    + replace (top_k - start)%nat with 0%nat by lia.
      apply similar_entries_beyond. lia.
Qed.

Lemma enumerate_firstn {X} n (l : list X) start :
  firstn n (enumerate start l) = enumerate start (firstn n l).
Proof.
  revert n start. induction l as [|x l IH]; intros [|n] start; simpl;
    try reflexivity.
  now rewrite IH.
Qed.

Lemma similar_entries_made top_k distances items entries :
  similar_entries A top_k (max_similarity distances) items = inr entries ->
  (forall item, In item items -> (fst item < top_k)%nat) ->
  Forall2 (suggestion_of A distances) items entries.
Proof.
  intros Hrun Hlt. revert entries Hrun.
  induction items as [|[i [dist idx]] rest IH]; simpl; intros entries Hrun.
  - inversion Hrun. constructor.
  - assert (Hi : (i <? top_k)%nat = true).
    { apply Nat.ltb_lt. apply (Hlt (i, (dist, idx))). now left. }
    rewrite Hi in Hrun.
    destruct (breed_name_at A idx) as [e|b] eqn:Hb; [discriminate|].
    destruct (group_label_at A idx) as [e|g] eqn:Hg; [discriminate|].
    destruct (similar_entries A top_k (max_similarity distances) rest)
      as [e|l]; [discriminate|].
    simpl in Hrun. inversion Hrun; subst.
    constructor; [|apply IH; auto; intros; apply Hlt; now right].
    repeat split; auto.
Qed.

Lemma similar_entries_answer top_k max_sim items :
  (forall item, In item items ->
     exists b g, breed_name_at A (snd (snd item)) = inr b /\
                 group_label_at A (snd (snd item)) = inr g) ->
  exists entries, similar_entries A top_k max_sim items = inr entries.
Proof.
  induction items as [|[i [dist idx]] rest IH]; simpl; intros H.
  - eexists; reflexivity.
  - destruct IH as [l Hl]; [intros; apply H; now right|].
    destruct (i <? top_k)%nat; [|eauto].
    destruct (H (i, (dist, idx)) (or_introl eq_refl)) as (b & g & Hb & Hg).
    simpl in Hb, Hg. rewrite Hb, Hg, Hl. simpl. eexists; reflexivity.
Qed.

(** What [_find_similar_breeds] returns on an answer of the index: the
    entries made from the first [top_k] neighbours, or the empty list when
    making one of them raises. *)
Lemma find_similar_breeds_neighbours user_df top_k distances indices :
  kneighbors A user_df (Nat.min top_k (X_enhanced_len A)) =
    inr (distances, indices) ->
  _find_similar_breeds A user_df top_k =
    (inr match similar_entries A top_k (max_similarity distances)
                 (firstn top_k (enumerate 0 (combine distances indices))) with
         | inr entries => entries
         | inl _ => []
         end,
     [Kneighbors (Nat.min top_k (X_enhanced_len A))]).
Proof.
  intros Hk. unfold _find_similar_breeds, catch, bind, call, lift.
  rewrite Hk.
  rewrite (similar_entries_firstn top_k _ (combine distances indices) 0).
  rewrite Nat.sub_0_r, <- enumerate_firstn.
  now destruct (similar_entries A top_k (max_similarity distances) _).
Qed.

(** In any arithmetic: the first suggestion of a list that is not empty is
    made from the first neighbour of the answer, has rank 1, and its
    similarity is the rounding of [raw / max_sim] when [max_sim > 0] and of
    zero when it is not. *)
Lemma first_suggestion_guarded (user_input : row F) (top_k : Z)
  r calls user_df c0 distances indices s rest :
  predict A user_input top_k = (inr r, calls) ->
  prepare A user_input = (inr user_df, c0) ->
  kneighbors A user_df (Nat.min (clamp_k A top_k) (X_enhanced_len A)) =
    inr (distances, indices) ->
  predictions r = s :: rest ->
  exists d ds idx idxs,
    distances = d :: ds /\ indices = idx :: idxs /\
    rank s = 1%nat /\
    similarity s =
      py_round (if ltb (of_Z 0) (max_similarity distances)
                then div (raw_similarity d) (max_similarity distances)
                else of_Z 0) 3.
Proof.
  intros Hrun Hp Hk Hlist.
  apply predict_inr_iff in Hrun
    as (user_df' & c0' & grouped & c1 & suggestions & c2
        & Hp' & Hg & Hs & -> & ->).
  rewrite Hp in Hp'. inversion Hp'; subst user_df' c0'. clear Hp'.
  rewrite (find_similar_breeds_neighbours _ _ _ _ Hk) in Hs.
  inversion Hs as [[Hsug Hc2]]. clear Hs. cbn [predictions assemble] in Hlist.
  rewrite Hlist in Hsug.
  destruct distances as [|d ds];
    [simpl in Hsug; rewrite firstn_nil in Hsug; discriminate|].
  destruct indices as [|idx idxs];
    [simpl in Hsug; rewrite firstn_nil in Hsug; discriminate|].
  exists d, ds, idx, idxs. split; [reflexivity|]. split; [reflexivity|].
  destruct (clamp_k A top_k) as [|k] eqn:Ek; [simpl in Hsug; discriminate|].
  cbn [combine enumerate firstn similar_entries] in Hsug.
  change (0 <? S k)%nat with true in Hsug. cbv iota in Hsug.
  destruct (breed_name_at A idx) as [e|b]; [discriminate|].
  destruct (group_label_at A idx) as [e|g]; [discriminate|].
  destruct (similar_entries A (S k) _ _) as [e|l]; [discriminate|].
  simpl in Hsug. inversion Hsug; subst. split; reflexivity.
Qed.

(** C10.  For a valid request and any [top_k], [predict] returns a result
    whose [predictions] and [similar_breeds] are the same list, and that
    list is what the one query of the run to the similarity index gave: the
    run calls the index exactly once, for [min(k, len(X_enhanced))]
    neighbours of the prepared frame, [k] being the clamped [top_k]; when
    that query raises, the list is empty; when it answers, the list holds
    one suggestion for each of the first [k] neighbours of the answer, in
    the answer's order, made from that neighbour's position and distance,
    unless a neighbour's position is outside the labels, in which case the
    list is empty. *)
Theorem predictions_equal_similar_breeds (user_input : row F) (top_k : Z) :
  valid_input A user_input -> responsive A ->
  exists r calls user_df c0,
    predict A user_input top_k = (inr r, calls) /\
    prepare A user_input = (inr user_df, c0) /\
    predictions r = similar_breeds r /\
    filter is_kneighbors calls =
      [Kneighbors (Nat.min (clamp_k A top_k) (X_enhanced_len A))] /\
    (forall e,
        kneighbors A user_df (Nat.min (clamp_k A top_k) (X_enhanced_len A)) =
          inl e ->
        predictions r = []) /\
    (forall distances indices,
        kneighbors A user_df (Nat.min (clamp_k A top_k) (X_enhanced_len A)) =
          inr (distances, indices) ->
        let neighbours :=
          firstn (clamp_k A top_k) (enumerate 0 (combine distances indices)) in
        ((forall item, In item neighbours ->
            exists b g, breed_name_at A (snd (snd item)) = inr b /\
                        group_label_at A (snd (snd item)) = inr g) ->
         Forall2 (suggestion_of A distances) neighbours (predictions r)) /\
        ((exists item,
             In item neighbours /\
             ((exists e, breed_name_at A (snd (snd item)) = inl e) \/
              (exists e, group_label_at A (snd (snd item)) = inl e))) ->
         predictions r = [])).
Proof.
  intros Hvalid Hresp.
  destruct (predict_succeeds A user_input top_k Hvalid Hresp)
    as (r & calls & Hrun).
  pose proof Hrun as Hparts.
  apply predict_inr_iff in Hparts
    as (user_df & c0 & grouped & c1 & suggestions & c2
        & Hp & Hg & Hs & -> & ->).
  exists (assemble user_df grouped suggestions), (c0 ++ c1 ++ c2), user_df, c0.
  split; [exact Hrun|]. split; [exact Hp|]. split; [reflexivity|].
  set (k := clamp_k A top_k) in *.
  set (n := Nat.min k (X_enhanced_len A)) in *.
  cbn [predictions assemble].
  split; [|split].
  - pose proof (prepare_calls A _ _ _ Hp) as Hc0.
    apply group_predictions_calls in Hg.
    destruct (find_similar_breeds_total A user_df k) as (s' & Hs').
    rewrite Hs in Hs'. inversion Hs'; subst.
    rewrite !filter_app, Hg. simpl.
    assert (E : filter is_kneighbors c0 = []).
    { clear -Hc0. induction c0 as [|e c0 IH]; [reflexivity|].
      simpl in *. apply orb_false_iff in Hc0 as [He Hc0].
      destruct e; simpl in *; try discriminate; auto. }
    now rewrite E.
  - intros e Hk. unfold _find_similar_breeds, catch, bind, call, lift in Hs.
    fold k n in Hs. rewrite Hk in Hs. now inversion Hs.
  - intros distances indices Hk.
    set (neighbours :=
           firstn k (enumerate 0 (combine distances indices))).
    assert (Hlist : suggestions =
              match similar_entries A k (max_similarity distances)
                      neighbours with
              | inr entries => entries
              | inl _ => []
              end).
    { rewrite (find_similar_breeds_neighbours _ _ _ _ Hk) in Hs.
      now inversion Hs. }
    split.
    + intros Hlabels.
      destruct (similar_entries_answer k (max_similarity distances)
                  neighbours Hlabels) as [entries Hentries].
      rewrite Hlist, Hentries.
      apply (similar_entries_made k distances neighbours entries Hentries).
      intros [i x] Hin. unfold neighbours in Hin.
      rewrite enumerate_firstn in Hin. apply enumerate_range in Hin.
      rewrite length_firstn in Hin. simpl. lia.
    + intros ([i [d idx]] & Hin & Hbad).
      assert (Hi : (i < k)%nat).
      { unfold neighbours in Hin. rewrite enumerate_firstn in Hin.
        apply enumerate_range in Hin. rewrite length_firstn in Hin. lia. }
      destruct (similar_entries_fail A k (max_similarity distances)
                  neighbours i d idx Hin Hi Hbad) as [e He].
      now rewrite Hlist, He.
Qed.

End OneQuery.

Lemma predictions_equal_similar_breeds_witness :
  exists r calls user_df c0,
    predict (F := Qc) Sample.artifacts Sample.example_input 3 =
      (inr r, calls) /\
    prepare Sample.artifacts Sample.example_input = (inr user_df, c0) /\
    predictions r = similar_breeds r /\
    filter is_kneighbors calls =
      [Kneighbors (Nat.min (clamp_k Sample.artifacts 3) 4)] /\
    (forall e,
        Sample.index user_df (Nat.min (clamp_k Sample.artifacts 3) 4) =
          inl e ->
        predictions r = []) /\
    (forall distances indices,
        Sample.index user_df (Nat.min (clamp_k Sample.artifacts 3) 4) =
          inr (distances, indices) ->
        let neighbours :=
          firstn (clamp_k Sample.artifacts 3)
                 (enumerate 0 (combine distances indices)) in
        ((forall item, In item neighbours ->
            exists b g,
              breed_name_at Sample.artifacts (snd (snd item)) = inr b /\
              group_label_at Sample.artifacts (snd (snd item)) = inr g) ->
         Forall2 (suggestion_of Sample.artifacts distances) neighbours
                 (predictions r)) /\
        ((exists item,
             In item neighbours /\
             ((exists e,
                  breed_name_at Sample.artifacts (snd (snd item)) = inl e) \/
              (exists e,
                  group_label_at Sample.artifacts (snd (snd item)) = inl e))) ->
         predictions r = [])).
Proof.
  apply (predictions_equal_similar_breeds Sample.artifacts
           Sample.example_input 3%Z).
  - apply sample_valid_example.
  - apply sample_responsive.
Defined.


(** On the illustrative index, whose nearest distances are 0.5, 1 and 3, the
    same request gives in binary64 three suggestions, ranked 1, 2, 3, of
    similarities 1.0, 0.75 and 0.375. *)
Example suggestions_binary64 :
  exists r calls,
    predict (F := float) Sample.artifacts Sample.example_input 3 =
      (inr r, calls) /\
    map (fun s => (rank s, similarity s)) (predictions r) =
      [(1%nat, 1%float); (2%nat, 0.75%float); (3%nat, 0.375%float)].
Proof.
  eexists. eexists. split; [vm_compute; reflexivity|]. reflexivity.
Qed.
